(** * Discompress: the size-targeting upload handler and its admission queue

    A shallow embedding of the three revisions of the backend
    ([server.js], simple and concurrency-capped, and the earlier
    one-retry revision) together with the properties of the bitrate
    planner, the multi-pass size loop, the FIFO admission queue, the
    filename sanitiser, the origin checks, the rate options of the
    encoder, and the cleanup timers and what they leave on disk. *)

From Stdlib Require Import ZArith QArith Qround Qpower Qabs Qreduction.
From Stdlib Require Import Lqa Lia List String Ascii Bool DecimalString.
From Stdlib Require DecimalPos DecimalZ.
Import ListNotations.

Local Open Scope Z_scope.

(** ** JavaScript numbers

    A JavaScript number is an IEEE 754 binary64 value.  Finite values are
    carried as the rational they denote; every arithmetic operation computes
    the exact rational result and rounds it to the nearest binary64 value,
    ties to even: 53 significant bits, gradual underflow below [2^-1022]
    (multiples of [2^-1074]), and [Infinity] once the rounded magnitude
    reaches [2^1024].  The sign of zero is not tracked; it is not observable
    through [Math.floor], [Math.max], [||] and the comparisons as the handler
    uses them.  A string is the list of its code units, all below 256. *)
Module JS.

Inductive number : Type :=
| NaN
| NegInf
| Fin (q : Q)
| PosInf.

(** [ilog2 q] is the binary exponent of a positive rational:
    [2^(ilog2 q) <= q < 2^(ilog2 q + 1)]. *)
Definition ilog2 (q : Q) : Z :=
  let k := Z.log2 (Qnum q) - Z.log2 (Zpos (Qden q)) in
  if Qle_bool (2 ^ k) q then k else k - 1.

(** Nearest integer, ties to the even one. *)
Definition round_half_even (x : Q) : Z :=
  let f := Qfloor x in
  match (x - inject_Z f ?= 1 # 2)%Q with
  | Lt => f
  | Gt => f + 1
  | Eq => if Z.even f then f else f + 1
  end.

(** The nearest multiple of [2^e], ties to the even one. *)
Definition round_to (e : Z) (q : Q) : Q :=
  (inject_Z (round_half_even (q / 2 ^ e)) * 2 ^ e)%Q.

(** The exponent of the grid on which a positive rational is rounded: 53
    significant bits, but never finer than the subnormals' [2^-1074]. *)
Definition grid (q : Q) : Z := Z.max (ilog2 q - 52) (-1074).

(** Rounding of a positive rational. *)
Definition rn_pos (q : Q) : Q := round_to (grid q) q.

(** Round to nearest, ties to even, on all rationals, before overflow is
    looked at. *)
Definition rn (q : Q) : Q :=
  match (q ?= 0)%Q with
  | Eq => 0%Q
  | Gt => Qred (rn_pos q)
  | Lt => Qred (- rn_pos (- q))
  end.

(** The least magnitude that no finite value reaches: [2^1024]. *)
Definition overflow : Q := 2 ^ 1024.

(** The rationals that are binary64 values. *)
Definition representable (q : Q) : Prop := (rn q == q)%Q.

(** The binary64 value of an exact result: the rounded rational, or an
    infinity when rounding takes it to [2^1024] or beyond. *)
Definition round (q : Q) : number :=
  let r := rn q in
  if Qle_bool overflow r then PosInf
  else if Qle_bool r (- overflow) then NegInf
  else Fin r.

(** The numbers a computation can hold: a finite one is a binary64
    value below the overflow threshold. *)
Definition binary64 (a : number) : Prop :=
  match a with
  | Fin q => representable q /\ (- overflow < q)%Q /\ (q < overflow)%Q
  | _ => True
  end.

Definition of_Z (z : Z) : number := Fin (inject_Z z).

(** A decimal literal of the source text, such as [0.82]. *)
Definition literal (q : Q) : number := Fin (rn q).

Definition is_zero (a : number) : bool :=
  match a with
  | Fin q => Qeq_bool q 0
  | _ => false
  end.

(** [ToBoolean] on numbers: [0] and [NaN] are falsy. *)
Definition truthy (a : number) : bool :=
  match a with
  | NaN => false
  | Fin q => negb (Qeq_bool q 0)
  | _ => true
  end.

(** Sign of a non-NaN number: [-1], [0] or [1]. *)
Definition sign (a : number) : Z :=
  match a with
  | NaN => 0
  | NegInf => -1
  | PosInf => 1
  | Fin q => match (q ?= 0)%Q with Lt => -1 | Eq => 0 | Gt => 1 end
  end.

Definition signed_inf (s : Z) : number :=
  if s <? 0 then NegInf else PosInf.

(** [a * b] *)
Definition mul (a b : number) : number :=
  match a, b with
  | NaN, _ | _, NaN => NaN
  | Fin x, Fin y => round (x * y)
  | _, _ =>
      if is_zero a || is_zero b then NaN
      else signed_inf (sign a * sign b)
  end.

(** [a / b] *)
Definition div (a b : number) : number :=
  match a, b with
  | NaN, _ | _, NaN => NaN
  | Fin x, Fin y =>
      if Qeq_bool y 0
      then (if Qeq_bool x 0 then NaN else signed_inf (sign a))
      else round (x / y)
  | Fin _, _ => Fin 0
  | _, Fin _ => signed_inf (sign a * (if is_zero b then 1 else sign b))
  | _, _ => NaN
  end.

(** [a - b] *)
Definition sub (a b : number) : number :=
  match a, b with
  | NaN, _ | _, NaN => NaN
  | Fin x, Fin y => round (x - y)
  | PosInf, PosInf | NegInf, NegInf => NaN
  | PosInf, _ | _, NegInf => PosInf
  | NegInf, _ | _, PosInf => NegInf
  end.

(** [a <= b]; false as soon as one side is [NaN]. *)
Definition le (a b : number) : bool :=
  match a, b with
  | NaN, _ | _, NaN => false
  | NegInf, _ | _, PosInf => true
  | Fin x, Fin y => Qle_bool x y
  | _, _ => false
  end.

(** [a > b] *)
Definition gt (a b : number) : bool :=
  match a, b with
  | NaN, _ | _, NaN => false
  | _, _ => negb (le a b)
  end.

(** [Math.max(a, b)] *)
Definition Math_max (a b : number) : number :=
  match a, b with
  | NaN, _ | _, NaN => NaN
  | _, _ => if le a b then b else a
  end.

(** [Math.floor(a)] *)
Definition Math_floor (a : number) : number :=
  match a with
  | Fin q => Fin (inject_Z (Qfloor q))
  | _ => a
  end.

(** A property read off an object that may lack it: [undefined], a
    number or a string. *)
Inductive value : Type :=
| Undefined
| Num (n : number)
| Str (s : string).

(** [v || d] for a numeric default [d]: [undefined], [0], [NaN] and the
    empty string are falsy. *)
Definition or_else (v : value) (d : number) : value :=
  match v with
  | Undefined => Num d
  | Num n => if truthy n then v else Num d
  | Str s => if String.eqb s EmptyString then Num d else v
  end.

(** *** Strings read as numbers

    [StringToNumber]: white space around the literal is dropped; the
    empty string is [0]; a literal is [Infinity] or a decimal literal
    with an optional sign, or an unsigned binary, octal or hexadecimal
    integer; anything else is [NaN]. *)

(** White space and line terminators below 256. *)
Definition is_space (c : ascii) : bool :=
  let n := N_of_ascii c in
  ((n =? 9) || (n =? 10) || (n =? 11) || (n =? 12) || (n =? 13)
   || (n =? 32) || (n =? 160))%N.

Fixpoint trim_start (cs : list ascii) : list ascii :=
  match cs with
  | c :: r => if is_space c then trim_start r else cs
  | [] => []
  end.

Definition trim (cs : list ascii) : list ascii :=
  List.rev (trim_start (List.rev (trim_start cs))).

(** The value of a digit in the given base, letters in either case. *)
Definition digit (base : N) (c : ascii) : option N :=
  let n := N_of_ascii c in
  let v :=
    (if (48 <=? n) && (n <=? 57) then Some (n - 48)
     else if (97 <=? n) && (n <=? 102) then Some (n - 87)
     else if (65 <=? n) && (n <=? 70) then Some (n - 55)
     else None)%N in
  match v with
  | Some d => if (d <? base)%N then Some d else None
  | None => None
  end.

(** The longest run of digits at the head, and what follows it. *)
Fixpoint digits (base : N) (cs : list ascii) : list N * list ascii :=
  match cs with
  | c :: r =>
      match digit base c with
      | Some d => let (ds, rest) := digits base r in (d :: ds, rest)
      | None => ([], cs)
      end
  | [] => ([], [])
  end.

Definition digits_value (base : N) (ds : list N) : Z :=
  Z.of_N (fold_left (fun a d => a * base + d)%N ds 0%N).

(** [ExponentPart], or nothing, up to the end of the string. *)
Definition exponent (cs : list ascii) : option Z :=
  match cs with
  | [] => Some 0
  | c :: r =>
      if Ascii.eqb c "e" || Ascii.eqb c "E"
      then
        let (negative, r') :=
          match r with
          | s :: r'' =>
              if Ascii.eqb s "-" then (true, r'')
              else if Ascii.eqb s "+" then (false, r'')
              else (false, r)
          | [] => (false, r)
          end in
        match digits 10 r' with
        | (d :: ds, []) =>
            let e := digits_value 10 (d :: ds) in
            Some (if negative then - e else e)
        | _ => None
        end
      else None
  end.

(** [StrUnsignedDecimalLiteral] without [Infinity]: digits with an
    optional fraction, or a fraction alone, then an optional exponent. *)
Definition decimal_literal (cs : list ascii) : option Q :=
  let (whole, r1) := digits 10 cs in
  let (fraction, r2) :=
    match r1 with
    | c :: r => if Ascii.eqb c "." then digits 10 r else ([], r1)
    | [] => ([], r1)
    end in
  match whole ++ fraction with
  | [] => None
  | ds =>
      match exponent r2 with
      | Some e =>
          Some (inject_Z (digits_value 10 ds)
                * 10 ^ (e - Z.of_nat (List.length fraction)))%Q
      | None => None
      end
  end.

Definition Infinity_text : list ascii :=
  ["I"; "n"; "f"; "i"; "n"; "i"; "t"; "y"]%char.

Definition same_text (a b : list ascii) : bool :=
  String.eqb (string_of_list_ascii a) (string_of_list_ascii b).

(** A literal without sign; [negative] says which sign preceded it. *)
Definition unsigned_literal (negative : bool) (cs : list ascii) : number :=
  if same_text cs Infinity_text
  then (if negative then NegInf else PosInf)
  else match decimal_literal cs with
       | Some q => round (if negative then - q else q)
       | None => NaN
       end.

(** [0x...], [0o...], [0b...]: at least one digit, nothing else. *)
Definition prefixed_literal (base : N) (cs : list ascii) : number :=
  match digits base cs with
  | (d :: ds, []) => round (inject_Z (digits_value base (d :: ds)))
  | _ => NaN
  end.

Definition StringToNumber (s : string) : number :=
  match trim (list_ascii_of_string s) with
  | [] => Fin 0
  | c :: r =>
      let signed :=
        if Ascii.eqb c "+" then unsigned_literal false r
        else if Ascii.eqb c "-" then unsigned_literal true r
        else unsigned_literal false (c :: r) in
      if Ascii.eqb c "0"
      then match r with
           | p :: r' =>
               if Ascii.eqb p "x" || Ascii.eqb p "X"
               then prefixed_literal 16 r'
               else if Ascii.eqb p "o" || Ascii.eqb p "O"
               then prefixed_literal 8 r'
               else if Ascii.eqb p "b" || Ascii.eqb p "B"
               then prefixed_literal 2 r'
               else signed
           | [] => signed
           end
      else signed
  end.

(** [ToNumber], as [Math.max] applies it to its arguments. *)
Definition ToNumber (v : value) : number :=
  match v with
  | Undefined => NaN
  | Num n => n
  | Str s => StringToNumber s
  end.

(** [`${n}`] for an integer. *)
Definition decimal (z : Z) : string := NilZero.string_of_int (Z.to_int z).

End JS.

(** ** File names *)
Module Names.

Local Open Scope char_scope.

Definition between (lo hi c : ascii) : bool :=
  ((N_of_ascii lo <=? N_of_ascii c) && (N_of_ascii c <=? N_of_ascii hi))%N.

(** The class [\w]. *)
Definition word_char (c : ascii) : bool :=
  between "a" "z" c || between "A" "Z" c || between "0" "9" c
  || Ascii.eqb c "_".

(** The class [\w.\- ]: word characters, dot, hyphen, space. *)
Definition permitted (c : ascii) : bool :=
  word_char c || Ascii.eqb c "." || Ascii.eqb c "-" || Ascii.eqb c " ".

(** [s.replace(/[^\w.\- ]+/g, '')]: every run of characters outside the
    class is deleted. *)
Fixpoint strip (s : string) : string :=
  match s with
  | EmptyString => EmptyString
  | String c r => if permitted c then String c (strip r) else strip r
  end.

Fixpoint no_dot (s : string) : bool :=
  match s with
  | EmptyString => true
  | String c r => negb (Ascii.eqb c ".") && no_dot r
  end.

(** [s.replace(/\.[^.]+$/, '')]: the leftmost dot that is followed, up to
    the end of the string, by one or more characters none of which is a
    dot, is deleted together with what follows it. *)
Fixpoint strip_ext (s : string) : string :=
  match s with
  | EmptyString => EmptyString
  | String c r =>
      if Ascii.eqb c "." && no_dot r && negb (String.eqb r EmptyString)
      then EmptyString
      else String c (strip_ext r)
  end.

Local Open Scope string_scope.

(** [x || 'video'] on a string that may be undefined: the empty string is
    falsy. *)
Definition or_video (x : option string) : string :=
  match x with
  | None | Some EmptyString => "video"
  | Some s => s
  end.

(** [originalName], as all three revisions compute it. *)
Definition originalName (originalname : option string) : string :=
  strip (or_video originalname).

Definition base (originalname : option string) : string :=
  strip_ext (originalName originalname).

Definition outName (originalname : option string) : string :=
  "discompress_" ++ base originalname ++ ".mp4".

(** [path.join(TMP_DIR, name)] with [TMP_DIR = './tmp'], for a [name]
    without separators. *)
Definition in_TMP_DIR (name : string) : string := "tmp/" ++ name.

Fixpoint chars (s : string) : list ascii :=
  match s with
  | EmptyString => []
  | String c r => c :: chars r
  end.

End Names.

(** ** The host: ffprobe, ffmpeg, the clock, the temporary directory and
    the HTTP response *)
Module Host.

Import JS.

Record EncodeCall : Type := {
  call_input : string;
  call_output : string;
  call_videoKbps : number;
  call_audioKbps : number;
  call_maxWidth : number
}.

(** How one run of the external encoder ends: its ['error'] event, or its
    ['end'] event after writing a file of [size] bytes. *)
Inductive Outcome : Type :=
| Rejects
| Writes (size : Z).

Record Format : Type := { duration : value }.
Record Meta : Type := { format : option Format }.

(** The collaborators a request talks to.  [ffmpeg k call] is how the
    [k]-th encoder run of the request ends, [Date_now k] what the [k]-th
    reading of the clock returns.  A run that ends in ['error'] may have
    opened its output file before it failed: [leaves k call] is the size
    of what it then leaves at the output path, [None] when it failed
    before touching the disk. *)
Record Env : Type := {
  ffprobe : string -> option Meta;
  ffmpeg : nat -> EncodeCall -> Outcome;
  leaves : nat -> EncodeCall -> option Z;
  Date_now : nat -> Z
}.

Inductive Body : Type :=
| Text (message : string)
| Piped (filePath : string).

Record Res : Type := {
  statusCode : Z;
  headers : list (string * string);
  body : option Body
}.

(** What a request has changed so far. *)
Record World : Type := {
  files : list (string * Z);
  ticks : nat;
  encodes : list EncodeCall;
  timers : list (list (option string) * Z);
  res : Res
}.

Definition fresh_res : Res :=
  {| statusCode := 200; headers := []; body := None |}.

(** The world in which a request starts: the upload is on disk. *)
Definition start (uploads : list (string * Z)) : World :=
  {| files := uploads; ticks := 0; encodes := []; timers := [];
     res := fresh_res |}.

Definition lookup (p : string) (fs : list (string * Z)) : option Z :=
  match find (fun e => String.eqb (fst e) p) fs with
  | Some e => Some (snd e)
  | None => None
  end.

Definition remove (p : string) (fs : list (string * Z)) : list (string * Z) :=
  filter (fun e => negb (String.eqb (fst e) p)) fs.

Definition write (p : string) (size : Z) (fs : list (string * Z))
  : list (string * Z) :=
  remove p fs ++ [(p, size)].

(** The assignments a request makes to its world. *)
Definition tick (w : World) : World :=
  {| files := files w; ticks := S (ticks w); encodes := encodes w;
     timers := timers w; res := res w |}.

Definition log_call (c : EncodeCall) (w : World) : World :=
  {| files := files w; ticks := ticks w; encodes := encodes w ++ [c];
     timers := timers w; res := res w |}.

Definition put_file (p : string) (size : Z) (w : World) : World :=
  {| files := write p size (files w); ticks := ticks w;
     encodes := encodes w; timers := timers w; res := res w |}.

(** The disk after a run that failed: the file it left, if any, is at
    its output path. *)
Definition left_behind (p : string) (left : option Z) (w : World)
  : World :=
  match left with
  | Some size => put_file p size w
  | None => w
  end.

Definition drop_file (p : string) (w : World) : World :=
  {| files := remove p (files w); ticks := ticks w;
     encodes := encodes w; timers := timers w; res := res w |}.

Definition with_res (r : Res) (w : World) : World :=
  {| files := files w; ticks := ticks w; encodes := encodes w;
     timers := timers w; res := r |}.

Definition add_timer (paths : list (option string)) (delay : Z)
    (w : World) : World :=
  {| files := files w; ticks := ticks w; encodes := encodes w;
     timers := timers w ++ [(paths, delay)]; res := res w |}.

Definition exists_file (p : string) (w : World) : bool :=
  match lookup p (files w) with Some _ => true | None => false end.

(** The paths handed to [cleanupLater] so far; [null] entries are skipped
    by the timer's [p && ...] test. *)
Definition scheduled (w : World) : list string :=
  flat_map
    (fun t => flat_map (fun p => match p with Some s => [s] | None => [] end)
                (fst t))
    (timers w).

Definition outputs (w : World) : list string :=
  map call_output (encodes w).

(** An awaited computation either completes or throws (a rejected
    promise); it always leaves a world behind. *)
Inductive Completion (A : Type) : Type :=
| Normal (a : A)
| Throw.
Arguments Normal {A} a.
Arguments Throw {A}.

Definition M (A : Type) : Type := World -> Completion A * World.

Definition ret {A} (a : A) : M A := fun w => (Normal a, w).

Definition bind {A B} (m : M A) (k : A -> M B) : M B :=
  fun w =>
    match m w with
    | (Normal a, w') => k a w'
    | (Throw, w') => (Throw, w')
    end.

Definition throw {A} : M A := fun w => (Throw, w).

(** [try { body } catch (e) { handler }] *)
Definition try_catch {A} (body handler : M A) : M A :=
  fun w =>
    match body w with
    | (Normal a, w') => (Normal a, w')
    | (Throw, w') => handler w'
    end.

End Host.

Declare Scope js_scope.
Delimit Scope js_scope with js.
Notation "x <- m ;; k" := (Host.bind m (fun x => k))
  (at level 61, m at next level, right associativity) : js_scope.
Notation "m ;; k" := (Host.bind m (fun _ => k))
  (at level 61, right associativity) : js_scope.
Notation "'try' b 'catch' h" := (Host.try_catch b h)
  (at level 62, b at level 61, h at level 61) : js_scope.

(** ** What the revisions share *)
Module Server.

Import JS Names Host.
Local Open Scope string_scope.
Local Open Scope js_scope.

(** The values read from the environment at start-up. *)
Record Config : Type := {
  TARGET_MB : number;
  AUDIO_KBPS : number;
  MAX_WIDTH : number
}.

(** The defaults: ['9.8'], ['96'], ['1280']. *)
Definition defaults : Config :=
  {| TARGET_MB := literal (98 # 10);
     AUDIO_KBPS := of_Z 96;
     MAX_WIDTH := of_Z 1280 |}.

(** [req.file], when multer found the [video] field. *)
Record File : Type := {
  path : string;
  originalname : option string
}.

Record Request : Type := { file : option File }.

Definition message_400 : string := "No file uploaded".
Definition message_500 : string :=
  "Compression failed. Try a shorter clip or lower source bitrate.".

Definition quoted (s : string) : string :=
  String (ascii_of_nat 34) (s ++ String (ascii_of_nat 34) EmptyString).

(** [res.status(code).send(text)] on the response object. *)
Definition with_text (code : Z) (text : string) (r : Res) : Res :=
  {| statusCode := code; headers := headers r; body := Some (Text text) |}.

(** The two [res.setHeader] calls of [streamDownload]. *)
Definition with_download_headers (downloadName : string) (r : Res) : Res :=
  {| statusCode := statusCode r;
     headers :=
       (headers r
        ++ [("Content-Type", "video/mp4");
            ("Content-Disposition",
             ("attachment; filename=" ++ quoted downloadName)%string)])%list;
     body := body r |}.

(** [fs.createReadStream(filePath).pipe(res)] *)
Definition with_pipe (filePath : string) (r : Res) : Res :=
  {| statusCode := statusCode r; headers := headers r;
     body := Some (Piped filePath) |}.

(** The callback that [cleanupLater] hands to [setTimeout], one path at a
    time: [if (p && fs.existsSync(p)) fs.unlink(p, () => {})].  [null] and
    the empty string are falsy; the unlink is taken as done. *)
Definition unlink_if_present (fs : list (string * Z)) (p : option string)
  : list (string * Z) :=
  match p with
  | None => fs
  | Some s =>
      if String.eqb s EmptyString then fs
      else match lookup s fs with
           | Some _ => remove s fs
           | None => fs
           end
  end.

(** [for (const p of paths) ...] *)
Definition fire (paths : list (option string)) (fs : list (string * Z))
  : list (string * Z) :=
  fold_left unlink_if_present paths fs.

(** The temporary directory once every timer the request has set has
    fired, in the order they were set. *)
Definition after_timers (w : World) : list (string * Z) :=
  fold_left (fun fs t => fire (fst t) fs) (timers w) (files w).

Section WithHost.

Variable cfg : Config.
Variable env : Env.

(** [Date.now()] *)
Definition now : M Z :=
  fun w => (Normal (Date_now env (ticks w)), tick w).

(** [probe(file)] *)
Definition probe (file : string) : M Meta :=
  fun w =>
    match ffprobe env file with
    | Some d => (Normal d, w)
    | None => (Throw, w)
    end.

(** [encode(input, output, videoKbps, audioKbps, maxWidth)]: the promise
    resolves on ['end'], with the output written, and rejects on
    ['error'], with whatever the run left at the output path. *)
Definition encode (input output : string)
    (videoKbps audioKbps maxWidth : number) : M unit :=
  fun w =>
    let call :=
      {| call_input := input; call_output := output;
         call_videoKbps := videoKbps; call_audioKbps := audioKbps;
         call_maxWidth := maxWidth |} in
    let k := List.length (encodes w) in
    match ffmpeg env k call with
    | Rejects =>
        (Throw, left_behind output (leaves env k call) (log_call call w))
    | Writes size => (Normal tt, put_file output size (log_call call w))
    end.

(** [(await fsp.stat(p)).size] *)
Definition stat_size (p : string) : M Z :=
  fun w =>
    match lookup p (files w) with
    | Some size => (Normal size, w)
    | None => (Throw, w)
    end.

(** [await fsp.unlink(p).catch(()=>{})] *)
Definition unlink_quietly (p : string) : M unit :=
  fun w => (Normal tt, drop_file p w).

Definition set_res (r : Res) : M unit :=
  fun w => (Normal tt, with_res r w).

Definition set_res_with (f : Res -> Res) : M unit :=
  fun w => (Normal tt, with_res (f (res w)) w).

(** [res.status(code).send(text)] *)
Definition send (code : Z) (text : string) : M unit :=
  fun w => set_res (with_text code text (res w)) w.

(** [streamDownload(res, filePath, downloadName)]: the two headers are
    set, then the file is piped; opening a missing file rejects. *)
Definition streamDownload (filePath downloadName : string) : M unit :=
  set_res_with (with_download_headers downloadName) ;;
  fun w =>
    if exists_file filePath w
    then set_res (with_pipe filePath (res w)) w
    else throw w.

(** [cleanupLater(paths)], with the delay of the revision. *)
Definition cleanupLater (delay : Z) (paths : list (option string))
  : M unit :=
  fun w => (Normal tt, add_timer paths delay w).

(** [meta.format?.duration] *)
Definition format_duration (meta : Meta) : value :=
  match format meta with
  | Some f => duration f
  | None => Undefined
  end.

(** [const targetBytes = Math.floor(TARGET_MB * 1024 * 1024)] *)
Definition targetBytes : number :=
  Math_floor (mul (mul (TARGET_MB cfg) (of_Z 1024)) (of_Z 1024)).

(** [req.file?.path], with the [!inputPath] test. *)
Definition inputPath_of (req : Request) : option (File * string) :=
  match file req with
  | None => None
  | Some f =>
      if String.eqb (path f) EmptyString then None else Some (f, path f)
  end.

(** The [for] loop of both revisions of [server.js], from index [i] on:
    [rest] is what remains of [passes] (resp. [factors]); the result is
    [lastOut] when the loop is left. *)
Fixpoint size_loop (inputPath outName firstOut : string)
    (initialVideoKbps : number) (rest : list number) (i : nat)
    (lastOut : string) (videoKbpsNow : number) : M string :=
  match rest with
  | [] => ret lastOut
  | factor :: rest' =>
      out <- (if Nat.eqb i 0 then ret firstOut
              else t <- now ;;
                   ret (in_TMP_DIR
                          (decimal t ++ "_" ++ decimal (Z.of_nat i)
                           ++ "_" ++ outName))) ;;
      let videoKbpsNow :=
        if Nat.ltb 0 i
        then Math_max (of_Z 48)
               (Math_floor (mul initialVideoKbps factor))
        else videoKbpsNow in
      encode inputPath out videoKbpsNow (AUDIO_KBPS cfg) (MAX_WIDTH cfg) ;;
      sizeNow <- stat_size out ;;
      if le (of_Z sizeNow) targetBytes
      then ret out
      else size_loop inputPath outName firstOut initialVideoKbps
             rest' (S i) out videoKbpsNow
  end.

End WithHost.

End Server.

(** ** [server.js], first revision: no queue, three passes *)
Module Simple.

Import JS Names Host Server.
Local Open Scope string_scope.
Local Open Scope js_scope.

Section WithHost.

Variable cfg : Config.
Variable env : Env.

(** [const duration = Math.max(1, meta.format?.duration || 1)] *)
Definition duration (meta : Meta) : number :=
  Math_max (of_Z 1) (ToNumber (or_else (format_duration meta) (of_Z 1))).

(** [const totalKbps =
     Math.max(200, Math.floor((targetBytes * 8) / duration / 1000))] *)
Definition totalKbps (duration : number) : number :=
  Math_max (of_Z 200)
    (Math_floor
       (div (div (mul (targetBytes cfg) (of_Z 8)) duration) (of_Z 1000))).

(** [const initialVideoKbps = Math.max(64, totalKbps - AUDIO_KBPS)] *)
Definition initialVideoKbps (totalKbps : number) : number :=
  Math_max (of_Z 64) (sub totalKbps (AUDIO_KBPS cfg)).

Definition passes : list number :=
  [literal 1; literal (85 # 100); literal (72 # 100)].

Definition upload (req : Request) : M unit :=
  match inputPath_of req with
  | None => send 400 message_400
  | Some (f, inputPath) =>
      let outName := outName (originalname f) in
      t <- now env ;;
      let firstOut := in_TMP_DIR (decimal t ++ "_" ++ outName) in
      try (
        meta <- probe env inputPath ;;
        let duration := duration meta in
        let totalKbps := totalKbps duration in
        let initialVideoKbps := initialVideoKbps totalKbps in
        lastOut <- size_loop cfg env inputPath outName firstOut
                     initialVideoKbps passes 0 firstOut
                     initialVideoKbps ;;
        streamDownload lastOut outName ;;
        cleanupLater 12000
          [Some inputPath;
           if String.eqb firstOut lastOut then None else Some firstOut;
           Some lastOut]
      ) catch (
        cleanupLater 12000 [Some inputPath; Some firstOut] ;;
        send 500 message_500
      )
  end.

End WithHost.

(** The rate-control options of [encode]:
    ['-maxrate', `${Math.floor(videoKbps * 1.2)}k`] and
    ['-bufsize', `${Math.floor(videoKbps * 2)}k`], as numbers. *)
Definition maxrate (videoKbps : number) : number :=
  Math_floor (mul videoKbps (literal (12 # 10))).

Definition bufsize (videoKbps : number) : number :=
  Math_floor (mul videoKbps (of_Z 2)).

End Simple.

(** ** [server.js], second revision: queued, four factors *)
Module Queued.

Import JS Names Host Server.
Local Open Scope string_scope.
Local Open Scope js_scope.

Section WithHost.

Variable cfg : Config.
Variable env : Env.

(** [const duration = Math.max(1, meta.format?.duration || 1)] *)
Definition duration (meta : Meta) : number :=
  Math_max (of_Z 1) (ToNumber (or_else (format_duration meta) (of_Z 1))).

(** [const totalKbps =
     Math.max(180, Math.floor((targetBytes * 8) / duration / 1000))] *)
Definition totalKbps (duration : number) : number :=
  Math_max (of_Z 180)
    (Math_floor
       (div (div (mul (targetBytes cfg) (of_Z 8)) duration) (of_Z 1000))).

(** [const initialVideoKbps = Math.max(56, totalKbps - AUDIO_KBPS)] *)
Definition initialVideoKbps (totalKbps : number) : number :=
  Math_max (of_Z 56) (sub totalKbps (AUDIO_KBPS cfg)).

Definition factors : list number :=
  [literal 1; literal (82 # 100); literal (68 # 100); literal (56 # 100)].

(** The function handed to [enqueue]; it returns
    [{ filePath: lastOut, outName, firstOut }]. *)
Definition jobFn (f : File) (inputPath : string)
  : M (string * string * string) :=
  let outName := outName (originalname f) in
  t <- now env ;;
  let firstOut := in_TMP_DIR (decimal t ++ "_" ++ outName) in
  meta <- probe env inputPath ;;
  let duration := duration meta in
  let totalKbps := totalKbps duration in
  let initialVideoKbps := initialVideoKbps totalKbps in
  lastOut <- size_loop cfg env inputPath outName firstOut
               initialVideoKbps factors 0 firstOut initialVideoKbps ;;
  ret (lastOut, outName, firstOut).

(** The handler.  [await enqueue(jobFn)] completes as [jobFn] does once
    the queue has run it (module [Queue] below says when); of the object
    it returns only [filePath] and [outName] are read. *)
Definition upload (req : Request) : M unit :=
  match inputPath_of req with
  | None => send 400 message_400
  | Some (f, inputPath) =>
      try (
        r <- jobFn f inputPath ;;
        let '(filePath, outName, _) := r in
        streamDownload filePath outName ;;
        cleanupLater 12000 [Some inputPath; Some filePath]
      ) catch (
        cleanupLater 12000 [Some inputPath] ;;
        send 500 message_500
      )
  end.

End WithHost.

(** The rate-control options of [encode]:
    ['-maxrate', `${Math.floor(videoKbps * 1.15)}k`] and
    ['-bufsize', `${Math.floor(videoKbps * 2)}k`], as numbers. *)
Definition maxrate (videoKbps : number) : number :=
  Math_floor (mul videoKbps (literal (115 # 100))).

Definition bufsize (videoKbps : number) : number :=
  Math_floor (mul videoKbps (of_Z 2)).

End Queued.

(** ** The earlier revision: one pass and one retry at 85% *)
Module Legacy.

Import JS Names Host Server.
Local Open Scope string_scope.
Local Open Scope js_scope.

Definition message_500 : string :=
  "Compression failed. Try a shorter clip or smaller source.".

Section WithHost.

Variable cfg : Config.
Variable env : Env.

(** [const duration = Math.max(1, meta.format.duration || 1)], once
    [meta.format.duration] has been read. *)
Definition duration (d : value) : number :=
  Math_max (of_Z 1) (ToNumber (or_else d (of_Z 1))).

(** [const totalKbps =
     Math.max(200, Math.floor((targetBytes * 8) / duration / 1000))] *)
Definition totalKbps (duration : number) : number :=
  Math_max (of_Z 200)
    (Math_floor
       (div (div (mul (targetBytes cfg) (of_Z 8)) duration) (of_Z 1000))).

(** [let videoKbps = Math.max(64, totalKbps - AUDIO_KBPS)] *)
Definition videoKbps (totalKbps : number) : number :=
  Math_max (of_Z 64) (sub totalKbps (AUDIO_KBPS cfg)).

(** [videoKbps = Math.max(48, Math.floor(videoKbps * 0.85))] *)
Definition retryKbps (videoKbps : number) : number :=
  Math_max (of_Z 48) (Math_floor (mul videoKbps (literal (85 # 100)))).

(** [req.file.path] and [meta.format.duration] are read without a
    guard: on a missing object the read throws. *)
Definition upload (req : Request) : M unit :=
  match file req with
  | None => throw
  | Some f =>
      let inputPath := path f in
      let outName := outName (originalname f) in
      t <- now env ;;
      let outputPath := in_TMP_DIR (decimal t ++ "_" ++ outName) in
      try (
        meta <- probe env inputPath ;;
        d <- match format meta with
             | Some fm => ret (Host.duration fm)
             | None => throw
             end ;;
        let duration := duration d in
        let totalKbps := totalKbps duration in
        let videoKbps := videoKbps totalKbps in
        encode env inputPath outputPath videoKbps (AUDIO_KBPS cfg)
          (MAX_WIDTH cfg) ;;
        size <- stat_size outputPath ;;
        if gt (of_Z size) (targetBytes cfg)
        then
          t' <- now env ;;
          let retryOut :=
            in_TMP_DIR (decimal t' ++ "_retry_" ++ outName) in
          let videoKbps := retryKbps videoKbps in
          encode env inputPath retryOut videoKbps (AUDIO_KBPS cfg)
            (MAX_WIDTH cfg) ;;
          unlink_quietly outputPath ;;
          _ <- stat_size retryOut ;;
          streamDownload retryOut outName ;;
          cleanupLater 10000 [Some inputPath; Some retryOut]
        else
          streamDownload outputPath outName ;;
          cleanupLater 10000 [Some inputPath; Some outputPath]
      ) catch (
        cleanupLater 10000 [Some inputPath; Some outputPath] ;;
        send 500 message_500
      )
  end.

End WithHost.

End Legacy.

(** ** The origin check handed to [cors] *)
Module Cors.

Local Open Scope string_scope.

(** [ALLOWED] of the first revision and [FRONTEND] of the second. *)
Definition ALLOWED : list string := ["https://owenk944.github.io"].
Definition FRONTEND : string := "https://owenk944.github.io".

(** [!origin]: the header is absent or empty. *)
Definition falsy (origin : option string) : bool :=
  match origin with
  | None | Some EmptyString => true
  | Some _ => false
  end.

(** [xs.includes(x)] on strings. *)
Definition includes (xs : list string) (x : string) : bool :=
  existsb (String.eqb x) xs.

(** [s.startsWith(p)] *)
Definition startsWith (s p : string) : bool := String.prefix p s.

(** [!origin || ALLOWED.includes(origin)]: [true] stands for
    [cb(null, true)], [false] for [cb(new Error(...))]. *)
Definition simple_origin (origin : option string) : bool :=
  falsy origin
  || match origin with
     | Some o => includes ALLOWED o
     | None => false
     end.

(** [!o || o.startsWith(FRONTEND)] *)
Definition queued_origin (o : option string) : bool :=
  falsy o
  || match o with
     | Some s => startsWith s FRONTEND
     | None => false
     end.

End Cors.

(** ** The three revisions of the handler under one name *)
Module Revisions.

Import Host Server.

Inductive Revision : Type :=
| First      (* [server.js], no queue *)
| Second     (* [server.js], queued *)
| Earlier.   (* one pass and one retry *)

Definition upload (rev : Revision) (cfg : Config) (env : Env)
    (req : Request) : M unit :=
  match rev with
  | First => Simple.upload cfg env req
  | Second => Queued.upload cfg env req
  | Earlier => Legacy.upload cfg env req
  end.

End Revisions.

(** ** The bitrate planner as the specification words it *)
Module Spec.

Import JS.

Section Plan.

Variables floorTotalKbps floorVideoKbps : number.

(** [totalKbps = max(floorTotalKbps,
                     floor(targetBytes * 8 / durationSeconds / 1000))] *)
Definition totalKbps (durationSeconds targetBytes : number) : number :=
  Math_max floorTotalKbps
    (Math_floor
       (div (div (mul targetBytes (of_Z 8)) durationSeconds)
          (of_Z 1000))).

(** [plan(durationSeconds, targetBytes, audioKbps) -> initialVideoKbps],
    with [initialVideoKbps = max(floorVideoKbps, totalKbps - audioKbps)]. *)
Definition plan (durationSeconds targetBytes audioKbps : number)
  : number :=
  Math_max floorVideoKbps
    (sub (totalKbps durationSeconds targetBytes) audioKbps).

End Plan.

(** The bitrate of attempt [i]: [initialVideoKbps] at index 0, then
    [max(48, floor(initialVideoKbps * factor_i))]. *)
Definition videoKbpsNow (initialVideoKbps : number)
    (schedule : list number) (i : nat) : number :=
  if Nat.eqb i 0 then initialVideoKbps
  else Math_max (of_Z 48)
         (Math_floor (mul initialVideoKbps (nth i schedule NaN))).

End Spec.

(** ** The admission queue of the second revision

    [queue] and [running] are the two module-level variables; [enqueue] and
    [pump] are the two functions.  A request is named by its arrival
    number.  The machine below runs on the event loop: each input is one
    uninterrupted turn. *)
Module Queue.

Definition Job : Type := nat.

(** What has happened, oldest first. *)
Inductive Event : Type :=
| Started (j : Job)          (* [jobFn] of [j] taken off the queue *)
| Released (j : Job)         (* [running--] after [j] *)
| Streaming (j : Job)        (* [streamDownload] begins for [j] *)
| Sent500 (j : Job).         (* the [catch] branch answers [j] *)

Record State : Type := {
  queue : list Job;
  running : Z;
  inside : list Job;           (* jobs between probe and last encode *)
  settled : list (Job * bool); (* [enqueue] promises resolved / rejected,
                                  their handlers not yet resumed *)
  arrived : nat;
  history : list Event
}.

Definition init : State :=
  {| queue := []; running := 0; inside := []; settled := [];
     arrived := 0; history := [] |}.

Section WithCapacity.

Variable CONCURRENCY : Z.

(** [pump()] *)
Definition pump (s : State) : State :=
  if (running s >=? CONCURRENCY) || (Nat.eqb (List.length (queue s)) 0)
  then s
  else
    match queue s with
    | [] => s
    | j :: rest =>
        {| queue := rest; running := running s + 1;
           inside := inside s ++ [j]; settled := settled s;
           arrived := arrived s;
           history := history s ++ [Started j] |}
    end.

(** [enqueue(jobFn)] for the next request: push, then [pump()]. *)
Definition enqueue (s : State) : State :=
  pump {| queue := queue s ++ [arrived s]; running := running s;
          inside := inside s; settled := settled s;
          arrived := S (arrived s); history := history s |}.

(** The callbacks chained on the job's promise:
    [running--; pump(); resolve(v)] and [running--; pump(); reject(e)]. *)
Definition finished (j : Job) (ok : bool) (s : State) : State :=
  let s1 :=
    {| queue := queue s; running := running s - 1;
       inside := List.remove Nat.eq_dec j (inside s);
       settled := settled s; arrived := arrived s;
       history := history s ++ [Released j] |} in
  let s2 := pump s1 in
  {| queue := queue s2; running := running s2; inside := inside s2;
     settled := settled s2 ++ [(j, ok)]; arrived := arrived s2;
     history := history s2 |}.

(** The handler resumes after [await enqueue(...)]: it streams, or its
    [catch] answers 500. *)
Definition resumed (j : Job) (ok : bool) (s : State) : State :=
  {| queue := queue s; running := running s; inside := inside s;
     settled :=
       filter (fun e => negb (Nat.eqb (fst e) j)) (settled s);
     arrived := arrived s;
     history :=
       history s ++ [if ok then Streaming j else Sent500 j] |}.

Inductive Input : Type :=
| Upload
| Finish (j : Job) (ok : bool)
| Resume (j : Job).

(** One turn; [None] when the input cannot occur in [s]. *)
Definition step (s : State) (i : Input) : option State :=
  match i with
  | Upload => Some (enqueue s)
  | Finish j ok =>
      if existsb (Nat.eqb j) (inside s)
      then Some (finished j ok s) else None
  | Resume j =>
      match find (fun e => Nat.eqb (fst e) j) (settled s) with
      | Some (_, ok) => Some (resumed j ok s)
      | None => None
      end
  end.

Fixpoint run (s : State) (inputs : list Input) : option State :=
  match inputs with
  | [] => Some s
  | i :: inputs' =>
      match step s i with
      | Some s' => run s' inputs'
      | None => None
      end
  end.

Definition reachable (s : State) : Prop :=
  exists inputs, run init inputs = Some s.

(** The jobs started, in the order they were started. *)
Fixpoint started (h : list Event) : list Job :=
  match h with
  | [] => []
  | Started j :: h' => j :: started h'
  | _ :: h' => started h'
  end.

(** [e] occurs in [h] and [Released j] occurs before it. *)
Definition released_before (j : Job) (e : Event) (h : list Event)
  : Prop :=
  forall h1 h2, h = h1 ++ e :: h2 -> In (Released j) h1.

(** What every turn preserves. *)
Definition invariant (s : State) : Prop :=
  running s = Z.of_nat (List.length (inside s))
  /\ running s <= Z.max 0 CONCURRENCY
  /\ started (history s) ++ queue s = seq 0 (arrived s)
  /\ NoDup (inside s)
  /\ incl (inside s) (started (history s))
  /\ (forall j ok, In (j, ok) (settled s) -> In (Released j) (history s))
  /\ (forall j, released_before j (Streaming j) (history s)
                /\ released_before j (Sent500 j) (history s)).

(** A job waits only while every slot is taken. *)
Definition busy_or_idle (s : State) : Prop :=
  queue s = [] \/ CONCURRENCY <= running s.

End WithCapacity.

(** Nothing has happened yet. *)
Definition stalled (s : State) : Prop :=
  running s = 0 /\ inside s = [] /\ settled s = [] /\ history s = [].

End Queue.

(** ** Requests and hosts used in the examples *)
Module Scenario.

Import JS Host Server.
Local Open Scope string_scope.

Definition MiB : Z := 1024 * 1024.

Definition request : Request :=
  {| file := Some {| path := "tmp/3f2a9c";
                     originalname := Some "../../evil name!.mov" |} |}.

Definition uploaded : list (string * Z) := [("tmp/3f2a9c", 50 * MiB)].

Definition thirty_seconds : Meta :=
  {| format := Some {| duration := Num (of_Z 30) |} |}.

(** What the probe hands over for a stream without a known duration. *)
Definition no_duration : Meta :=
  {| format := Some {| duration := Str "N/A" |} |}.

(** A host whose probe reports thirty seconds and whose encoder writes
    the listed sizes in turn, then always [otherwise]; a failing run
    leaves nothing. *)
Definition host (sizes : list Outcome) (otherwise : Outcome) : Env :=
  {| ffprobe := fun _ => Some thirty_seconds;
     ffmpeg := fun k _ => nth k sizes otherwise;
     leaves := fun _ _ => None;
     Date_now := fun k => 1700000000000 + Z.of_nat k |}.

(** The same host with another answer of the probe. *)
Definition probing (meta : Meta) (h : Env) : Env :=
  {| ffprobe := fun _ => Some meta;
     ffmpeg := ffmpeg h;
     leaves := leaves h;
     Date_now := Date_now h |}.


Definition fits_at_index_1 : Env :=
  host [Writes (12 * MiB); Writes (9 * MiB)] (Writes (20 * MiB)).

Definition fits_at_index_2 : Env :=
  host [Writes (12 * MiB); Writes (11 * MiB); Writes (9 * MiB)]
    (Writes (20 * MiB)).



Definition never_fits : Env :=
  host [Writes (12 * MiB); Writes (11 * MiB); Writes (13 * MiB);
        Writes (14 * MiB)] (Writes (20 * MiB)).

Definition fails_at_index_2 : Env :=
  host [Writes (12 * MiB); Writes (11 * MiB)] Rejects.

Definition fits_at_once : Env := host [Writes (9 * MiB)] Rejects.

(** Two uploads and nothing else: the second waits. *)
Definition second_waits : list Queue.Input := [Queue.Upload; Queue.Upload].

(** Two uploads, the first job succeeds and its handler resumes. *)
Definition two_uploads : list Queue.Input :=
  [Queue.Upload; Queue.Upload; Queue.Finish 0%nat true;
   Queue.Resume 0%nat].

End Scenario.

(** * Facts

    ** Rounding to binary64 *)
Module Rounding.

Import JS.
Local Open Scope Q_scope.

Lemma two_neq_0 : ~ 2 == 0.
Proof. discriminate. Qed.

Lemma pow2_pos e : 0 < 2 ^ e.
Proof. apply Qpower_0_lt. reflexivity. Qed.

Lemma pow2_add a b : 2 ^ (a + b) == 2 ^ a * 2 ^ b.
Proof. apply Qpower_plus, two_neq_0. Qed.

Lemma pow2_succ e : 2 ^ (e + 1) == 2 * 2 ^ e.
Proof. rewrite pow2_add. change (2 ^ 1) with 2. ring. Qed.

Lemma pow2_pred e : 2 * 2 ^ (e - 1) == 2 ^ e.
Proof.
  rewrite <- pow2_succ. replace (e - 1 + 1)%Z with e by lia. reflexivity.
Qed.

Lemma pow2_le a b : (a <= b)%Z -> 2 ^ a <= 2 ^ b.
Proof. intros H. apply Qpower_le_compat_l; [exact H | discriminate]. Qed.

Lemma pow2_lt a b : (a < b)%Z -> 2 ^ a < 2 ^ b.
Proof. intros H. apply Qpower_lt_compat_l; [exact H | reflexivity]. Qed.

Lemma pow2_lt_inv a b : 2 ^ a < 2 ^ b -> (a < b)%Z.
Proof. intros H. apply (Qpower_lt_compat_l_inv 2); [exact H | reflexivity]. Qed.

Lemma pow2_Z n : (0 <= n)%Z -> inject_Z (2 ^ n) == 2 ^ n.
Proof. intros H. apply (Zpower_Qpower 2 n H). Qed.

Lemma ilog2_spec q : 0 < q -> 2 ^ ilog2 q <= q /\ q < 2 ^ (ilog2 q + 1).
Proof.
  intros Hq. destruct q as [a b].
  assert (Ha : (0 < a)%Z) by (unfold Qlt in Hq; simpl in Hq; lia).
  unfold ilog2. cbn [Qnum Qden].
  destruct (Z.log2_spec a Ha) as [Ha1 Ha2].
  destruct (Z.log2_spec (Z.pos b) eq_refl) as [Hb1 Hb2].
  pose proof (Z.log2_nonneg a) as Hla.
  pose proof (Z.log2_nonneg (Z.pos b)) as Hlb.
  set (la := Z.log2 a) in *. set (lb := Z.log2 (Z.pos b)) in *.
  rewrite Zle_Qle in Ha1, Hb1. rewrite Zlt_Qlt in Ha2, Hb2.
  rewrite pow2_Z in Ha1, Hb1, Ha2, Hb2 by lia.
  replace (Z.succ la) with (la + 1)%Z in Ha2 by lia.
  replace (Z.succ lb) with (lb + 1)%Z in Hb2 by lia.
  rewrite pow2_succ in Ha2, Hb2.
  assert (Hk : 2 ^ (la - lb) * 2 ^ lb == 2 ^ la).
  { rewrite <- pow2_add. replace (la - lb + lb)%Z with la by lia. reflexivity. }
  pose proof (pow2_pos la) as Pa. pose proof (pow2_pos lb) as Pb.
  pose proof (pow2_pos (la - lb)) as Pk.
  assert (Hq' : (a # b) * inject_Z (Z.pos b) == inject_Z a).
  { rewrite (Qmake_Qdiv a b). field. discriminate. }
  set (x := a # b) in *. set (A := inject_Z a) in *.
  set (B := inject_Z (Z.pos b)) in *.
  set (P := 2 ^ la) in *. set (R := 2 ^ lb) in *. set (K := 2 ^ (la - lb)) in *.
  assert (Hhi : x < 2 * K).
  { apply Qnot_le_lt. intros C. nra. }
  assert (Hlo : K <= 2 * x).
  { apply Qnot_lt_le. intros C. nra. }
  destruct (Qle_bool K x) eqn:E.
  - apply Qle_bool_iff in E. split; [exact E|]. rewrite pow2_succ. exact Hhi.
  - assert (E' : x < K).
    { apply Qnot_le_lt. intros C. apply Qle_bool_iff in C. congruence. }
    split.
    + pose proof (pow2_pred (la - lb)) as Hp. fold K in Hp. lra.
    + replace (la - lb - 1 + 1)%Z with (la - lb)%Z by lia. exact E'.
Qed.

Lemma ilog2_unique q l :
  0 < q -> 2 ^ l <= q -> q < 2 ^ (l + 1) -> ilog2 q = l.
Proof.
  intros Hq Hlo Hhi. destruct (ilog2_spec q Hq) as [Klo Khi].
  assert (H1 : (ilog2 q < l + 1)%Z).
  { apply pow2_lt_inv. eapply Qle_lt_trans; eassumption. }
  assert (H2 : (l < ilog2 q + 1)%Z).
  { apply pow2_lt_inv. eapply Qle_lt_trans; eassumption. }
  lia.
Qed.

Lemma ilog2_comp q q' : 0 < q -> q == q' -> ilog2 q = ilog2 q'.
Proof.
  intros Hq E. symmetry. assert (Hq' : 0 < q') by (rewrite <- E; exact Hq).
  destruct (ilog2_spec q Hq) as [Klo Khi].
  apply ilog2_unique; [exact Hq' | rewrite <- E; exact Klo | rewrite <- E; exact Khi].
Qed.

Lemma ilog2_mono q1 q2 : 0 < q1 -> q1 <= q2 -> (ilog2 q1 <= ilog2 q2)%Z.
Proof.
  intros H1 H12. assert (H2 : 0 < q2) by lra.
  destruct (ilog2_spec q1 H1) as [L1 _]. destruct (ilog2_spec q2 H2) as [_ U2].
  assert (H : (ilog2 q1 < ilog2 q2 + 1)%Z).
  { apply pow2_lt_inv. lra. }
  lia.
Qed.

Lemma rhe_comp x y : x == y -> round_half_even x = round_half_even y.
Proof.
  intros E. unfold round_half_even. rewrite (Qfloor_comp x y E).
  assert (C : (x - inject_Z (Qfloor y) ?= 1 # 2) = (y - inject_Z (Qfloor y) ?= 1 # 2)).
  { apply Qcompare_comp; [rewrite E; reflexivity | reflexivity]. }
  rewrite C. reflexivity.
Qed.

Lemma rhe_Z n : round_half_even (inject_Z n) = n.
Proof.
  unfold round_half_even. rewrite Qfloor_Z.
  assert (C : (inject_Z n - inject_Z n ?= 1 # 2) = Lt).
  { apply Qlt_alt. assert (Z : inject_Z n - inject_Z n == 0) by ring.
    rewrite Z. reflexivity. }
  rewrite C. reflexivity.
Qed.

Lemma rhe_floor x :
  round_half_even x = Qfloor x \/ round_half_even x = (Qfloor x + 1)%Z.
Proof.
  unfold round_half_even.
  destruct (x - inject_Z (Qfloor x) ?= 1 # 2); [destruct (Z.even (Qfloor x))| |]; auto.
Qed.

Lemma rhe_mono x y : x <= y -> (round_half_even x <= round_half_even y)%Z.
Proof.
  intros H. pose proof (Qfloor_resp_le x y H) as Hf.
  destruct (Z.eq_dec (Qfloor x) (Qfloor y)) as [E | N].
  - unfold round_half_even. rewrite E.
    destruct (Qcompare_spec (x - inject_Z (Qfloor y)) (1 # 2)) as [Cx | Cx | Cx];
    destruct (Qcompare_spec (y - inject_Z (Qfloor y)) (1 # 2)) as [Cy | Cy | Cy];
    try destruct (Z.even (Qfloor y)); try lia; exfalso; lra.
  - destruct (rhe_floor x) as [-> | ->]; destruct (rhe_floor y) as [-> | ->]; lia.
Qed.

Lemma rhe_0 : round_half_even 0 = 0%Z.
Proof. reflexivity. Qed.

(** *** Rounding to a grid *)

Lemma round_to_comp e q q' : q == q' -> round_to e q == round_to e q'.
Proof.
  intros E. unfold round_to.
  rewrite (rhe_comp (q / 2 ^ e) (q' / 2 ^ e)); [reflexivity |].
  apply Qdiv_comp; [exact E | reflexivity].
Qed.

Lemma round_to_mono e q1 q2 : q1 <= q2 -> round_to e q1 <= round_to e q2.
Proof.
  intros H. unfold round_to. pose proof (pow2_pos e) as Pe.
  apply Qmult_le_compat_r; [| lra].
  rewrite <- Zle_Qle. apply rhe_mono.
  apply Qmult_le_compat_r; [exact H |].
  apply Qlt_le_weak, Qinv_lt_0_compat, Pe.
Qed.

(** A multiple of a coarser grid is left alone. *)
Lemma round_to_grid e e' n :
  (e <= e')%Z -> round_to e (inject_Z n * 2 ^ e') == inject_Z n * 2 ^ e'.
Proof.
  intros He. pose proof (pow2_pos e) as Pe. unfold round_to.
  assert (P : 2 ^ e' == inject_Z (2 ^ (e' - e)) * 2 ^ e).
  { rewrite pow2_Z by lia. rewrite <- pow2_add.
    replace (e' - e + e)%Z with e' by lia. reflexivity. }
  rewrite (rhe_comp (inject_Z n * 2 ^ e' / 2 ^ e)
             (inject_Z (n * 2 ^ (e' - e)))).
  - rewrite rhe_Z, inject_Z_mult, P. ring.
  - rewrite inject_Z_mult, P. field. lra.
Qed.

Lemma round_to_0 e : round_to e 0 == 0.
Proof.
  unfold round_to.
  rewrite (rhe_comp (0 / 2 ^ e) 0) by (unfold Qdiv; ring).
  rewrite rhe_0. ring.
Qed.

Lemma round_to_nonneg e q : 0 <= q -> 0 <= round_to e q.
Proof. intros H. rewrite <- (round_to_0 e). apply round_to_mono, H. Qed.

(** *** The grid of a positive rational *)

Lemma grid_lower q : (-1074 <= grid q)%Z.
Proof. unfold grid. lia. Qed.

Lemma grid_comp q q' : 0 < q -> q == q' -> grid q = grid q'.
Proof. intros Hq E. unfold grid. rewrite (ilog2_comp q q' Hq E). reflexivity. Qed.

Lemma grid_mono q1 q2 : 0 < q1 -> q1 <= q2 -> (grid q1 <= grid q2)%Z.
Proof.
  intros H1 H12. pose proof (ilog2_mono q1 q2 H1 H12). unfold grid. lia.
Qed.

(** Below [2^(53 + e)] the grid is at least as fine as [2^e]. *)
Lemma grid_upper q e :
  0 < q -> q < 2 ^ (53 + e) -> (-1074 <= e)%Z -> (grid q <= e)%Z.
Proof.
  intros Hq Hlt He. destruct (ilog2_spec q Hq) as [Lo _].
  assert (H : (ilog2 q < 53 + e)%Z).
  { apply pow2_lt_inv. eapply Qle_lt_trans; eassumption. }
  unfold grid. lia.
Qed.

(** *** Rounding a positive rational *)

Lemma rn_pos_comp q q' : 0 < q -> q == q' -> rn_pos q == rn_pos q'.
Proof.
  intros Hq E. unfold rn_pos. rewrite <- (grid_comp q q' Hq E).
  apply round_to_comp, E.
Qed.

Lemma rn_pos_nonneg q : 0 <= q -> 0 <= rn_pos q.
Proof. intros H. apply round_to_nonneg, H. Qed.

Lemma rn_pos_mono q1 q2 : 0 < q1 -> q1 <= q2 -> rn_pos q1 <= rn_pos q2.
Proof.
  intros H1 H12. assert (H2 : 0 < q2) by lra.
  pose proof (grid_mono q1 q2 H1 H12) as Hg.
  destruct (Z.eq_dec (grid q1) (grid q2)) as [E | N].
  - unfold rn_pos. rewrite E. apply round_to_mono, H12.
  - (* a power of two lies between them, on both grids *)
    pose proof (grid_lower q1) as G1.
    assert (E2 : grid q2 = (ilog2 q2 - 52)%Z) by (unfold grid in *; lia).
    assert (L : (ilog2 q1 + 1 <= ilog2 q2)%Z) by (unfold grid in *; lia).
    destruct (ilog2_spec q1 H1) as [_ U1].
    destruct (ilog2_spec q2 H2) as [L2 _].
    assert (P : 2 ^ (ilog2 q1 + 1) <= 2 ^ ilog2 q2) by (apply pow2_le; lia).
    assert (X1 : round_to (grid q1) (inject_Z 1 * 2 ^ ilog2 q2)
                 == inject_Z 1 * 2 ^ ilog2 q2)
      by (apply round_to_grid; lia).
    assert (X2 : round_to (grid q2) (inject_Z 1 * 2 ^ ilog2 q2)
                 == inject_Z 1 * 2 ^ ilog2 q2)
      by (apply round_to_grid; lia).
    unfold rn_pos.
    apply Qle_trans with (inject_Z 1 * 2 ^ ilog2 q2).
    + rewrite <- X1. apply round_to_mono.
      change (inject_Z 1) with 1. lra.
    + rewrite <- X2. apply round_to_mono.
      change (inject_Z 1) with 1. lra.
Qed.

(** A value with at most 53 significant bits, on the grid of the
    subnormals or a coarser one, is left alone. *)
Lemma rn_pos_exact n e :
  (0 < n < 2 ^ 53)%Z -> (-1074 <= e)%Z ->
  rn_pos (inject_Z n * 2 ^ e) == inject_Z n * 2 ^ e.
Proof.
  intros [Lo Hi] He. pose proof (pow2_pos e) as Pe.
  rewrite Zlt_Qlt in Lo, Hi.
  assert (Hq : 0 < inject_Z n * 2 ^ e).
  { apply Qmult_lt_0_compat; [exact Lo | exact Pe]. }
  unfold rn_pos. apply round_to_grid. apply grid_upper; [exact Hq | | exact He].
  rewrite pow2_add, <- (pow2_Z 53) by lia.
  apply Qmult_lt_compat_r; [exact Pe | exact Hi].
Qed.

(** The significand after rounding has at most 53 bits, or is [2^53]. *)
Lemma significand_upper q :
  0 < q -> (round_half_even (q / 2 ^ grid q) <= 2 ^ 53)%Z.
Proof.
  intros Hq. destruct (ilog2_spec q Hq) as [_ Hi].
  pose proof (pow2_pos (grid q)) as Pe.
  rewrite <- (rhe_Z (2 ^ 53)). apply rhe_mono.
  apply Qle_shift_div_r; [exact Pe |].
  rewrite (pow2_Z 53) by lia. rewrite <- pow2_add.
  apply Qlt_le_weak. eapply Qlt_le_trans; [exact Hi |].
  apply pow2_le. unfold grid. lia.
Qed.

Lemma rn_pos_idem q : 0 < q -> 0 < rn_pos q -> rn_pos (rn_pos q) == rn_pos q.
Proof.
  intros Hq Hr. pose proof (significand_upper q Hq) as Hi.
  pose proof (grid_lower q) as Hg. pose proof (pow2_pos (grid q)) as Pe.
  assert (E : rn_pos q ==
              inject_Z (round_half_even (q / 2 ^ grid q)) * 2 ^ grid q)
    by reflexivity.
  set (n := round_half_even (q / 2 ^ grid q)) in *.
  set (e := grid q) in *.
  assert (Hn : (0 < n)%Z).
  { apply Z.lt_nge. intros C. rewrite Zle_Qle in C.
    change (inject_Z 0) with 0 in C.
    assert (inject_Z n * 2 ^ e <= 0).
    { rewrite <- (Qmult_0_l (2 ^ e)). apply Qmult_le_compat_r; lra. }
    lra. }
  destruct (Z.eq_dec n (2 ^ 53)) as [Top | NotTop].
  - assert (E' : rn_pos q == inject_Z (2 ^ 52) * 2 ^ (e + 1)).
    { rewrite E, Top, pow2_succ.
      change (inject_Z (2 ^ 53)) with (2 * inject_Z (2 ^ 52)). ring. }
    rewrite (rn_pos_comp _ _ Hr E'), E'. apply rn_pos_exact; lia.
  - rewrite (rn_pos_comp _ _ Hr E), E. apply rn_pos_exact; lia.
Qed.

(** *** Rounding proper *)

Lemma rn_comp q q' : q == q' -> rn q = rn q'.
Proof.
  intros E. unfold rn.
  assert (C : (q ?= 0) = (q' ?= 0)) by (apply Qcompare_comp; [exact E | reflexivity]).
  rewrite <- C. destruct (Qcompare_spec q 0) as [Z | N | P].
  - reflexivity.
  - apply Qred_complete. apply Qopp_comp. apply rn_pos_comp; [lra | rewrite E; reflexivity].
  - apply Qred_complete. apply rn_pos_comp; [exact P | exact E].
Qed.

Lemma rn_of_pos q : 0 < q -> rn q == rn_pos q.
Proof.
  intros H. unfold rn.
  destruct (Qcompare_spec q 0); [exfalso; lra | exfalso; lra | apply Qred_correct].
Qed.

Lemma rn_of_neg q : q < 0 -> rn q == - rn_pos (- q).
Proof.
  intros H. unfold rn.
  destruct (Qcompare_spec q 0); [exfalso; lra | apply Qred_correct | exfalso; lra].
Qed.

Lemma rn_of_0 q : q == 0 -> rn q = 0.
Proof.
  intros H. unfold rn.
  destruct (Qcompare_spec q 0); [reflexivity | exfalso; lra | exfalso; lra].
Qed.

Lemma rn_nonneg q : 0 <= q -> 0 <= rn q.
Proof.
  intros H. destruct (Qcompare_spec q 0) as [Z | N | P]; [| exfalso; lra |].
  - rewrite (rn_of_0 q Z). lra.
  - rewrite (rn_of_pos q P). apply rn_pos_nonneg, H.
Qed.

Lemma rn_nonpos q : q <= 0 -> rn q <= 0.
Proof.
  intros H. destruct (Qcompare_spec q 0) as [Z | N | P]; [| | exfalso; lra].
  - rewrite (rn_of_0 q Z). lra.
  - rewrite (rn_of_neg q N).
    assert (0 <= rn_pos (- q)) by (apply rn_pos_nonneg; lra). lra.
Qed.

(** Rounding is symmetric about zero. *)
Lemma rn_opp q : rn (- q) == - rn q.
Proof.
  destruct (Qcompare_spec q 0) as [Z | N | P].
  - rewrite (rn_of_0 q Z), (rn_of_0 (- q)) by lra. reflexivity.
  - assert (P' : 0 < - q) by lra.
    rewrite (rn_of_pos _ P'), (rn_of_neg _ N). ring.
  - assert (N' : - q < 0) by lra.
    rewrite (rn_of_neg _ N'), (rn_of_pos _ P).
    rewrite (rn_pos_comp (- - q) q) by (try lra; ring). reflexivity.
Qed.

Theorem rn_mono q1 q2 : q1 <= q2 -> rn q1 <= rn q2.
Proof.
  intros H.
  destruct (Qcompare_spec q1 0) as [Z1 | N1 | P1];
  destruct (Qcompare_spec q2 0) as [Z2 | N2 | P2]; try (exfalso; lra).
  - rewrite (rn_of_0 q1 Z1), (rn_of_0 q2 Z2). lra.
  - rewrite (rn_of_0 q1 Z1). apply rn_nonneg. lra.
  - rewrite (rn_of_0 q2 Z2). apply rn_nonpos. lra.
  - rewrite (rn_of_neg q1 N1), (rn_of_neg q2 N2).
    assert (M : rn_pos (- q2) <= rn_pos (- q1)) by (apply rn_pos_mono; lra).
    lra.
  - assert (rn q1 <= 0) by (apply rn_nonpos; lra).
    assert (0 <= rn q2) by (apply rn_nonneg; lra). lra.
  - rewrite (rn_of_pos q1 P1), (rn_of_pos q2 P2). apply rn_pos_mono; assumption.
Qed.

Theorem rn_idem q : rn (rn q) == rn q.
Proof.
  assert (Pos : forall x, 0 < x -> rn (rn x) == rn x).
  { intros x P. pose proof (rn_nonneg x (Qlt_le_weak _ _ P)) as S.
    destruct (Qeq_dec (rn x) 0) as [Z | NZ].
    - rewrite (rn_of_0 _ Z). symmetry. exact Z.
    - assert (S' : 0 < rn x) by (apply Qnot_le_lt; intros C; apply NZ; lra).
      assert (S2 : 0 < rn_pos x) by (rewrite <- (rn_of_pos x P); exact S').
      rewrite (rn_of_pos (rn x) S').
      rewrite (rn_pos_comp _ _ S' (rn_of_pos x P)), rn_pos_idem by assumption.
      symmetry. apply rn_of_pos, P. }
  destruct (Qcompare_spec q 0) as [Z | N | P].
  - rewrite (rn_of_0 q Z). reflexivity.
  - assert (P' : 0 < - q) by lra. specialize (Pos _ P').
    assert (E : rn q == - rn (- q)) by (rewrite rn_opp; ring).
    rewrite (rn_comp _ _ E), rn_opp, Pos. symmetry. exact E.
  - apply Pos, P.
Qed.

(** A value with at most 53 significant bits is a binary64 value, as long
    as it is a multiple of [2^-1074]. *)
Lemma rn_exact n e :
  (- 2 ^ 53 < n < 2 ^ 53)%Z -> (-1074 <= e)%Z ->
  rn (inject_Z n * 2 ^ e) == inject_Z n * 2 ^ e.
Proof.
  intros Hn He. pose proof (pow2_pos e) as Pe.
  destruct (Z.lt_trichotomy n 0) as [N | [Z | P]].
  - assert (E : inject_Z n * 2 ^ e == - (inject_Z (- n) * 2 ^ e))
      by (rewrite inject_Z_opp; ring).
    rewrite (rn_comp _ _ E), rn_opp.
    assert (Hq : 0 < inject_Z (- n) * 2 ^ e).
    { apply Qmult_lt_0_compat; [| exact Pe].
      change 0 with (inject_Z 0). rewrite <- Zlt_Qlt. lia. }
    rewrite (rn_of_pos _ Hq), rn_pos_exact by lia. symmetry. exact E.
  - subst n. rewrite rn_of_0; ring.
  - assert (Hq : 0 < inject_Z n * 2 ^ e).
    { apply Qmult_lt_0_compat; [| exact Pe].
      change 0 with (inject_Z 0). rewrite <- Zlt_Qlt. lia. }
    rewrite (rn_of_pos _ Hq). apply rn_pos_exact; lia.
Qed.

(** Powers of two from [2^-1074] on are binary64 values. *)
Lemma rn_pow2 e : (-1074 <= e)%Z -> rn (2 ^ e) == 2 ^ e.
Proof.
  intros He. assert (E : 2 ^ e == inject_Z 1 * 2 ^ e).
  { change (inject_Z 1) with 1. symmetry. apply Qmult_1_l. }
  rewrite (rn_comp _ _ E), rn_exact by lia. symmetry. exact E.
Qed.

(** *** Overflow *)

Lemma overflow_pos : 0 < overflow.
Proof. apply pow2_pos. Qed.

Lemma rn_overflow : rn overflow == overflow.
Proof. apply rn_pow2. lia. Qed.

(** The three ways an exact result becomes a number. *)
Lemma round_cases q :
  (round q = Fin (rn q) /\ - overflow < rn q /\ rn q < overflow)
  \/ (round q = PosInf /\ overflow <= rn q)
  \/ (round q = NegInf /\ rn q <= - overflow).
Proof.
  unfold round. cbv zeta. pose proof overflow_pos as P.
  destruct (Qle_bool overflow (rn q)) eqn:E1.
  - apply Qle_bool_iff in E1. right. left. split; [reflexivity | exact E1].
  - assert (L1 : rn q < overflow).
    { apply Qnot_le_lt. intros C. apply Qle_bool_iff in C. congruence. }
    destruct (Qle_bool (rn q) (- overflow)) eqn:E2.
    + apply Qle_bool_iff in E2. right. right. split; [reflexivity | exact E2].
    + assert (L2 : - overflow < rn q).
      { apply Qnot_le_lt. intros C. apply Qle_bool_iff in C. congruence. }
      left. split; [reflexivity |]. split; assumption.
Qed.

Lemma round_not_NaN q : round q <> NaN.
Proof.
  destruct (round_cases q) as [(-> & _) | [(-> & _) | (-> & _)]]; discriminate.
Qed.

(** Results of magnitude at most [2^1023] stay finite. *)
Lemma round_small q :
  - 2 ^ 1023 <= q -> q <= 2 ^ 1023 -> round q = Fin (rn q).
Proof.
  intros Lo Hi.
  pose proof (rn_pow2 1023 ltac:(lia)) as R.
  assert (H1 : rn q <= 2 ^ 1023) by (rewrite <- R; apply rn_mono, Hi).
  assert (H2 : - 2 ^ 1023 <= rn q).
  { assert (E : rn (- 2 ^ 1023) == - 2 ^ 1023) by (rewrite rn_opp, R; reflexivity).
    rewrite <- E. apply rn_mono, Lo. }
  assert (Lt : 2 ^ 1023 < overflow) by (apply pow2_lt; lia).
  destruct (round_cases q) as [(E & _) | [(_ & C) | (_ & C)]];
    [exact E | exfalso; lra | exfalso; lra].
Qed.

Lemma round_mono q1 q2 : q1 <= q2 -> le (round q1) (round q2) = true.
Proof.
  intros H. pose proof (rn_mono q1 q2 H) as M. pose proof overflow_pos as P.
  destruct (round_cases q1) as [(-> & A1 & B1) | [(-> & C1) | (-> & C1)]];
  destruct (round_cases q2) as [(-> & A2 & B2) | [(-> & C2) | (-> & C2)]];
    try reflexivity; try (exfalso; lra).
  cbn [le]. apply Qle_bool_iff, M.
Qed.

Lemma round_nonneg q : 0 <= q -> le (Fin 0) (round q) = true.
Proof.
  intros H. pose proof (rn_nonneg q H) as M. pose proof overflow_pos as P.
  destruct (round_cases q) as [(-> & _) | [(-> & _) | (-> & C)]];
    [apply Qle_bool_iff, M | reflexivity | exfalso; lra].
Qed.

End Rounding.

(** ** Numbers *)
Module NumberFacts.
Import JS Rounding.
Local Open Scope Q_scope.

Lemma le_Fin x y : le (Fin x) (Fin y) = true <-> x <= y.
Proof. apply Qle_bool_iff. Qed.

Lemma Qle_bool_false x y : Qle_bool x y = false -> y < x.
Proof.
  intros H. apply Qnot_le_lt. intros C. apply Qle_bool_iff in C. congruence.
Qed.

Lemma le_Fin_false x y : le (Fin x) (Fin y) = false <-> y < x.
Proof.
  cbn [le]. split; intros H.
  - apply Qle_bool_false, H.
  - destruct (Qle_bool x y) eqn:E; [| reflexivity].
    apply Qle_bool_iff in E. exfalso. lra.
Qed.

(** Every [Qle_bool] in sight becomes the inequality it decides. *)
Ltac order :=
  repeat match goal with
         | H : Qle_bool _ _ = true |- _ => apply Qle_bool_iff in H
         | H : Qle_bool _ _ = false |- _ => apply Qle_bool_false in H
         | |- Qle_bool _ _ = true => apply Qle_bool_iff
         | |- context [Qle_bool ?x ?y] =>
             let E := fresh "E" in destruct (Qle_bool x y) eqn:E; cbn [le]
         end.

Lemma Math_max_Fin x y :
  Math_max (Fin x) (Fin y) = Fin (if Qle_bool x y then y else x).
Proof. unfold Math_max, le. destruct (Qle_bool x y); reflexivity. Qed.

Lemma Math_max_lower x y : le (Fin x) (Math_max (Fin x) (Fin y)) = true.
Proof.
  rewrite Math_max_Fin. destruct (Qle_bool x y) eqn:E; apply le_Fin.
  - apply Qle_bool_iff, E.
  - apply Qle_refl.
Qed.

(** *** The order on numbers *)

Lemma le_refl a : a <> NaN -> le a a = true.
Proof.
  destruct a as [| | x |]; intros H; try reflexivity; [congruence |].
  apply le_Fin, Qle_refl.
Qed.


Lemma le_left a b : le a b = true -> a <> NaN.
Proof. destruct a; [discriminate | | |]; intros _; discriminate. Qed.

Lemma le_right a b : le a b = true -> b <> NaN.
Proof.
  destruct a, b; cbn [le]; intros H; try discriminate H; discriminate.
Qed.

Lemma le_NegInf a : a <> NaN -> le NegInf a = true.
Proof. destruct a; intros H; [congruence | | |]; reflexivity. Qed.

Lemma le_PosInf a : a <> NaN -> le a PosInf = true.
Proof. destruct a; intros H; [congruence | | |]; reflexivity. Qed.

Lemma Math_floor_mono a b :
  le a b = true -> le (Math_floor a) (Math_floor b) = true.
Proof.
  destruct a as [| | x |], b as [| | y |]; cbn [le Math_floor];
    intros H; try discriminate; try reflexivity.
  order. rewrite <- Zle_Qle. apply Qfloor_resp_le, H.
Qed.

Lemma Math_floor_not_NaN a : a <> NaN -> Math_floor a <> NaN.
Proof. destruct a; cbn [Math_floor]; intros H; congruence. Qed.


(** [Math.max] is monotone in its second argument. *)
Lemma Math_max_mono c a b :
  c <> NaN -> le a b = true -> le (Math_max c a) (Math_max c b) = true.
Proof.
  destruct c as [| | z |], a as [| | x |], b as [| | y |];
    unfold Math_max; cbn [le]; intros Hc H;
    try congruence; try discriminate; try reflexivity; order; lra.
Qed.

(** [Math.max(c, b)] is at least [c]. *)
Lemma Math_max_ge c b :
  c <> NaN -> b <> NaN -> le c (Math_max c b) = true.
Proof.
  destruct c as [| | z |], b as [| | y |];
    unfold Math_max; cbn [le]; intros Hc Hb;
    try congruence; try reflexivity; order; lra.
Qed.

Lemma round_le_PosInf q : le (round q) PosInf = true.
Proof. apply le_PosInf, round_not_NaN. Qed.

Lemma NegInf_le_round q : le NegInf (round q) = true.
Proof. apply le_NegInf, round_not_NaN. Qed.

(** *** Products, quotients and differences with a finite operand *)

Lemma positive_compare y : 0 < y -> (y ?= 0) = Gt /\ Qeq_bool y 0 = false.
Proof.
  intros H. split.
  - apply Qgt_alt, H.
  - destruct (Qeq_bool y 0) eqn:E; [| reflexivity].
    apply Qeq_bool_iff in E. exfalso. lra.
Qed.

Lemma mul_infinite y :
  0 < y -> mul PosInf (Fin y) = PosInf /\ mul NegInf (Fin y) = NegInf.
Proof.
  intros H. destruct (positive_compare y H) as [C E].
  cbn [mul is_zero sign orb]. rewrite C, E. split; reflexivity.
Qed.

Lemma div_infinite y :
  0 < y -> div PosInf (Fin y) = PosInf /\ div NegInf (Fin y) = NegInf.
Proof.
  intros H. destruct (positive_compare y H) as [C E].
  cbn [div is_zero sign]. rewrite C, E. split; reflexivity.
Qed.

Lemma div_Fin x y : ~ y == 0 -> div (Fin x) (Fin y) = round (x / y).
Proof.
  intros H. cbn [div]. destruct (Qeq_bool y 0) eqn:E; [| reflexivity].
  apply Qeq_bool_iff in E. contradiction.
Qed.

Lemma mul_not_NaN a y : a <> NaN -> 0 < y -> mul a (Fin y) <> NaN.
Proof.
  intros Ha Hy. destruct (mul_infinite y Hy) as [P N].
  destruct a as [| | x |]; [congruence | rewrite N; discriminate | |
                              rewrite P; discriminate].
  apply round_not_NaN.
Qed.

Lemma div_not_NaN a y : a <> NaN -> 0 < y -> div a (Fin y) <> NaN.
Proof.
  intros Ha Hy. destruct (div_infinite y Hy) as [P N].
  destruct a as [| | x |]; [congruence | rewrite N; discriminate | |
                              rewrite P; discriminate].
  rewrite div_Fin by (intros C; lra). apply round_not_NaN.
Qed.

Lemma sub_not_NaN a y : a <> NaN -> sub a (Fin y) <> NaN.
Proof.
  intros Ha. destruct a as [| | x |]; [congruence | discriminate | |
                                         discriminate].
  apply round_not_NaN.
Qed.

(** Multiplying by a positive number keeps the order. *)
Lemma mul_mono a b y :
  0 < y -> le a b = true -> le (mul a (Fin y)) (mul b (Fin y)) = true.
Proof.
  intros Hy H. destruct (mul_infinite y Hy) as [P N].
  pose proof (le_left _ _ H) as Ha. pose proof (le_right _ _ H) as Hb.
  destruct a as [| | x |]; [congruence | | |].
  - rewrite N. apply le_NegInf, mul_not_NaN; assumption.
  - destruct b as [| | x' |]; [congruence | discriminate H | |].
    + cbn [mul]. apply round_mono. apply le_Fin in H.
      apply Qmult_le_compat_r; lra.
    + rewrite P. apply round_le_PosInf.
  - destruct b as [| | x' |]; try discriminate H. rewrite P. reflexivity.
Qed.


(** Dividing by a positive number keeps the order. *)
Lemma div_mono a b y :
  0 < y -> le a b = true -> le (div a (Fin y)) (div b (Fin y)) = true.
Proof.
  intros Hy H. destruct (div_infinite y Hy) as [P N].
  assert (Hy0 : ~ y == 0) by (intros C; lra).
  pose proof (le_left _ _ H) as Ha. pose proof (le_right _ _ H) as Hb.
  destruct a as [| | x |]; [congruence | | |].
  - rewrite N. apply le_NegInf, div_not_NaN; assumption.
  - destruct b as [| | x' |]; [congruence | discriminate H | |].
    + rewrite !div_Fin by exact Hy0. apply round_mono. apply le_Fin in H.
      apply Qmult_le_compat_r; [exact H |].
      apply Qlt_le_weak, Qinv_lt_0_compat, Hy.
    + rewrite P, div_Fin by exact Hy0. apply round_le_PosInf.
  - destruct b as [| | x' |]; try discriminate H. rewrite P. reflexivity.
Qed.

(** A non-negative number divided by a larger divisor is not larger. *)
Lemma div_antitone a d1 d2 :
  le (Fin 0) a = true -> 0 < d1 -> d1 <= d2 ->
  le (div a (Fin d2)) (div a (Fin d1)) = true.
Proof.
  intros Ha H1 H12. assert (H2 : 0 < d2) by lra.
  destruct a as [| | x |]; try discriminate Ha.
  - apply le_Fin in Ha. rewrite !div_Fin by (intros C; lra).
    apply round_mono. apply Qle_shift_div_l; [exact H1 |].
    assert (E : x / d2 * d1 == x * (d1 / d2)) by (field; lra).
    assert (R : d1 / d2 <= 1) by (apply Qle_shift_div_r; lra).
    assert (P : 0 <= d1 / d2) by (apply Qle_shift_div_l; lra).
    nra.
  - rewrite (proj1 (div_infinite d1 H1)), (proj1 (div_infinite d2 H2)).
    reflexivity.
Qed.

(** Subtracting a finite number keeps the order. *)
Lemma sub_mono a b y :
  le a b = true -> le (sub a (Fin y)) (sub b (Fin y)) = true.
Proof.
  intros H.
  destruct a as [| | x |], b as [| | x' |]; try discriminate H;
    cbn [sub]; try reflexivity;
    try apply round_le_PosInf; try apply NegInf_le_round.
  apply round_mono. apply le_Fin in H. lra.
Qed.

Lemma mul_nonneg a y :
  le (Fin 0) a = true -> 0 < y -> le (Fin 0) (mul a (Fin y)) = true.
Proof.
  intros Ha Hy. destruct a as [| | x |]; try discriminate Ha.
  - apply le_Fin in Ha. cbn [mul]. apply round_nonneg.
    apply Qmult_le_0_compat; lra.
  - rewrite (proj1 (mul_infinite y Hy)). reflexivity.
Qed.

Lemma Math_floor_nonneg a :
  le (Fin 0) a = true -> le (Fin 0) (Math_floor a) = true.
Proof. intros H. apply (Math_floor_mono (Fin 0) a H). Qed.

(** *** Binary64 values *)

Lemma representable_rn q : representable (rn q).
Proof. apply rn_idem. Qed.


Lemma floor_rn_mono x y : x <= y -> (Qfloor (rn x) <= Qfloor (rn y))%Z.
Proof. intros H. apply Qfloor_resp_le, rn_mono, H. Qed.

(** Rounding keeps a bound that is a power of two. *)
Lemma rn_bound q k :
  (-1074 <= k)%Z -> - 2 ^ k <= q -> q <= 2 ^ k ->
  - 2 ^ k <= rn q /\ rn q <= 2 ^ k.
Proof.
  intros Hk Lo Hi. pose proof (rn_pow2 k Hk) as R. split.
  - assert (E : rn (- 2 ^ k) == - 2 ^ k) by (rewrite rn_opp, R; reflexivity).
    rewrite <- E. apply rn_mono, Lo.
  - rewrite <- R. apply rn_mono, Hi.
Qed.

(** A result bounded by [2^k], [k <= 1023], is finite and keeps the
    bound. *)
Lemma round_bound q k :
  (-1074 <= k <= 1023)%Z -> - 2 ^ k <= q -> q <= 2 ^ k ->
  round q = Fin (rn q) /\ - 2 ^ k <= rn q /\ rn q <= 2 ^ k.
Proof.
  intros Hk Lo Hi. split; [| apply rn_bound; [lia | assumption ..]].
  assert (P : 2 ^ k <= 2 ^ 1023) by (apply pow2_le; lia).
  apply round_small; lra.
Qed.

(** [max(48, floor(v * f))]: a whole number from 48 on, or [Infinity]. *)
Lemma scaled_shape v f :
  v <> NaN -> 0 < f ->
  Math_max (of_Z 48) (Math_floor (mul v (Fin f))) = PosInf
  \/ exists z, Math_max (of_Z 48) (Math_floor (mul v (Fin f))) = of_Z z
               /\ (48 <= z)%Z.
Proof.
  intros Hv Hf. pose proof (mul_not_NaN v f Hv Hf) as Hm.
  destruct (mul v (Fin f)) as [| | r |]; [congruence | | |].
  - right. exists 48%Z. split; [reflexivity | lia].
  - right. cbn [Math_floor]. unfold of_Z. rewrite Math_max_Fin.
    destruct (Qle_bool (inject_Z 48) (inject_Z (Qfloor r))) eqn:E.
    + apply Qle_bool_iff in E. rewrite <- Zle_Qle in E.
      exists (Qfloor r). split; [reflexivity | exact E].
    + exists 48%Z. split; [reflexivity | lia].
  - left. reflexivity.
Qed.

(** [max(48, floor(x * f))] as an integer, when the product is finite. *)
Lemma scaled_value x f :
  round (x * f) = Fin (rn (x * f)) ->
  Math_max (of_Z 48) (Math_floor (mul (Fin x) (Fin f)))
  = of_Z (Z.max 48 (Qfloor (rn (x * f)))).
Proof.
  intros Hr. cbn [mul]. rewrite Hr. cbn [Math_floor].
  unfold of_Z. rewrite Math_max_Fin.
  destruct (Qle_bool (inject_Z 48) (inject_Z (Qfloor (rn (x * f))))) eqn:E.
  - apply Qle_bool_iff in E. rewrite <- Zle_Qle in E.
    rewrite Z.max_r by exact E. reflexivity.
  - assert (L : (Qfloor (rn (x * f)) < 48)%Z).
    { apply Z.lt_nge. intros C. rewrite Zle_Qle in C.
      apply Qle_bool_iff in C. congruence. }
    rewrite Z.max_l by lia. reflexivity.
Qed.



End NumberFacts.

(** ** The planner *)
Module PlannerFacts.
Import JS Rounding NumberFacts.
Local Open Scope Q_scope.

Lemma Math_max_of_Z a b : Math_max (of_Z a) (of_Z b) = of_Z (Z.max a b).
Proof.
  unfold of_Z. rewrite Math_max_Fin.
  destruct (Qle_bool (inject_Z a) (inject_Z b)) eqn:E.
  - apply Qle_bool_iff in E. rewrite <- Zle_Qle in E.
    rewrite Z.max_r by exact E. reflexivity.
  - assert (L : (b < a)%Z).
    { apply Z.lt_nge. intros C. rewrite Zle_Qle in C.
      apply Qle_bool_iff in C. congruence. }
    rewrite Z.max_l by lia. reflexivity.
Qed.

(** [max(c, floor(a))]: a whole number from [c] on, or [Infinity]. *)
Lemma floored_shape c a :
  a <> NaN ->
  Math_max (of_Z c) (Math_floor a) = PosInf
  \/ exists z, Math_max (of_Z c) (Math_floor a) = of_Z z /\ (c <= z)%Z.
Proof.
  intros Ha. destruct a as [| | r |]; [congruence | | |].
  - right. exists c. split; [reflexivity | lia].
  - right. cbn [Math_floor]. fold (of_Z (Qfloor r)). rewrite Math_max_of_Z.
    eexists. split; [reflexivity | lia].
  - left. reflexivity.
Qed.

(** *** The duration *)

(** [d || 1] read as a number is [NaN] for one kind of reading only: a
    string that is not empty and not a numeric literal. *)
Lemma or_else_number v :
  ToNumber (or_else v (of_Z 1)) = NaN ->
  exists s, v = Str s /\ s <> EmptyString /\ StringToNumber s = NaN.
Proof.
  destruct v as [| n | s]; cbn [or_else].
  - discriminate.
  - destruct (truthy n) eqn:T; cbn [ToNumber]; [| discriminate].
    intros ->. discriminate T.
  - destruct (String.eqb s EmptyString) eqn:E; cbn [ToNumber];
      [discriminate |].
    intros H. exists s. split; [reflexivity |]. split; [| exact H].
    intros ->. discriminate E.
Qed.

(** [Math.max(1, n)] of a number: at least one, or infinite. *)
Lemma clamped n :
  n <> NaN ->
  Math_max (of_Z 1) n = PosInf
  \/ exists q, Math_max (of_Z 1) n = Fin q /\ 1 <= q.
Proof.
  intros Hn. destruct n as [| | q |]; [congruence | | |].
  - right. exists 1. split; [reflexivity | lra].
  - unfold of_Z. rewrite Math_max_Fin. right.
    destruct (Qle_bool (inject_Z 1) q) eqn:E.
    + exists q. split; [reflexivity | apply Qle_bool_iff in E; exact E].
    + exists (inject_Z 1). split; [reflexivity | apply Qle_refl].
  - left. reflexivity.
Qed.

(** The duration after [Math.max(1, d || 1)]: at least one second, or
    infinite, or [NaN] for a string that is no number. *)
Lemma clamped_duration v :
  (Math_max (of_Z 1) (ToNumber (or_else v (of_Z 1))) = NaN
   /\ exists s, v = Str s /\ s <> EmptyString /\ StringToNumber s = NaN)
  \/ Math_max (of_Z 1) (ToNumber (or_else v (of_Z 1))) = PosInf
  \/ exists q,
       Math_max (of_Z 1) (ToNumber (or_else v (of_Z 1))) = Fin q /\ 1 <= q.
Proof.
  destruct (ToNumber (or_else v (of_Z 1))) as [| | q |] eqn:E.
  - left. split; [reflexivity | apply or_else_number, E].
  - right. apply clamped. discriminate.
  - right. apply clamped. discriminate.
  - right. apply clamped. discriminate.
Qed.

(** A finite clamped duration is at least one second. *)
Lemma finite_duration n q : Math_max (of_Z 1) n = Fin q -> 1 <= q.
Proof.
  intros H. assert (Hn : n <> NaN) by (intros ->; discriminate H).
  destruct (clamped n Hn) as [E | (q' & E & Hq)]; rewrite E in H.
  - discriminate H.
  - inversion H; subst q'. exact Hq.
Qed.

(** *** [totalKbps] *)

(** [totalKbps] is a number whenever the target is one and the duration
    is finite. *)
Lemma totalKbps_shape ft d target :
  target <> NaN -> 0 < d ->
  Spec.totalKbps (of_Z ft) (Fin d) target = PosInf
  \/ exists t, Spec.totalKbps (of_Z ft) (Fin d) target = of_Z t
               /\ (ft <= t)%Z.
Proof.
  intros Ht Hd. unfold Spec.totalKbps. apply floored_shape.
  unfold of_Z. apply div_not_NaN; [| reflexivity].
  apply div_not_NaN; [| exact Hd].
  apply mul_not_NaN; [exact Ht | reflexivity].
Qed.

(** [totalKbps] for a finite duration and a target whose bits do not
    overflow. *)
Lemma totalKbps_value ft d tb :
  1 <= d -> - 2 ^ 1020 <= tb -> tb <= 2 ^ 1020 ->
  Spec.totalKbps (of_Z ft) (Fin d) (Fin tb)
  = of_Z (Z.max ft
            (Qfloor (rn (rn (rn (tb * inject_Z 8) / d) / inject_Z 1000))))
  /\ - 2 ^ 1014
     <= rn (rn (rn (tb * inject_Z 8) / d) / inject_Z 1000) <= 2 ^ 1014.
Proof.
  intros Hd Lo Hi.
  assert (P : 2 ^ 1023 == 2 ^ 1020 * inject_Z 8).
  { change (inject_Z 8) with (2 ^ 3). rewrite <- pow2_add. reflexivity. }
  assert (M : 2 ^ 1023 == 2 ^ 1014 * 512).
  { change 512 with (2 ^ 9). rewrite <- pow2_add. reflexivity. }
  pose proof (pow2_pos 1020) as Q1. pose proof (pow2_pos 1023) as Q2.
  set (B := 2 ^ 1020) in *. set (C := 2 ^ 1023) in *.
  destruct (round_bound (tb * inject_Z 8) 1023 ltac:(lia)) as (E1 & L1 & U1).
  { fold C. rewrite P. change (inject_Z 8) with 8. lra. }
  { fold C. rewrite P. change (inject_Z 8) with 8. lra. }
  fold C in L1, U1. set (x := rn (tb * inject_Z 8)) in *.
  assert (I : 0 < / d) by (apply Qinv_lt_0_compat; lra).
  assert (I1 : / d <= 1).
  { rewrite <- (Qmult_1_l (/ d)). apply Qle_shift_div_r; lra. }
  destruct (round_bound (x / d) 1023 ltac:(lia)) as (E2 & L2 & U2).
  { fold C. unfold Qdiv. nra. }
  { fold C. unfold Qdiv. nra. }
  fold C in L2, U2. set (y := rn (x / d)) in *.
  pose proof (pow2_pos 1014) as Q3. set (D := 2 ^ 1014) in *.
  destruct (round_bound (y / inject_Z 1000) 1014 ltac:(lia)) as (E3 & L3 & U3).
  { fold D. apply Qle_shift_div_l; [reflexivity |].
    change (inject_Z 1000) with 1000. lra. }
  { fold D. apply Qle_shift_div_r; [reflexivity |].
    change (inject_Z 1000) with 1000. lra. }
  fold D in L3, U3.
  split; [| split; assumption].
  unfold Spec.totalKbps. unfold of_Z at 2 3. cbn [mul]. rewrite E1.
  rewrite div_Fin by (intros Z; lra). rewrite E2.
  rewrite div_Fin by discriminate. rewrite E3.
  cbn [Math_floor]. apply Math_max_of_Z.
Qed.

(** [totalKbps] for an infinite duration, when the target's bits do not
    overflow. *)
Lemma totalKbps_unbounded ft tb :
  - 2 ^ 1020 <= tb -> tb <= 2 ^ 1020 ->
  Spec.totalKbps (of_Z ft) PosInf (Fin tb) = of_Z (Z.max ft 0).
Proof.
  intros Lo Hi.
  assert (P : 2 ^ 1023 == 2 ^ 1020 * inject_Z 8).
  { change (inject_Z 8) with (2 ^ 3). rewrite <- pow2_add. reflexivity. }
  pose proof (pow2_pos 1020) as Q1.
  destruct (round_bound (tb * inject_Z 8) 1023 ltac:(lia)) as (E1 & _).
  { rewrite P. set (B := 2 ^ 1020) in *. change (inject_Z 8) with 8. lra. }
  { rewrite P. set (B := 2 ^ 1020) in *. change (inject_Z 8) with 8. lra. }
  unfold Spec.totalKbps. unfold of_Z at 2 3. cbn [mul]. rewrite E1.
  cbn. apply Math_max_of_Z.
Qed.

(** *** [initialVideoKbps] *)


(** Beyond [targetBytes * 8] seconds the unclamped total is zero. *)
Lemma totalKbps_clamped ft d tb :
  (0 <= ft)%Z -> 0 < tb -> tb <= 2 ^ 1020 ->
  rn (tb * inject_Z 8) + 1 <= d ->
  Spec.totalKbps (of_Z ft) (Fin d) (Fin tb) = of_Z ft.
Proof.
  intros Hft Htb Hbound Hd.
  assert (HA : 0 <= rn (tb * inject_Z 8)).
  { apply rn_nonneg. change (inject_Z 8) with 8. lra. }
  pose proof (pow2_pos 1020) as Q1.
  destruct (totalKbps_value ft d tb) as (E & _);
    [lra | set (B := 2 ^ 1020) in *; lra | exact Hbound |].
  rewrite E. clear E.
  set (A := rn (tb * inject_Z 8)) in *.
  assert (H1 : 0 <= rn (A / d) /\ rn (A / d) <= 1).
  { split.
    - apply rn_nonneg. apply Qle_shift_div_l; lra.
    - change 1 with (rn 1). apply rn_mono. apply Qle_shift_div_r; lra. }
  set (q1 := rn (A / d)) in *.
  assert (H2 : 0 <= rn (q1 / inject_Z 1000) /\ rn (q1 / inject_Z 1000) < 1).
  { split.
    - apply rn_nonneg. apply Qle_shift_div_l; [reflexivity | lra].
    - apply Qle_lt_trans with (rn (1 / inject_Z 1000)).
      + apply rn_mono. apply Qmult_le_compat_r; [lra | discriminate].
      + vm_compute. reflexivity. }
  set (q2 := rn (q1 / inject_Z 1000)) in *.
  assert (F : Qfloor q2 = 0%Z).
  { pose proof (Qfloor_le q2) as Lo. pose proof (Qlt_floor q2) as Hi.
    assert (L1 : (0 <= Qfloor q2)%Z).
    { rewrite <- (Qfloor_Z 0). apply Qfloor_resp_le, H2. }
    assert (L2 : (Qfloor q2 < 1)%Z).
    { rewrite Zlt_Qlt. apply Qle_lt_trans with q2; [exact Lo | apply H2]. }
    lia. }
  rewrite F. rewrite Z.max_l by lia. reflexivity.
Qed.

(** The planner of each revision, in the words of the specification. *)
Lemma revisions_plan cfg d :
  Simple.initialVideoKbps cfg (Simple.totalKbps cfg d)
  = Spec.plan (of_Z 200) (of_Z 64) d (Server.targetBytes cfg)
      (Server.AUDIO_KBPS cfg)
  /\ Queued.initialVideoKbps cfg (Queued.totalKbps cfg d)
     = Spec.plan (of_Z 180) (of_Z 56) d (Server.targetBytes cfg)
         (Server.AUDIO_KBPS cfg)
  /\ Legacy.videoKbps cfg (Legacy.totalKbps cfg d)
     = Spec.plan (of_Z 200) (of_Z 64) d (Server.targetBytes cfg)
         (Server.AUDIO_KBPS cfg).
Proof.
  unfold Simple.initialVideoKbps, Simple.totalKbps, Queued.initialVideoKbps,
    Queued.totalKbps, Legacy.videoKbps, Legacy.totalKbps, Spec.plan,
    Spec.totalKbps.
  repeat split.
Qed.

End PlannerFacts.

(** ** Sanitised names *)
Module NamesFacts.
Import Names.

Lemma strip_filter s : chars (strip s) = filter permitted (chars s).
Proof.
  induction s as [| c s IH]; [reflexivity |].
  cbn [strip chars filter]. destruct (permitted c); cbn [chars]; rewrite IH; reflexivity.
Qed.

Lemma strip_permitted s c : In c (chars (strip s)) -> permitted c = true.
Proof. rewrite strip_filter. intros H. apply filter_In in H. apply H. Qed.

Lemma chars_nil s : chars s = [] -> s = EmptyString.
Proof. destruct s; [reflexivity | discriminate]. Qed.

Lemma strip_nonempty s c :
  In c (chars s) -> permitted c = true -> strip s <> EmptyString.
Proof.
  intros Hin Hc E. assert (H : In c (chars (strip s))).
  { rewrite strip_filter. apply filter_In. auto. }
  rewrite E in H. destruct H.
Qed.

Lemma strip_ext_chars s c : In c (chars (strip_ext s)) -> In c (chars s).
Proof.
  induction s as [| a s IH]; [intros [] |].
  cbn [strip_ext]. destruct (_ && _); [intros [] |].
  cbn [chars]. intros [H | H]; [left; exact H | right; apply IH, H].
Qed.

End NamesFacts.

(** ** The size loop *)
Module LoopFacts.
Import JS Names Host Server.
Local Open Scope string_scope.
Local Open Scope list_scope.
Local Open Scope nat_scope.

Lemma lookup_app_miss p fs gs :
  lookup p fs = None -> lookup p (fs ++ gs)%list = lookup p gs.
Proof.
  unfold lookup. induction fs as [| [k v] fs IH]; cbn [find app fst snd]; intros H.
  - reflexivity.
  - destruct (String.eqb k p); [discriminate | exact (IH H)].
Qed.

Lemma lookup_remove p fs : lookup p (remove p fs) = None.
Proof.
  unfold lookup, remove. induction fs as [| [k v] fs IH]; cbn [filter find fst snd].
  - reflexivity.
  - destruct (String.eqb k p) eqn:E; cbn [negb find fst snd].
    + exact IH.
    + rewrite E. exact IH.
Qed.

Lemma lookup_write p size fs : lookup p (write p size fs) = Some size.
Proof.
  unfold write. rewrite lookup_app_miss by apply lookup_remove.
  unfold lookup. cbn [find fst snd]. rewrite String.eqb_refl. reflexivity.
Qed.

Lemma left_behind_frame p left w :
  encodes (left_behind p left w) = encodes w
  /\ res (left_behind p left w) = res w
  /\ timers (left_behind p left w) = timers w
  /\ ticks (left_behind p left w) = ticks w.
Proof. destruct left; repeat split. Qed.

Lemma encodes_left_behind p left w :
  encodes (left_behind p left w) = encodes w.
Proof. apply left_behind_frame. Qed.

Section Loop.

Variable cfg : Config.
Variable env : Env.
Variables inputPath outName firstOut : string.
Variable initialVideoKbps : number.

Let loop := size_loop cfg env inputPath outName firstOut initialVideoKbps.

(** One iteration of the loop, as a single equation. *)
Lemma size_loop_cons factor rest i lastOut videoKbpsNow w :
  loop (factor :: rest) i lastOut videoKbpsNow w =
  let out :=
    if Nat.eqb i 0 then firstOut
    else in_TMP_DIR (decimal (Date_now env (ticks w)) ++ "_"
                     ++ decimal (Z.of_nat i) ++ "_" ++ outName)%string in
  let w1 := if Nat.eqb i 0 then w else tick w in
  let now :=
    if Nat.ltb 0 i
    then Math_max (of_Z 48) (Math_floor (mul initialVideoKbps factor))
    else videoKbpsNow in
  let call :=
    {| call_input := inputPath; call_output := out; call_videoKbps := now;
       call_audioKbps := AUDIO_KBPS cfg; call_maxWidth := MAX_WIDTH cfg |} in
  match ffmpeg env (List.length (encodes w)) call with
  | Rejects =>
      (Throw,
       left_behind out (leaves env (List.length (encodes w)) call)
         (log_call call w1))
  | Writes size =>
      if le (of_Z size) (targetBytes cfg)
      then (Normal out, put_file out size (log_call call w1))
      else loop rest (S i) out now (put_file out size (log_call call w1))
  end.
Proof.
  unfold loop. cbn [size_loop]. unfold bind at 1.
  destruct (Nat.eqb i 0) eqn:Ei.
  - unfold ret at 1. cbv zeta. unfold bind at 1, encode.
    destruct (ffmpeg env _ _); [reflexivity |].
    unfold bind at 1, stat_size. cbn [files put_file]. rewrite lookup_write.
    destruct (le _ _); reflexivity.
  - unfold bind at 1, now, ret at 1. cbv zeta. unfold bind at 1, encode.
    cbn [encodes tick].
    destruct (ffmpeg env _ _); [reflexivity |].
    unfold bind at 1, stat_size. cbn [files put_file]. rewrite lookup_write.
    destruct (le _ _); reflexivity.
Qed.

Lemma videoKbpsNow_at pre factor rest vk :
  (List.length pre = 0 -> vk = initialVideoKbps) ->
  (if Nat.ltb 0 (List.length pre)
   then Math_max (of_Z 48) (Math_floor (mul initialVideoKbps factor))
   else vk)
  = Spec.videoKbpsNow initialVideoKbps (pre ++ factor :: rest)
      (List.length pre).
Proof.
  intros H0. unfold Spec.videoKbpsNow. rewrite nth_middle.
  destruct pre; cbn [List.length Nat.ltb Nat.leb Nat.eqb].
  - apply H0. reflexivity.
  - reflexivity.
Qed.

Lemma loop_inv rest : forall pre lastOut vk w r w',
  List.length (encodes w) = List.length pre ->
  (List.length pre = 0 -> vk = initialVideoKbps) ->
  loop rest (List.length pre) lastOut vk w = (r, w') ->
  exists calls,
    encodes w' = (encodes w ++ calls)%list /\
    List.length calls <= List.length rest /\
    forall j c, nth_error calls j = Some c ->
      call_videoKbps c
      = Spec.videoKbpsNow initialVideoKbps (pre ++ rest)
          (List.length pre + j) /\
      (forall size,
          ffmpeg env (List.length pre + j) c = Writes size ->
          le (of_Z size) (targetBytes cfg) = true ->
          List.length calls = S j /\ r = Normal (call_output c)) /\
      (S j < List.length calls ->
       exists size,
         ffmpeg env (List.length pre + j) c = Writes size /\
         le (of_Z size) (targetBytes cfg) = false) /\
      (ffmpeg env (List.length pre + j) c = Rejects -> r = Throw).
Proof.
  induction rest as [| factor rest IH]; intros pre lastOut vk w r w' Hlen H0 Hrun.
  - unfold loop in Hrun. cbn in Hrun. inversion Hrun; subst.
    exists []. rewrite app_nil_r. split; [reflexivity |]. split; [cbn; lia |].
    intros j c Hj. destruct j; discriminate.
  - rewrite size_loop_cons in Hrun. cbv zeta in Hrun.
    rewrite Hlen in Hrun. rewrite (videoKbpsNow_at pre factor rest vk H0) in Hrun.
    set (out := if Nat.eqb (List.length pre) 0 then firstOut else _) in Hrun.
    set (w1 := if Nat.eqb (List.length pre) 0 then w else tick w) in Hrun.
    set (call := Build_EncodeCall _ _ _ _ _) in Hrun.
    assert (Hw1 : encodes w1 = encodes w).
    { subst w1. destruct (Nat.eqb _ _); reflexivity. }
    destruct (ffmpeg env (List.length pre) call) as [| size] eqn:Hff.
    + inversion Hrun; subst r w'. exists [call].
      rewrite encodes_left_behind. cbn [encodes log_call]. rewrite Hw1. split; [reflexivity |]. split; [cbn; lia |].
      intros j c Hj. destruct j as [| j]; [| destruct j; discriminate].
      cbn in Hj. inversion Hj; subst c. rewrite Nat.add_0_r.
      split; [reflexivity |]. split; [| split].
      * intros size Hs. rewrite Hff in Hs. discriminate.
      * cbn. lia.
      * reflexivity.
    + destruct (le (of_Z size) (targetBytes cfg)) eqn:Hfit.
      * inversion Hrun; subst r w'. exists [call]. cbn [encodes log_call put_file].
        rewrite Hw1. split; [reflexivity |]. split; [cbn; lia |].
        intros j c Hj. destruct j as [| j]; [| destruct j; discriminate].
        cbn in Hj. inversion Hj; subst c. rewrite Nat.add_0_r.
        split; [reflexivity |]. split; [| split].
        -- intros size' Hs _. split; reflexivity.
        -- cbn. lia.
        -- intros Hs. rewrite Hff in Hs. discriminate.
      * assert (Hlen' : List.length (encodes (put_file out size (log_call call w1)))
                        = List.length (pre ++ [factor])).
        { cbn [encodes put_file log_call]. rewrite Hw1, !length_app, Hlen. reflexivity. }
        assert (HS : S (List.length pre) = List.length (pre ++ [factor])).
        { rewrite length_app. cbn. lia. }
        rewrite HS in Hrun.
        destruct (IH (pre ++ [factor]) _ _ _ _ _ Hlen'
                    ltac:(rewrite <- HS; discriminate) Hrun)
          as (calls & Hlog & Hle & Hcalls).
        exists (call :: calls). cbn [encodes put_file log_call] in Hlog.
        rewrite Hw1, <- app_assoc in Hlog. split; [exact Hlog |].
        split; [cbn; lia |].
        intros j c Hj. destruct j as [| j].
        -- cbn in Hj. inversion Hj; subst c. rewrite Nat.add_0_r.
           split; [reflexivity |]. split; [| split].
           ++ intros size' Hs Hfit'. rewrite Hff in Hs. inversion Hs; subst size'.
              congruence.
           ++ intros _. exists size. split; [exact Hff | exact Hfit].
           ++ intros Hs. rewrite Hff in Hs. discriminate.
        -- cbn in Hj. destruct (Hcalls j c Hj) as (Hv & Hstop & Hover & Hrej).
           rewrite <- HS, <- app_assoc in Hv. cbn [app] in Hv.
           rewrite <- HS in Hstop, Hover, Hrej.
           replace (List.length pre + S j) with (S (List.length pre) + j) by lia.
           split; [exact Hv |]. split; [| split].
           ++ intros size' Hs Hfit'. destruct (Hstop size' Hs Hfit') as [L R].
              split; [cbn; lia | exact R].
           ++ intros Hlt. apply Hover. cbn in Hlt. lia.
           ++ exact Hrej.
Qed.

(** The loop goes on after a run that was measured above the target:
    the first scheduled run happens, and a run that wrote too much is
    followed by the next scheduled one. *)
Lemma loop_progress rest : forall (pre : list number) lastOut vk w r w',
  List.length (encodes w) = List.length pre ->
  loop rest (List.length pre) lastOut vk w = (r, w') ->
  exists calls,
    encodes w' = (encodes w ++ calls)%list /\
    (rest <> [] -> calls <> []) /\
    forall j c size, nth_error calls j = Some c ->
      ffmpeg env (List.length pre + j) c = Writes size ->
      le (of_Z size) (targetBytes cfg) = false ->
      S j < List.length rest ->
      S j < List.length calls.
Proof.
  induction rest as [| factor rest IH]; intros pre lastOut vk w r w' Hlen Hrun.
  - unfold loop in Hrun. cbn in Hrun. inversion Hrun; subst.
    exists []. rewrite app_nil_r. split; [reflexivity |].
    split; [congruence |]. intros j c size Hj. destruct j; discriminate.
  - rewrite size_loop_cons in Hrun. cbv zeta in Hrun. rewrite Hlen in Hrun.
    set (out := if Nat.eqb (List.length pre) 0 then firstOut else _) in Hrun.
    set (w1 := if Nat.eqb (List.length pre) 0 then w else tick w) in Hrun.
    set (call := Build_EncodeCall _ _ _ _ _) in Hrun.
    assert (Hw1 : encodes w1 = encodes w).
    { subst w1. destruct (Nat.eqb _ _); reflexivity. }
    destruct (ffmpeg env (List.length pre) call) as [| size] eqn:Hff.
    + inversion Hrun; subst r w'. exists [call].
      rewrite encodes_left_behind. cbn [encodes log_call]. rewrite Hw1.
      split; [reflexivity |]. split; [discriminate |].
      intros j c size Hj Hs. destruct j as [| j]; [| destruct j; discriminate].
      cbn in Hj. inversion Hj; subst c. rewrite Nat.add_0_r in Hs.
      rewrite Hff in Hs. discriminate.
    + destruct (le (of_Z size) (targetBytes cfg)) eqn:Hfit.
      * inversion Hrun; subst r w'. exists [call].
        cbn [encodes log_call put_file]. rewrite Hw1.
        split; [reflexivity |]. split; [discriminate |].
        intros j c size' Hj Hs Hover.
        destruct j as [| j]; [| destruct j; discriminate].
        cbn in Hj. inversion Hj; subst c. rewrite Nat.add_0_r in Hs.
        rewrite Hff in Hs. inversion Hs; subst size'. congruence.
      * assert (Hlen' : List.length (encodes (put_file out size (log_call call w1)))
                        = List.length (pre ++ [factor])).
        { cbn [encodes put_file log_call]. rewrite Hw1, !length_app, Hlen. reflexivity. }
        assert (HS : S (List.length pre) = List.length (pre ++ [factor])).
        { rewrite length_app. cbn. lia. }
        rewrite HS in Hrun.
        destruct (IH (pre ++ [factor]) _ _ _ _ _ Hlen' Hrun)
          as (calls & Hlog & Hne & Hcalls).
        exists (call :: calls). cbn [encodes put_file log_call] in Hlog.
        rewrite Hw1, <- app_assoc in Hlog. split; [exact Hlog |].
        split; [discriminate |].
        intros j c size' Hj Hs Hover Hlt. cbn [List.length] in Hlt |- *.
        destruct j as [| j].
        -- assert (Hr : rest <> []) by (destruct rest; [cbn in Hlt; lia | discriminate]).
           specialize (Hne Hr). destruct calls; [congruence | cbn; lia].
        -- cbn in Hj. rewrite <- HS in Hcalls.
           replace (List.length pre + S j) with (S (List.length pre) + j) in Hs by lia.
           specialize (Hcalls j c size' Hj Hs Hover). lia.
Qed.

(** When no attempt fits, every factor is tried and the output of the last
    one is returned. *)
Lemma loop_exhausts rest : forall pre lastOut vk w,
  List.length (encodes w) = List.length pre ->
  (forall k c, k < List.length (pre ++ rest) ->
     exists size, ffmpeg env k c = Writes size /\
                  le (of_Z size) (targetBytes cfg) = false) ->
  exists out w',
    loop rest (List.length pre) lastOut vk w = (Normal out, w') /\
    List.length (encodes w') = List.length (pre ++ rest) /\
    (rest = [] -> out = lastOut) /\
    (rest <> [] ->
     exists c size,
       nth_error (encodes w') (Nat.pred (List.length (pre ++ rest))) = Some c
       /\ out = call_output c
       /\ ffmpeg env (Nat.pred (List.length (pre ++ rest))) c = Writes size
       /\ lookup out (files w') = Some size).
Proof.
  induction rest as [| factor rest IH]; intros pre lastOut vk w Hlen Hall.
  - exists lastOut, w. rewrite app_nil_r. repeat split; auto. congruence.
  - rewrite size_loop_cons. cbv zeta. rewrite Hlen.
    set (out := if Nat.eqb (List.length pre) 0 then firstOut else _).
    set (w1 := if Nat.eqb (List.length pre) 0 then w else tick w).
    set (now := if Nat.ltb 0 (List.length pre) then _ else _).
    set (call := Build_EncodeCall _ _ _ _ _).
    assert (Hw1 : encodes w1 = encodes w).
    { subst w1. destruct (Nat.eqb _ _); reflexivity. }
    destruct (Hall (List.length pre) call) as (size & Hff & Hfit).
    { rewrite length_app. cbn. lia. }
    rewrite Hff, Hfit.
    assert (HS : S (List.length pre) = List.length (pre ++ [factor])).
    { rewrite length_app. cbn. lia. }
    assert (Happ : ((pre ++ [factor]) ++ rest = pre ++ factor :: rest)%list).
    { rewrite <- app_assoc. reflexivity. }
    rewrite HS.
    destruct (IH (pre ++ [factor]) out now (put_file out size (log_call call w1)))
      as (out' & w' & Hrun & Hn & Hnil & Hlast).
    { cbn [encodes put_file log_call]. rewrite Hw1, !length_app, Hlen. reflexivity. }
    { rewrite Happ. exact Hall. }
    exists out', w'. split; [exact Hrun |]. rewrite Happ in Hn, Hlast.
    split; [exact Hn |]. split; [discriminate |]. intros _.
    destruct rest as [| factor' rest'].
    + specialize (Hnil eq_refl). subst out'.
      unfold loop in Hrun. cbn in Hrun. inversion Hrun; subst w'.
      exists call, size.
      rewrite length_app. cbn [List.length]. rewrite Nat.add_1_r. cbn [Nat.pred].
      split; [| split; [| split]].
      * cbn [encodes put_file log_call]. rewrite Hw1.
        rewrite <- Hlen. rewrite nth_error_app2 by lia.
        rewrite Nat.sub_diag. reflexivity.
      * reflexivity.
      * exact Hff.
      * cbn [files put_file]. apply lookup_write.
    + apply Hlast. discriminate.
Qed.


(** What the loop returns is on disk, and is the output of the last
    encoder run. *)
Lemma loop_returns_last rest : forall i lastOut vk w out w',
  loop rest i lastOut vk w = (Normal out, w') ->
  (rest = [] /\ out = lastOut /\ w' = w)
  \/ (exists_file out w' = true /\
      exists c, nth_error (encodes w') (Nat.pred (List.length (encodes w')))
                = Some c /\ out = call_output c).
Proof.
  induction rest as [| factor rest IH]; intros i lastOut vk w out w' Hrun.
  - left. unfold loop in Hrun. cbn in Hrun. inversion Hrun. auto.
  - right. rewrite size_loop_cons in Hrun. cbv zeta in Hrun.
    set (o := if Nat.eqb i 0 then firstOut else _) in Hrun.
    set (w1 := if Nat.eqb i 0 then w else tick w) in Hrun.
    set (call := Build_EncodeCall _ _ _ _ _) in Hrun.
    assert (Hlast : forall size,
               let w2 := put_file o size (log_call call w1) in
               exists_file o w2 = true /\
               exists c, nth_error (encodes w2) (Nat.pred (List.length (encodes w2)))
                         = Some c /\ o = call_output c).
    { intros size w2. subst w2. split.
      - unfold exists_file. cbn [files put_file]. rewrite lookup_write. reflexivity.
      - exists call. split; [| reflexivity]. cbn [encodes put_file log_call].
        rewrite length_app. cbn [List.length]. rewrite Nat.add_1_r. cbn [Nat.pred].
        rewrite nth_error_app2 by lia. rewrite Nat.sub_diag. reflexivity. }
    destruct (ffmpeg env _ call) as [| size]; [discriminate |].
    destruct (le (of_Z size) (targetBytes cfg)).
    + inversion Hrun; subst out w'. apply Hlast.
    + destruct (IH _ _ _ _ _ _ Hrun) as [(-> & -> & ->) | H]; [apply Hlast | exact H].
Qed.


(** The loop touches neither the response nor the timers. *)
Lemma loop_frame rest : forall i lastOut vk w r w',
  loop rest i lastOut vk w = (r, w') ->
  res w' = res w /\ timers w' = timers w.
Proof.
  induction rest as [| factor rest IH]; intros i lastOut vk w r w' Hrun.
  - unfold loop in Hrun. cbn in Hrun. inversion Hrun. auto.
  - rewrite size_loop_cons in Hrun. cbv zeta in Hrun.
    set (w1 := if Nat.eqb i 0 then w else tick w) in Hrun.
    assert (Hw1 : res w1 = res w /\ timers w1 = timers w).
    { subst w1. destruct (Nat.eqb i 0); auto. }
    destruct (ffmpeg env _ _) as [| size].
    + inversion Hrun; subst.
      match goal with
      | |- context [left_behind ?p ?l ?x] =>
          destruct (left_behind_frame p l x) as (_ & -> & -> & _)
      end.
      exact Hw1.
    + destruct (le (of_Z size) (targetBytes cfg)).
      * inversion Hrun; subst. exact Hw1.
      * apply IH in Hrun. cbn [res timers put_file log_call] in Hrun.
        destruct Hrun as [-> ->]. exact Hw1.
Qed.

(** The first run of a non-empty schedule. *)
Lemma loop_first_call factor rest w r w' :
  encodes w = [] ->
  loop (factor :: rest) 0 firstOut initialVideoKbps w = (r, w') ->
  exists more,
    let c0 :=
      {| call_input := inputPath; call_output := firstOut;
         call_videoKbps := initialVideoKbps;
         call_audioKbps := AUDIO_KBPS cfg;
         call_maxWidth := MAX_WIDTH cfg |} in
    encodes w' = c0 :: more
    /\ (forall size,
          ffmpeg env 0 c0 = Writes size ->
          le (of_Z size) (targetBytes cfg) = true ->
          more = [] /\ r = Normal firstOut
          /\ lookup firstOut (files w') = Some size).
Proof.
  intros Hlog Hrun. rewrite size_loop_cons in Hrun. cbv zeta in Hrun.
  rewrite Hlog in Hrun. cbn [Nat.eqb Nat.ltb Nat.leb List.length] in Hrun.
  set (c0 := Build_EncodeCall _ _ _ _ _) in *.
  destruct (ffmpeg env 0 c0) as [| size] eqn:Hff.
  - inversion Hrun; subst. exists []. cbv zeta. fold c0.
    rewrite encodes_left_behind. cbn [encodes log_call]. rewrite Hlog.
    split; [reflexivity |]. intros size Hs. rewrite Hff in Hs. discriminate.
  - destruct (le (of_Z size) (targetBytes cfg)) eqn:Hfit.
    + inversion Hrun; subst. exists []. cbv zeta. fold c0.
      cbn [encodes log_call put_file].
      rewrite Hlog. split; [reflexivity |].
      intros size' Hs _. rewrite Hff in Hs. inversion Hs; subst.
      repeat split. cbn [files put_file]. apply lookup_write.
    + destruct (loop_inv rest [factor] firstOut initialVideoKbps
                  (put_file firstOut size (log_call c0 w)) r w')
        as (calls & Hcalls & _); [| discriminate | exact Hrun |].
      * cbn [encodes put_file log_call]. rewrite Hlog. reflexivity.
      * exists calls. cbv zeta. fold c0. cbn [encodes put_file log_call] in Hcalls.
        rewrite Hlog in Hcalls. split; [exact Hcalls |].
        intros size' Hs Hfit'. rewrite Hff in Hs. inversion Hs; subst. congruence.
Qed.

End Loop.
End LoopFacts.

(** ** The handlers, case by case *)
Module HandlerFacts.
Import JS Names Host Server LoopFacts.
Local Open Scope string_scope.
Local Open Scope list_scope.

Lemma inputPath_of_Some req f ip :
  inputPath_of req = Some (f, ip) ->
  file req = Some f /\ ip = path f /\ ip <> EmptyString.
Proof.
  unfold inputPath_of. destruct (file req) as [g |]; [| discriminate].
  destruct (String.eqb (path g) EmptyString) eqn:E; [discriminate |].
  intros H. inversion H; subst. apply String.eqb_neq in E. auto.
Qed.

Lemma inputPath_of_None req :
  inputPath_of req = None ->
  file req = None \/ exists f, file req = Some f /\ path f = EmptyString.
Proof.
  unfold inputPath_of. destruct (file req) as [g |]; [| auto].
  destruct (String.eqb (path g) EmptyString) eqn:E; [| discriminate].
  apply String.eqb_eq in E. intros _. right. exists g. auto.
Qed.

Ltac run_handler :=
  cbv beta iota zeta delta
    [try_catch bind now probe ret throw send set_res set_res_with
     cleanupLater streamDownload stat_size unlink_quietly].

Section Queued.

Variable cfg : Config.
Variable env : Env.

(** The ways a request to the queued revision ends. *)
Lemma queued_cases req w r w' :
  Queued.upload cfg env req w = (r, w') ->
  r = Normal tt /\
  ((inputPath_of req = None /\
    w' = with_res (with_text 400 message_400 (res w)) w)
   \/ exists f ip, inputPath_of req = Some (f, ip) /\
      let outName := outName (originalname f) in
      let firstOut :=
        in_TMP_DIR (decimal (Date_now env (ticks w)) ++ "_" ++ outName)%string in
      ((ffprobe env ip = None /\
        w' = with_res (with_text 500 message_500 (res w))
               (add_timer [Some ip] 12000 (tick w)))
       \/ exists meta, ffprobe env ip = Some meta /\
          let init :=
            Queued.initialVideoKbps cfg
              (Queued.totalKbps cfg (Queued.duration meta)) in
          ((exists w1,
              size_loop cfg env ip outName firstOut init Queued.factors 0
                firstOut init (tick w) = (Throw, w1) /\
              w' = with_res (with_text 500 message_500 (res w1))
                     (add_timer [Some ip] 12000 w1))
           \/ (exists out w1,
                 size_loop cfg env ip outName firstOut init Queued.factors 0
                   firstOut init (tick w) = (Normal out, w1) /\
                 exists_file out w1 = true /\
                 w' = add_timer [Some ip; Some out] 12000
                        (with_res
                           (with_pipe out
                              (with_download_headers outName (res w1)))
                           w1))))).
Proof.
  unfold Queued.upload. destruct (inputPath_of req) as [[f ip] |] eqn:Hreq.
  - unfold Queued.jobFn. run_handler.
    destruct (ffprobe env ip) as [meta |] eqn:Hprobe.
    + destruct (size_loop _ _ _ _ _ _ _ _ _ _ _) as [[out |] w1] eqn:Hloop.
      * destruct (loop_returns_last _ _ _ _ _ _ _ _ _ _ _ _ _ Hloop)
          as [(C & _) | (Hex & _)]; [discriminate |].
        assert (Hex' : forall r0, exists_file out (with_res r0 w1) = true)
          by (intros r0; exact Hex).
        rewrite Hex'.
        intros H; inversion H; subst. split; [reflexivity |].
        right. exists f, ip. split; [first [exact Hreq | reflexivity] |]. right. exists meta.
        split; [first [exact Hprobe | reflexivity] |]. right. exists out, w1.
        split; [exact Hloop |]. split; [exact Hex | reflexivity].
      * intros H; inversion H; subst. split; [reflexivity |].
        right. exists f, ip. split; [first [exact Hreq | reflexivity] |]. right. exists meta.
        split; [first [exact Hprobe | reflexivity] |]. left. exists w1. split; [exact Hloop | reflexivity].
    + intros H; inversion H; subst. split; [reflexivity |].
      right. exists f, ip. split; [first [exact Hreq | reflexivity] |]. left. split; [first [exact Hprobe | reflexivity] | reflexivity].
  - run_handler. intros H; inversion H; subst. split; [reflexivity |].
    left. split; [first [exact Hreq | reflexivity] | reflexivity].
Qed.

End Queued.

Section Simple.

Variable cfg : Config.
Variable env : Env.

(** The ways a request to the first revision ends. *)
Lemma simple_cases req w r w' :
  Simple.upload cfg env req w = (r, w') ->
  r = Normal tt /\
  ((inputPath_of req = None /\
    w' = with_res (with_text 400 message_400 (res w)) w)
   \/ exists f ip, inputPath_of req = Some (f, ip) /\
      let outName := outName (originalname f) in
      let firstOut :=
        in_TMP_DIR (decimal (Date_now env (ticks w)) ++ "_" ++ outName)%string in
      ((ffprobe env ip = None /\
        w' = with_res (with_text 500 message_500 (res w))
               (add_timer [Some ip; Some firstOut] 12000 (tick w)))
       \/ exists meta, ffprobe env ip = Some meta /\
          let init :=
            Simple.initialVideoKbps cfg
              (Simple.totalKbps cfg (Simple.duration meta)) in
          ((exists w1,
              size_loop cfg env ip outName firstOut init Simple.passes 0
                firstOut init (tick w) = (Throw, w1) /\
              w' = with_res (with_text 500 message_500 (res w1))
                     (add_timer [Some ip; Some firstOut] 12000 w1))
           \/ (exists out w1,
                 size_loop cfg env ip outName firstOut init Simple.passes 0
                   firstOut init (tick w) = (Normal out, w1) /\
                 exists_file out w1 = true /\
                 w' = add_timer
                        [Some ip;
                         if String.eqb firstOut out then None
                         else Some firstOut;
                         Some out] 12000
                        (with_res
                           (with_pipe out
                              (with_download_headers outName (res w1)))
                           w1))))).
Proof.
  unfold Simple.upload. destruct (inputPath_of req) as [[f ip] |] eqn:Hreq.
  - run_handler.
    destruct (ffprobe env ip) as [meta |] eqn:Hprobe.
    + destruct (size_loop _ _ _ _ _ _ _ _ _ _ _) as [[out |] w1] eqn:Hloop.
      * destruct (loop_returns_last _ _ _ _ _ _ _ _ _ _ _ _ _ Hloop)
          as [(C & _) | (Hex & _)]; [discriminate |].
        assert (Hex' : forall r0, exists_file out (with_res r0 w1) = true)
          by (intros r0; exact Hex).
        rewrite Hex'.
        intros H; inversion H; subst. split; [reflexivity |].
        right. exists f, ip. split; [first [exact Hreq | reflexivity] |].
        right. exists meta. split; [first [exact Hprobe | reflexivity] |].
        right. exists out, w1.
        split; [exact Hloop |]. split; [exact Hex | reflexivity].
      * intros H; inversion H; subst. split; [reflexivity |].
        right. exists f, ip. split; [first [exact Hreq | reflexivity] |].
        right. exists meta. split; [first [exact Hprobe | reflexivity] |].
        left. exists w1. split; [exact Hloop | reflexivity].
    + intros H; inversion H; subst. split; [reflexivity |].
      right. exists f, ip. split; [first [exact Hreq | reflexivity] |].
      left. split; [first [exact Hprobe | reflexivity] | reflexivity].
  - run_handler. intros H; inversion H; subst. split; [reflexivity |].
    left. split; [first [exact Hreq | reflexivity] | reflexivity].
Qed.

End Simple.

Section Legacy.

Variable cfg : Config.
Variable env : Env.


(** The first pass of the earlier revision, once the probe has reported
    a duration. *)
Lemma legacy_first_pass req w r w' f d :
  encodes w = [] ->
  file req = Some f ->
  ffprobe env (path f) = Some {| format := Some {| duration := d |} |} ->
  Legacy.upload cfg env req w = (r, w') ->
  let outName := outName (originalname f) in
  let c0 :=
    {| call_input := path f;
       call_output :=
         in_TMP_DIR (decimal (Date_now env (ticks w)) ++ "_" ++ outName)%string;
       call_videoKbps :=
         Legacy.videoKbps cfg (Legacy.totalKbps cfg (Legacy.duration d));
       call_audioKbps := AUDIO_KBPS cfg;
       call_maxWidth := MAX_WIDTH cfg |} in
  nth_error (encodes w') 0 = Some c0
  /\ (forall size,
        ffmpeg env 0 c0 = Writes size ->
        gt (of_Z size) (targetBytes cfg) = false ->
        encodes w' = [c0]
        /\ res w' = with_pipe (call_output c0)
                      (with_download_headers outName (res w))
        /\ scheduled w' = scheduled w ++ [path f; call_output c0]).
Proof.
  intros Hlog Hfile Hprobe. unfold Legacy.upload. rewrite Hfile.
  run_handler. unfold encode. rewrite Hprobe.
  cbn [format Host.duration encodes tick]. rewrite Hlog. cbn [List.length].
  cbv zeta. set (c0 := Build_EncodeCall _ _ _ _ _).
  destruct (ffmpeg env 0 c0) as [| size] eqn:Hff.
  - intros H; inversion H; subst.
    cbn [encodes add_timer with_res]. rewrite encodes_left_behind.
    cbn [encodes log_call tick]. rewrite Hlog.
    split; [reflexivity |]. intros size Hs. discriminate.
  - cbn [files put_file log_call tick]. rewrite lookup_write.
    destruct (gt (of_Z size) (targetBytes cfg)) eqn:Hgt.
    + cbn [encodes put_file log_call tick]. rewrite Hlog. cbn [app List.length].
      set (c1 := Build_EncodeCall _ _ _ _ _).
      match goal with
      | |- _ = (r, w') -> ?G =>
          assert (Hend : forall x : Completion unit * World,
                    encodes (snd x) = [c0; c1] -> x = (r, w') -> G)
      end.
      { intros x Hx E. subst x. cbn [snd] in Hx. rewrite Hx.
        split; [reflexivity |]. intros size' Hs. inversion Hs; subst size'.
        congruence. }
      destruct (ffmpeg env 1 c1) as [| size'] eqn:Hff1.
      * apply Hend. cbn [snd encodes add_timer with_res].
        rewrite encodes_left_behind. cbn. rewrite Hlog. reflexivity.
      * cbn [files put_file log_call tick drop_file].
        repeat match goal with
               | |- context [lookup ?p ?fs] => destruct (lookup p fs)
               | |- context [exists_file ?p ?w0] =>
                   destruct (exists_file p w0)
               end;
        apply Hend; cbn; rewrite ?Hlog; reflexivity.
    + assert (Hex : forall r0,
                exists_file (call_output c0)
                  (with_res r0 (put_file (call_output c0) size
                                  (log_call c0 (tick w)))) = true).
      { intros r0. unfold exists_file. cbn [files with_res put_file].
        rewrite lookup_write. reflexivity. }
      cbn [call_output c0] in Hex. rewrite Hex.
      intros H; inversion H; subst.
      cbn [encodes add_timer with_res log_call tick put_file]. rewrite Hlog.
      split; [reflexivity |]. intros size' Hs _.
      split; [reflexivity |]. split; [reflexivity |].
      unfold scheduled.
      cbn [timers add_timer with_res put_file log_call tick].
      rewrite flat_map_app. reflexivity.
Qed.

End Legacy.

End HandlerFacts.

(** ** The admission queue *)
Module QueueFacts.
Import Queue.
Local Open Scope list_scope.

Lemma started_app h h' : started (h ++ h') = started h ++ started h'.
Proof.
  induction h as [| e h IH]; [reflexivity |].
  destruct e; cbn [app started]; rewrite IH; reflexivity.
Qed.

Lemma split_last {A} (h : list A) x h1 e h2 :
  h ++ [x] = h1 ++ e :: h2 ->
  (h2 = [] /\ x = e /\ h = h1)
  \/ exists h2', h2 = h2' ++ [x] /\ h = h1 ++ e :: h2'.
Proof.
  intros H. destruct (exists_last (l := e :: h2)) as (h2' & y & E); [discriminate |].
  rewrite E, app_assoc in H. apply app_inj_tail in H. destruct H as [H Hxy].
  subst y.
  destruct h2' as [| e' h2'].
  - left. cbn in E. injection E as E1 E2. rewrite app_nil_r in H. subst. auto.
  - right. cbn in E. injection E as E1 E2. subst. exists h2'. auto.
Qed.

Lemma released_before_snoc j e h x :
  released_before j e h ->
  (x = e -> In (Released j) h) ->
  released_before j e (h ++ [x]).
Proof.
  intros Hh Hx h1 h2 E. destruct (split_last _ _ _ _ _ E) as [(_ & Ex & Eh) | (h2' & _ & Eh)].
  - subst h1. apply Hx, Ex.
  - apply (Hh h1 h2'), Eh.
Qed.

Lemma remove_length_NoDup j l :
  NoDup l -> In j l ->
  S (List.length (List.remove Nat.eq_dec j l)) = List.length l.
Proof.
  induction 1 as [| a l Ha Hl IH]; intros Hin; [destruct Hin |].
  cbn [List.remove]. destruct (Nat.eq_dec j a) as [-> | N].
  - rewrite notin_remove by exact Ha. reflexivity.
  - cbn [List.length]. f_equal. apply IH. destruct Hin; [congruence | assumption].
Qed.

Lemma NoDup_remove_any j l : NoDup l -> NoDup (List.remove Nat.eq_dec j l).
Proof.
  induction 1 as [| a l Ha Hl IH]; cbn [List.remove]; [constructor |].
  destruct (Nat.eq_dec j a); [exact IH |].
  constructor; [| exact IH]. intros C. apply in_remove in C. tauto.
Qed.

Section WithCapacity.

Variable CONCURRENCY : Z.

Lemma invariant_init : invariant CONCURRENCY init.
Proof.
  unfold invariant, init. cbn [queue running inside settled arrived history].
  assert (R : forall j e, released_before j e []).
  { intros j e pre post E. destruct pre; discriminate. }
  split; [reflexivity |]. split; [cbn; lia |]. split; [reflexivity |].
  split; [constructor |]. split; [intros x [] |].
  split; [intros j ok [] | intros j; split; apply R].
Qed.

Lemma invariant_pump s : invariant CONCURRENCY s -> invariant CONCURRENCY (pump CONCURRENCY s).
Proof.
  intros (Hrun & Hcap & Hfifo & Hnd & Hincl & Hset & Hrel). unfold pump.
  destruct (running s >=? CONCURRENCY) eqn:Hfull; cbn [orb];
    [repeat split; auto; apply Hrel |].
  destruct (queue s) as [| j rest] eqn:Hq; cbn [List.length Nat.eqb];
    [repeat split; auto; rewrite ?Hq; auto; apply Hrel |].
  rewrite Z.geb_leb in Hfull. apply Z.leb_gt in Hfull.
  assert (Hfresh : ~ In j (started (history s))).
  { intros C. pose proof (seq_NoDup (arrived s) 0) as N. rewrite <- Hfifo in N.
    apply NoDup_remove_2 in N. apply N, in_app_iff. left. exact C. }
  unfold invariant. cbn [queue running inside settled arrived history].
  rewrite started_app. cbn [started]. repeat split.
  - rewrite length_app. cbn [List.length]. lia.
  - lia.
  - rewrite <- app_assoc. exact Hfifo.
  - apply NoDup_app; [exact Hnd | constructor; [intros [] | constructor] |].
    intros x Hx [<- | []]. apply Hfresh, Hincl, Hx.
  - intros x Hx. apply in_app_iff. apply in_app_iff in Hx.
    destruct Hx as [Hx | Hx]; [left; apply Hincl, Hx | right; exact Hx].
  - intros j' ok H. apply in_app_iff. left. eapply Hset, H.
  - apply released_before_snoc; [apply Hrel | discriminate].
  - apply released_before_snoc; [apply Hrel | discriminate].
Qed.


Lemma invariant_enqueue s :
  invariant CONCURRENCY s -> invariant CONCURRENCY (enqueue CONCURRENCY s).
Proof.
  intros (Hrun & Hcap & Hfifo & Hnd & Hincl & Hset & Hrel).
  unfold enqueue. apply invariant_pump. unfold invariant.
  cbn [queue running inside settled arrived history].
  repeat split; auto; try apply Hrel.
  rewrite app_assoc, Hfifo, seq_S. reflexivity.
Qed.

Lemma invariant_finished j ok s :
  In j (inside s) ->
  invariant CONCURRENCY s -> invariant CONCURRENCY (finished CONCURRENCY j ok s).
Proof.
  intros Hin (Hrun & Hcap & Hfifo & Hnd & Hincl & Hset & Hrel).
  unfold finished.
  set (s1 := Build_State (queue s) (running s - 1) _ _ _ _).
  assert (I1 : invariant CONCURRENCY s1).
  { unfold invariant, s1. cbn [queue running inside settled arrived history].
    rewrite started_app. cbn [started]. rewrite app_nil_r. repeat split.
    - pose proof (remove_length_NoDup j (inside s) Hnd Hin). unfold Job in *. lia.
    - lia.
    - exact Hfifo.
    - apply NoDup_remove_any, Hnd.
    - intros x Hx. apply in_remove in Hx. apply Hincl, Hx.
    - intros j' ok' H. apply in_app_iff. left. eapply Hset, H.
    - apply released_before_snoc; [apply Hrel | discriminate].
    - apply released_before_snoc; [apply Hrel | discriminate]. }
  assert (Hafter : In (Released j) (history (pump CONCURRENCY s1))).
  { unfold pump. destruct (_ || _); [| destruct (queue s1)];
      cbn [history s1]; rewrite ?in_app_iff; cbn; auto. }
  destruct (invariant_pump s1 I1) as (Hrun' & Hcap' & Hfifo' & Hnd' & Hincl' & Hset' & Hrel').
  unfold invariant. cbn [queue running inside settled arrived history].
  repeat split; auto; try apply Hrel'.
  intros j' ok' H. apply in_app_iff in H. destruct H as [H | [H | []]].
  - eapply Hset', H.
  - inversion H; subst. exact Hafter.
Qed.

Lemma invariant_resumed j ok s :
  In (j, ok) (settled s) ->
  invariant CONCURRENCY s -> invariant CONCURRENCY (resumed j ok s).
Proof.
  intros Hin (Hrun & Hcap & Hfifo & Hnd & Hincl & Hset & Hrel).
  pose proof (Hset j ok Hin) as Hreleased.
  unfold invariant, resumed. cbn [queue running inside settled arrived history].
  rewrite started_app.
  assert (E : started [if ok then Streaming j else Sent500 j] = [])
    by (destruct ok; reflexivity).
  rewrite E, app_nil_r. repeat split; auto.
  - intros j' ok' H. apply filter_In in H. apply in_app_iff. left.
    eapply Hset, (proj1 H).
  - apply released_before_snoc; [apply Hrel |].
    destruct ok; [| discriminate]. intros H; inversion H; subst. exact Hreleased.
  - apply released_before_snoc; [apply Hrel |].
    destruct ok; [discriminate |]. intros H; inversion H; subst. exact Hreleased.
Qed.

Lemma invariant_step s i s' :
  invariant CONCURRENCY s -> step CONCURRENCY s i = Some s' ->
  invariant CONCURRENCY s'.
Proof.
  intros I. destruct i as [| j ok | j]; cbn [step].
  - intros H; inversion H. apply invariant_enqueue, I.
  - destruct (existsb (Nat.eqb j) (inside s)) eqn:E; [| discriminate].
    intros H; inversion H. apply invariant_finished; [| exact I].
    apply existsb_exists in E. destruct E as (x & Hx & Ex).
    apply Nat.eqb_eq in Ex. subst x. exact Hx.
  - destruct (find (fun e => Nat.eqb (fst e) j) (settled s))
      as [[j' ok] |] eqn:E; [| discriminate].
    intros H; inversion H. apply find_some in E. destruct E as [Hin Ej].
    cbn in Ej. apply Nat.eqb_eq in Ej. subst j'.
    apply invariant_resumed; assumption.
Qed.

Lemma invariant_run inputs : forall s s',
  invariant CONCURRENCY s -> run CONCURRENCY s inputs = Some s' ->
  invariant CONCURRENCY s'.
Proof.
  induction inputs as [| i inputs IH]; intros s s' I; cbn [run].
  - intros H; inversion H; subst. exact I.
  - destruct (step CONCURRENCY s i) as [s1 |] eqn:E; [| discriminate].
    apply IH. eapply invariant_step; eassumption.
Qed.

Lemma reachable_invariant s :
  reachable CONCURRENCY s -> invariant CONCURRENCY s.
Proof.
  intros [inputs H]. eapply invariant_run; [apply invariant_init | exact H].
Qed.

End WithCapacity.
End QueueFacts.

(** ** Bitrates along the schedule *)
Module BitrateFacts.
Import JS Host Server Rounding NumberFacts PlannerFacts.
Local Open Scope Q_scope.


Lemma small_integers_finite :
  inject_Z 56 < overflow /\ inject_Z 64 < overflow.
Proof. split; vm_compute; reflexivity. Qed.

(** The literals of the three schedules, as the rationals they denote. *)
Lemma literal_values :
  rn (82 # 100) <= 1 /\ rn (68 # 100) <= rn (82 # 100)
  /\ rn (56 # 100) <= rn (68 # 100)
  /\ rn (85 # 100) <= 1 /\ rn (72 # 100) <= rn (85 # 100).
Proof. repeat split; vm_compute; discriminate. Qed.

Lemma literal_signs :
  0 < rn (82 # 100) /\ 0 < rn (68 # 100) /\ 0 < rn (56 # 100)
  /\ 0 < rn (85 # 100) /\ 0 < rn (72 # 100).
Proof. repeat split; vm_compute; reflexivity. Qed.

Lemma round_binary64 q : binary64 (round q).
Proof.
  destruct (round_cases q) as [(-> & L & U) | [(-> & _) | (-> & _)]];
    cbn [binary64]; auto using representable_rn.
Qed.






(** With a finite [TARGET_MB] the budget in bytes is a number. *)
Lemma targetBytes_not_NaN cfg t :
  TARGET_MB cfg = Fin t -> targetBytes cfg <> NaN.
Proof.
  intros H. unfold targetBytes. rewrite H. unfold of_Z.
  apply Math_floor_not_NaN. apply mul_not_NaN; [| reflexivity].
  apply mul_not_NaN; [discriminate | reflexivity].
Qed.

(** A [TARGET_MB] that is not negative gives a budget that is not. *)
Lemma targetBytes_nonneg cfg t :
  TARGET_MB cfg = Fin t -> 0 <= t -> le (Fin 0) (targetBytes cfg) = true.
Proof.
  intros H Ht. unfold targetBytes. rewrite H. unfold of_Z.
  apply Math_floor_nonneg. apply mul_nonneg; [| reflexivity].
  apply mul_nonneg; [| reflexivity]. apply le_Fin, Ht.
Qed.

(** With a [TARGET_MB] of at most [2^1000] in magnitude the budget in
    bytes is a whole number of at most [2^1020]. *)
Lemma targetBytes_bounded cfg t :
  TARGET_MB cfg = Fin t -> - 2 ^ 1000 <= t -> t <= 2 ^ 1000 ->
  exists tb, targetBytes cfg = of_Z tb
             /\ - 2 ^ 1020 <= inject_Z tb /\ inject_Z tb <= 2 ^ 1020.
Proof.
  intros H Lo Hi. unfold targetBytes. rewrite H. unfold of_Z.
  assert (P1 : 2 ^ 1010 == 2 ^ 1000 * inject_Z 1024).
  { change (inject_Z 1024) with (2 ^ 10). rewrite <- pow2_add. reflexivity. }
  assert (P2 : 2 ^ 1020 == 2 ^ 1010 * inject_Z 1024).
  { change (inject_Z 1024) with (2 ^ 10). rewrite <- pow2_add. reflexivity. }
  assert (PZ : inject_Z (2 ^ 1020) == 2 ^ 1020) by (apply pow2_Z; lia).
  pose proof (pow2_pos 1000) as Q0.
  set (A := 2 ^ 1000) in *. set (B := 2 ^ 1010) in *. set (C := 2 ^ 1020) in *.
  change (inject_Z 1024) with 1024 in *.
  destruct (round_bound (t * 1024) 1010 ltac:(lia)) as (E1 & L1 & U1);
    [fold B; lra | fold B; lra |].
  fold B in L1, U1. cbn [mul]. rewrite E1. set (x := rn (t * 1024)) in *.
  destruct (round_bound (x * 1024) 1020 ltac:(lia)) as (E2 & L2 & U2);
    [fold C; lra | fold C; lra |].
  fold C in L2, U2. cbn [mul]. rewrite E2. set (y := rn (x * 1024)) in *.
  cbn [Math_floor]. eexists. split; [reflexivity |].
  split.
  - rewrite <- PZ, <- inject_Z_opp, <- Zle_Qle.
    rewrite <- (Qfloor_Z (- 2 ^ 1020)). apply Qfloor_resp_le.
    rewrite inject_Z_opp, PZ. exact L2.
  - eapply Qle_trans; [apply Qfloor_le | exact U2].
Qed.



End BitrateFacts.

(** ** More on the admission queue *)
Module QueueMore.
Import Queue QueueFacts.
Local Open Scope list_scope.

Section WithCapacity.

Variable CONCURRENCY : Z.

Lemma pump_one_waiting s j :
  queue s = [j] -> busy_or_idle CONCURRENCY (pump CONCURRENCY s).
Proof.
  intros Hq. unfold pump, busy_or_idle. rewrite Hq. cbn [List.length Nat.eqb orb].
  destruct (running s >=? CONCURRENCY) eqn:E; cbn [orb].
  - right. rewrite Z.geb_leb in E. apply Z.leb_le in E. exact E.
  - left. reflexivity.
Qed.

Lemma pump_all_taken s :
  CONCURRENCY <= running s -> pump CONCURRENCY s = s.
Proof.
  intros H. unfold pump.
  assert (E : (running s >=? CONCURRENCY) = true).
  { rewrite Z.geb_leb. apply Z.leb_le. exact H. }
  rewrite E. reflexivity.
Qed.

Lemma busy_or_idle_step s i s' :
  busy_or_idle CONCURRENCY s -> step CONCURRENCY s i = Some s' -> busy_or_idle CONCURRENCY s'.
Proof.
  intros B. destruct i as [| j ok | j]; cbn [step].
  - intros H; inversion H; subst s'. unfold enqueue.
    destruct B as [Hq | Hfull].
    + eapply pump_one_waiting. cbn [queue]. rewrite Hq. reflexivity.
    + rewrite pump_all_taken by exact Hfull. right. exact Hfull.
  - destruct (existsb (Nat.eqb j) (inside s)); [| discriminate].
    intros H; inversion H; subst s'. unfold finished, busy_or_idle.
    cbn [queue running].
    set (s1 := Build_State (queue s) (running s - 1) _ _ _ _).
    unfold pump. cbn [running queue s1].
    destruct (running s - 1 >=? CONCURRENCY) eqn:E; cbn [orb].
    + right. cbn [running]. rewrite Z.geb_leb in E. apply Z.leb_le in E. exact E.
    + destruct (queue s) as [| k rest] eqn:Hq; cbn [List.length Nat.eqb].
      * left. reflexivity.
      * right. cbn [running]. destruct B as [C | Hfull]; [congruence | lia].
  - destruct (find (fun e => Nat.eqb (fst e) j) (settled s))
      as [[j0 ok] |]; [| discriminate].
    intros H; inversion H; subst s'. exact B.
Qed.

Lemma busy_or_idle_run inputs : forall s s',
  busy_or_idle CONCURRENCY s -> run CONCURRENCY s inputs = Some s' -> busy_or_idle CONCURRENCY s'.
Proof.
  induction inputs as [| i inputs IH]; intros s s' B; cbn [run].
  - intros H; inversion H; subst. exact B.
  - destruct (step CONCURRENCY s i) as [s1 |] eqn:E; [| discriminate].
    apply IH. eapply busy_or_idle_step; eassumption.
Qed.

Lemma stalled_step s i s' :
  CONCURRENCY <= 0 ->
  stalled s -> step CONCURRENCY s i = Some s' -> stalled s'.
Proof.
  intros HC (Hr & Hi & Hs & Hh). destruct i as [| j ok | j]; cbn [step].
  - intros H; inversion H; subst s'. unfold enqueue.
    rewrite pump_all_taken by (cbn [running]; lia).
    unfold stalled. cbn [running inside settled history]. auto.
  - rewrite Hi. cbn [existsb]. discriminate.
  - rewrite Hs. cbn [find]. discriminate.
Qed.

Lemma stalled_run inputs : forall s s',
  CONCURRENCY <= 0 ->
  stalled s -> run CONCURRENCY s inputs = Some s' -> stalled s'.
Proof.
  induction inputs as [| i inputs IH]; intros s s' HC B; cbn [run].
  - intros H; inversion H; subst. exact B.
  - destruct (step CONCURRENCY s i) as [s1 |] eqn:E; [| discriminate].
    apply IH; [exact HC |]. eapply stalled_step; eassumption.
Qed.

End WithCapacity.
End QueueMore.

(** ** Strings: decimal numerals and the names of the attempts *)
Module StringFacts.
Import JS Names.
Local Open Scope string_scope.
Local Open Scope list_scope.

Lemma chars_app a b : chars (a ++ b)%string = chars a ++ chars b.
Proof.
  induction a as [| c a IH]; cbn [String.append chars app].
  - reflexivity.
  - rewrite IH. reflexivity.
Qed.

Lemma chars_inj a b : chars a = chars b -> a = b.
Proof.
  revert b. induction a as [| c a IH]; intros [| d b] H; cbn [chars] in H;
    try discriminate; [reflexivity |].
  inversion H; subst. f_equal. apply IH. assumption.
Qed.

Lemma length_chars a : List.length (chars a) = String.length a.
Proof.
  induction a as [| c a IH]; cbn [chars List.length String.length]; congruence.
Qed.

Lemma length_append a b :
  String.length (a ++ b)%string = (String.length a + String.length b)%nat.
Proof.
  rewrite <- !length_chars, chars_app. apply length_app.
Qed.

Lemma append_assoc a b c : ((a ++ b) ++ c = a ++ (b ++ c))%string.
Proof.
  induction a as [| x a IH]; cbn [String.append]; congruence.
Qed.

Lemma append_inv_head a x y : (a ++ x = a ++ y)%string -> x = y.
Proof.
  induction a as [| c a IH]; cbn [String.append]; intros H.
  - exact H.
  - inversion H. auto.
Qed.

(** A string is not a proper suffix of itself. *)
Lemma append_not_self a x : a <> EmptyString -> (a ++ x)%string <> x.
Proof.
  intros Ha E. apply (f_equal String.length) in E. rewrite length_append in E.
  destruct a; [congruence | cbn [String.length] in E; lia].
Qed.

(** Two strings that agree up to their first separator agree before it and
    after it. *)
Lemma split_at_separator (sep : ascii) a b x y :
  ~ In sep (chars a) -> ~ In sep (chars b) ->
  (a ++ String sep x = b ++ String sep y)%string ->
  a = b /\ x = y.
Proof.
  revert b. induction a as [| c a IH]; intros [| d b] Ha Hb E;
    cbn [String.append chars] in *.
  - inversion E. auto.
  - inversion E; subst. exfalso. apply Hb. left. reflexivity.
  - inversion E; subst. exfalso. apply Ha. left. reflexivity.
  - inversion E; subst.
    destruct (IH b) as [-> ->];
      [intros H; apply Ha; right; exact H
      | intros H; apply Hb; right; exact H
      | assumption | auto].
Qed.

Lemma uint_chars d c :
  In c (chars (NilEmpty.string_of_uint d)) -> between "0" "9" c = true.
Proof.
  induction d; cbn [NilEmpty.string_of_uint chars]; intros H;
    [destruct H | destruct H as [E | H]; [subst c; reflexivity | auto] ..].
Qed.

Lemma nilzero_uint_chars d c :
  In c (chars (NilZero.string_of_uint d)) -> between "0" "9" c = true.
Proof.
  destruct d; try apply uint_chars.
  cbn [NilZero.string_of_uint chars]. intros [E | []]. subst c. reflexivity.
Qed.

(** A decimal numeral holds digits and at most a leading minus sign. *)
Lemma decimal_chars z c :
  In c (chars (decimal z)) -> between "0" "9" c = true \/ c = "-"%char.
Proof.
  unfold decimal, NilZero.string_of_int.
  destruct (Z.to_int z) as [d | d].
  - intros H. left. eapply nilzero_uint_chars. exact H.
  - cbn [chars]. intros [E | H]; [right; auto | left].
    eapply nilzero_uint_chars. exact H.
Qed.

Lemma decimal_no (sep : ascii) z :
  between "0" "9" sep = false -> sep <> "-"%char ->
  ~ In sep (chars (decimal z)).
Proof.
  intros Hd Hm H. destruct (decimal_chars z sep H) as [D | M]; congruence.
Qed.

Lemma decimal_no_underscore z : ~ In "_"%char (chars (decimal z)).
Proof. apply decimal_no; [reflexivity | discriminate]. Qed.

Lemma to_uint_nonnil p : Pos.to_uint p <> Decimal.Nil.
Proof. apply DecimalPos.Unsigned.to_uint_nonnil. Qed.

(** [`${n}`] is injective on integers. *)
Lemma decimal_inj a b : decimal a = decimal b -> a = b.
Proof.
  unfold decimal. intros E.
  assert (N : forall z, NilZero.int_of_string (NilZero.string_of_int (Z.to_int z))
                        = Some (Z.to_int z)).
  { intros z. apply NilZero.isi; destruct z; cbn [Z.to_int]; try discriminate;
      intros H; inversion H; eapply to_uint_nonnil; eassumption. }
  pose proof (N a) as Na. rewrite E, N in Na. inversion Na as [I].
  rewrite <- (DecimalZ.of_to a), <- (DecimalZ.of_to b). congruence.
Qed.

(** The path of attempt [i > 0] differs from the path of the first
    attempt and from the path of every other attempt, whatever the clock
    returned. *)
Lemma first_path_differs t t' i outName :
  in_TMP_DIR (decimal t ++ "_" ++ outName)
  <> in_TMP_DIR (decimal t' ++ "_" ++ decimal i ++ "_" ++ outName).
Proof.
  unfold in_TMP_DIR. intros E. apply append_inv_head in E.
  apply (split_at_separator "_"%char) in E;
    try apply decimal_no_underscore.
  destruct E as [_ E]. symmetry in E.
  change (decimal i ++ "_" ++ outName)%string
    with (decimal i ++ ("_" ++ outName))%string in E.
  rewrite <- append_assoc in E. revert E. apply append_not_self.
  destruct (decimal i); discriminate.
Qed.

Lemma later_paths_differ t t' i j outName :
  in_TMP_DIR (decimal t ++ "_" ++ decimal i ++ "_" ++ outName)
  = in_TMP_DIR (decimal t' ++ "_" ++ decimal j ++ "_" ++ outName) ->
  i = j.
Proof.
  unfold in_TMP_DIR. intros E. apply append_inv_head in E.
  apply (split_at_separator "_"%char) in E;
    try apply decimal_no_underscore.
  destruct E as [_ E].
  apply (split_at_separator "_"%char) in E;
    try apply decimal_no_underscore.
  apply decimal_inj. apply E.
Qed.

Lemma retry_path_differs t t' outName :
  in_TMP_DIR (decimal t ++ "_" ++ outName)
  <> in_TMP_DIR (decimal t' ++ "_retry_" ++ outName).
Proof.
  unfold in_TMP_DIR. intros E. apply append_inv_head in E.
  apply (split_at_separator "_"%char) in E;
    try apply decimal_no_underscore.
  destruct E as [_ E]. symmetry in E. revert E.
  apply (append_not_self "retry_"). discriminate.
Qed.

End StringFacts.

(** ** The temporary directory: writes, unlinks and the cleanup timers *)
Module DiskFacts.
Import JS Names Host Server LoopFacts.
Local Open Scope string_scope.
Local Open Scope list_scope.

Lemma lookup_app p fs gs :
  lookup p (fs ++ gs)
  = match lookup p fs with Some v => Some v | None => lookup p gs end.
Proof.
  unfold lookup. induction fs as [| [k v] fs IH]; cbn [find app fst snd].
  - reflexivity.
  - destruct (String.eqb k p); [reflexivity | exact IH].
Qed.

Lemma lookup_remove_other p q fs :
  p <> q -> lookup p (remove q fs) = lookup p fs.
Proof.
  intros N. unfold lookup, remove.
  induction fs as [| [k v] fs IH]; cbn [filter find fst snd]; [reflexivity |].
  destruct (String.eqb k q) eqn:Eq; cbn [negb].
  - apply String.eqb_eq in Eq. subst k.
    destruct (String.eqb q p) eqn:Ep; [| exact IH].
    apply String.eqb_eq in Ep. congruence.
  - cbn [find fst snd]. destruct (String.eqb k p); [reflexivity | exact IH].
Qed.

Lemma lookup_write_other p q size fs :
  p <> q -> lookup p (write q size fs) = lookup p fs.
Proof.
  intros N. unfold write. rewrite lookup_app, lookup_remove_other by exact N.
  destruct (lookup p fs); [reflexivity |].
  unfold lookup. cbn [find fst snd].
  destruct (String.eqb q p) eqn:E; [| reflexivity].
  apply String.eqb_eq in E. congruence.
Qed.

Lemma lookup_unlink_same p fs :
  p <> EmptyString -> lookup p (unlink_if_present fs (Some p)) = None.
Proof.
  intros N. unfold unlink_if_present. apply String.eqb_neq in N. rewrite N.
  destruct (lookup p fs) eqn:E; [apply lookup_remove | exact E].
Qed.

Lemma lookup_unlink_other p q fs :
  q <> Some p -> lookup p (unlink_if_present fs q) = lookup p fs.
Proof.
  intros N. destruct q as [s |]; cbn [unlink_if_present]; [| reflexivity].
  destruct (String.eqb s EmptyString); [reflexivity |].
  destruct (lookup s fs); [| reflexivity].
  apply lookup_remove_other. congruence.
Qed.

Lemma lookup_unlink_sub p q fs v :
  lookup p (unlink_if_present fs q) = Some v -> lookup p fs = Some v.
Proof.
  destruct q as [s |]; cbn [unlink_if_present]; [| auto].
  destruct (String.eqb s EmptyString); [auto |].
  destruct (lookup s fs); [| auto].
  destruct (string_dec p s) as [-> | N].
  - rewrite lookup_remove. discriminate.
  - rewrite lookup_remove_other by exact N. auto.
Qed.

Lemma fire_cons q paths fs :
  fire (q :: paths) fs = fire paths (unlink_if_present fs q).
Proof. reflexivity. Qed.

Lemma lookup_fire_sub paths : forall fs p v,
  lookup p (fire paths fs) = Some v -> lookup p fs = Some v.
Proof.
  induction paths as [| q paths IH]; intros fs p v H; [exact H |].
  rewrite fire_cons in H. eapply lookup_unlink_sub, IH, H.
Qed.

Lemma lookup_fire_in paths : forall fs p,
  In (Some p) paths -> p <> EmptyString -> lookup p (fire paths fs) = None.
Proof.
  induction paths as [| q paths IH]; intros fs p Hin N; [destruct Hin |].
  rewrite fire_cons. destruct Hin as [-> | Hin]; [| apply IH; assumption].
  destruct (lookup p (fire paths _)) as [v |] eqn:E; [| reflexivity].
  apply lookup_fire_sub in E. rewrite lookup_unlink_same in E by exact N.
  discriminate.
Qed.

Lemma lookup_fire_other paths : forall fs p,
  ~ In (Some p) paths -> lookup p (fire paths fs) = lookup p fs.
Proof.
  induction paths as [| q paths IH]; intros fs p Hin; [reflexivity |].
  rewrite fire_cons, IH by (intros H; apply Hin; right; exact H).
  apply lookup_unlink_other. intros E. apply Hin. left. exact E.
Qed.

Lemma in_scheduled w p :
  In p (scheduled w) <-> exists t, In t (timers w) /\ In (Some p) (fst t).
Proof.
  unfold scheduled. rewrite in_flat_map. split.
  - intros (t & Ht & Hp). exists t. split; [exact Ht |].
    apply in_flat_map in Hp. destruct Hp as ([s |] & Hs & Hp); [| destruct Hp].
    destruct Hp as [-> | []]. exact Hs.
  - intros (t & Ht & Hp). exists t. split; [exact Ht |].
    apply in_flat_map. exists (Some p). split; [exact Hp | left; reflexivity].
Qed.

Lemma lookup_timers_sub (ts : list (list (option string) * Z)) : forall fs p v,
  lookup p (fold_left (fun fs t => fire (fst t) fs) ts fs) = Some v ->
  lookup p fs = Some v.
Proof.
  induction ts as [| t ts IH]; intros fs p v H; [exact H |].
  cbn [fold_left] in H. eapply lookup_fire_sub, IH, H.
Qed.

Lemma lookup_timers_in (ts : list (list (option string) * Z)) : forall fs p,
  (exists t, In t ts /\ In (Some p) (fst t)) -> p <> EmptyString ->
  lookup p (fold_left (fun fs t => fire (fst t) fs) ts fs) = None.
Proof.
  induction ts as [| t ts IH]; intros fs p (t' & Ht & Hp) N; [destruct Ht |].
  cbn [fold_left]. destruct Ht as [-> | Ht].
  - destruct (lookup p (fold_left _ ts _)) as [v |] eqn:E; [| reflexivity].
    apply lookup_timers_sub in E. rewrite lookup_fire_in in E by assumption.
    discriminate.
  - apply IH; [exists t'; auto | exact N].
Qed.

Lemma lookup_timers_other (ts : list (list (option string) * Z)) : forall fs p,
  (forall t, In t ts -> ~ In (Some p) (fst t)) ->
  lookup p (fold_left (fun fs t => fire (fst t) fs) ts fs) = lookup p fs.
Proof.
  induction ts as [| t ts IH]; intros fs p H; [reflexivity |].
  cbn [fold_left]. rewrite IH by (intros t' Ht'; apply H; right; exact Ht').
  apply lookup_fire_other. apply H. left. reflexivity.
Qed.




(** What the timers leave: a scheduled path is gone, any other path is as
    the request left it. *)
Lemma after_timers_scheduled w p :
  In p (scheduled w) -> p <> EmptyString -> lookup p (after_timers w) = None.
Proof.
  intros H N. apply lookup_timers_in; [| exact N]. apply in_scheduled, H.
Qed.

Lemma after_timers_other w p :
  ~ In p (scheduled w) -> lookup p (after_timers w) = lookup p (files w).
Proof.
  intros H. apply lookup_timers_other. intros t Ht Hp. apply H.
  apply in_scheduled. exists t. auto.
Qed.

Lemma after_timers_sub w p v :
  lookup p (after_timers w) = Some v -> lookup p (files w) = Some v.
Proof. apply lookup_timers_sub. Qed.



Lemma stamped_has_underscore t rest :
  In "_"%char (chars (in_TMP_DIR (decimal t ++ "_" ++ rest))).
Proof.
  unfold in_TMP_DIR. rewrite !StringFacts.chars_app. apply in_or_app. right.
  apply in_or_app. right. left. reflexivity.
Qed.

End DiskFacts.

(** ** What a run of the size loop leaves behind *)
Module TraceFacts.
Import JS Names Host Server LoopFacts StringFacts DiskFacts.
Local Open Scope string_scope.
Local Open Scope list_scope.
Local Open Scope nat_scope.

Section Loop.

Variable cfg : Config.
Variable env : Env.
Variables inputPath outName firstOut : string.
Variable initialVideoKbps : number.

Let loop := size_loop cfg env inputPath outName firstOut initialVideoKbps.

(** The encoder runs of the loop, their arguments, and the files they
    leave. *)
Lemma loop_trace rest : forall i lastOut vk w r w',
  List.length (encodes w) = i ->
  loop rest i lastOut vk w = (r, w') ->
  exists calls,
    encodes w' = encodes w ++ calls
    /\ (forall j c, nth_error calls j = Some c ->
          call_input c = inputPath
          /\ call_audioKbps c = AUDIO_KBPS cfg
          /\ call_maxWidth c = MAX_WIDTH cfg
          /\ (i + j = 0 -> call_output c = firstOut)
          /\ (0 < i + j ->
              exists t,
                call_output c
                = in_TMP_DIR (decimal t ++ "_" ++ decimal (Z.of_nat (i + j))
                              ++ "_" ++ outName)%string))
    /\ (forall p,
          (forall j c, nth_error calls j = Some c -> call_output c = p ->
                       ffmpeg env (i + j) c = Rejects
                       /\ leaves env (i + j) c = None) ->
          lookup p (files w') = lookup p (files w))
    /\ (forall j c size,
          nth_error calls j = Some c ->
          ffmpeg env (i + j) c = Writes size ->
          (forall j' c', j < j' -> nth_error calls j' = Some c' ->
                         call_output c' <> call_output c) ->
          lookup (call_output c) (files w') = Some size)
    /\ (forall j c, nth_error calls j = Some c ->
          S j < List.length calls \/ r <> Throw ->
          exists size, ffmpeg env (i + j) c = Writes size)
    /\ (r = Throw ->
        exists c, nth_error calls (Nat.pred (List.length calls)) = Some c
                  /\ ffmpeg env (i + Nat.pred (List.length calls)) c
                     = Rejects)
    /\ (forall j c size,
          nth_error calls j = Some c ->
          ffmpeg env (i + j) c = Rejects ->
          leaves env (i + j) c = Some size ->
          lookup (call_output c) (files w') = Some size).
Proof.
  unfold loop.
  induction rest as [| factor rest IH]; intros i lastOut vk w r w' Hlen Hrun.
  - cbn in Hrun. inversion Hrun; subst r w'.
    exists []. rewrite app_nil_r. split; [reflexivity |].
    split; [intros [| j] c H; discriminate |].
    split; [reflexivity |].
    split; [intros [| j] c size H; discriminate |].
    split; [intros [| j] c H; discriminate |].
    split; [discriminate | intros [| j] c size H; discriminate].
  - rewrite size_loop_cons in Hrun. cbv zeta in Hrun. rewrite Hlen in Hrun.
    set (out := if Nat.eqb i 0 then firstOut else _) in Hrun.
    set (w1 := if Nat.eqb i 0 then w else tick w) in Hrun.
    set (call := Build_EncodeCall _ _ _ _ _) in Hrun.
    assert (Hw1 : encodes w1 = encodes w /\ files w1 = files w).
    { subst w1. destruct (Nat.eqb i 0); auto. }
    destruct Hw1 as [Hw1 Hf1].
    assert (Hshape :
              call_input call = inputPath
              /\ call_audioKbps call = AUDIO_KBPS cfg
              /\ call_maxWidth call = MAX_WIDTH cfg
              /\ (i + 0 = 0 -> call_output call = firstOut)
              /\ (0 < i + 0 ->
                  exists t,
                    call_output call
                    = in_TMP_DIR (decimal t ++ "_" ++ decimal (Z.of_nat (i + 0))
                                  ++ "_" ++ outName)%string)).
    { rewrite Nat.add_0_r. repeat split.
      - intros ->. reflexivity.
      - intros Hi. exists (Date_now env (ticks w)). cbn [call_output call].
        subst out. destruct i; [lia | reflexivity]. }
    destruct (ffmpeg env i call) as [| size] eqn:Hff.
    + inversion Hrun; subst r w'. exists [call].
      rewrite encodes_left_behind. cbn [encodes log_call].
      rewrite Hw1. split; [reflexivity |].
      split; [intros [| [| j]] c H; try discriminate; inversion H; subst c;
              exact Hshape |].
      split.
      { intros p Hp. destruct (leaves env i call) as [left |] eqn:Hleft;
          cbn [left_behind files put_file log_call]; rewrite Hf1;
          [| reflexivity].
        apply lookup_write_other. intros ->.
        destruct (Hp 0 call eq_refl eq_refl) as [_ C].
        rewrite Nat.add_0_r in C. congruence. }
      split; [intros [| [| j]] c size H Hs; try discriminate;
              inversion H; subst c; rewrite Nat.add_0_r in Hs; congruence |].
      split.
      { intros [| [| j]] c H [Hlt | Hr]; try discriminate;
          [cbn in Hlt; lia | congruence]. }
      split.
      { intros _. exists call. cbn. rewrite Nat.add_0_r. auto. }
      intros [| [| j]] c size H _ Hl; try discriminate.
      inversion H; subst c. rewrite Nat.add_0_r in Hl. rewrite Hl.
      cbn [left_behind files put_file call_output call]. apply lookup_write.
    + destruct (le (of_Z size) (targetBytes cfg)) eqn:Hfit.
      * inversion Hrun; subst r w'. exists [call].
        cbn [encodes log_call put_file files]. rewrite Hw1, Hf1.
        split; [reflexivity |].
        split; [intros [| [| j]] c H; try discriminate; inversion H; subst c;
                exact Hshape |].
        split.
        { intros p Hp. apply lookup_write_other. intros ->.
          destruct (Hp 0 call eq_refl eq_refl) as [Hp0 _].
          rewrite Nat.add_0_r in Hp0. congruence. }
        split.
        { intros [| [| j]] c size' H Hs _; try discriminate.
          inversion H; subst c. rewrite Nat.add_0_r in Hs.
          rewrite Hff in Hs. inversion Hs; subst size'.
          cbn [call_output call]. apply lookup_write. }
        split.
        { intros [| [| j]] c H _; try discriminate. inversion H; subst c.
          exists size. rewrite Nat.add_0_r. exact Hff. }
        split; [discriminate |].
        intros [| [| j]] c size' H Hr; try discriminate.
        inversion H; subst c. rewrite Nat.add_0_r in Hr. congruence.
      * set (w2 := put_file out size (log_call call w1)) in Hrun.
        assert (Hlen2 : List.length (encodes w2) = S i).
        { subst w2. cbn [encodes put_file log_call]. rewrite Hw1, length_app.
          cbn [List.length]. lia. }
        destruct (IH (S i) out _ w2 r w' Hlen2 Hrun)
          as (calls & Hlog & Hsh & Hframe & Hwritten & Hwrote & Hthrow
              & Hleft).
        exists (call :: calls).
        split.
        { rewrite Hlog. subst w2. cbn [encodes put_file log_call].
          rewrite Hw1, <- app_assoc. reflexivity. }
        split.
        { intros [| j] c H.
          - inversion H; subst c. exact Hshape.
          - replace (i + S j) with (S i + j) by lia. apply Hsh. exact H. }
        split.
        { intros p Hp. rewrite Hframe.
          - subst w2. cbn [files put_file log_call]. rewrite Hf1.
            apply lookup_write_other. intros ->.
            destruct (Hp 0 call eq_refl eq_refl) as [Hp0 _].
            rewrite Nat.add_0_r in Hp0. congruence.
          - intros j c Hj Hc.
            replace (S i + j) with (i + S j) by lia. apply (Hp (S j) c Hj Hc). }
        split.
        { intros [| j] c size' H Hs Hlater.
          - inversion H; subst c. rewrite Nat.add_0_r in Hs.
            rewrite Hff in Hs. inversion Hs; subst size'.
            rewrite Hframe.
            + subst w2. cbn [files put_file log_call call_output call].
              apply lookup_write.
            + intros j c Hj Hc. exfalso.
              apply (Hlater (S j) c); [lia | exact Hj | exact Hc].
          - replace (i + S j) with (S i + j) in Hs by lia.
            apply (Hwritten j c size' H Hs).
            intros j' c' Hlt Hj'. apply (Hlater (S j') c'); [lia | exact Hj']. }
        split.
        { intros [| j] c H Hcase.
          - inversion H; subst c. exists size. rewrite Nat.add_0_r. exact Hff.
          - replace (i + S j) with (S i + j) by lia. apply Hwrote; [exact H |].
            destruct Hcase as [Hlt | Hr]; [left; cbn in Hlt; lia | right; exact Hr]. }
        split.
        { intros Hr. destruct (Hthrow Hr) as (c & Hc & Hrej).
          assert (Hne : calls <> []).
          { intros ->. destruct c; discriminate. }
          exists c. destruct calls as [| c' calls']; [congruence |].
          cbn [List.length Nat.pred] in *. split; [exact Hc |].
          replace (i + S (List.length calls')) with (S i + List.length calls') by lia.
          exact Hrej. }
        intros [| j] c size' H Hr Hl.
        { inversion H; subst c. rewrite Nat.add_0_r in Hr. congruence. }
        replace (i + S j) with (S i + j) in Hr, Hl by lia.
        exact (Hleft j c size' H Hr Hl).
Qed.

(** With a first path of the handler's form the paths of the attempts
    are pairwise distinct, whatever the clock returns. *)
Lemma attempt_paths_distinct t0 calls :
  firstOut = in_TMP_DIR (decimal t0 ++ "_" ++ outName)%string ->
  (forall j c, nth_error calls j = Some c ->
     (0 + j = 0 -> call_output c = firstOut)
     /\ (0 < 0 + j ->
         exists t,
           call_output c
           = in_TMP_DIR (decimal t ++ "_" ++ decimal (Z.of_nat (0 + j))
                         ++ "_" ++ outName)%string)) ->
  forall j j' c c',
    nth_error calls j = Some c -> nth_error calls j' = Some c' ->
    call_output c = call_output c' -> j = j'.
Proof.
  intros Hfirst Hsh j j' c c' Hj Hj' E.
  destruct (Hsh j c Hj) as [A B]. destruct (Hsh j' c' Hj') as [A' B'].
  cbn [Nat.add] in *.
  destruct j as [| j], j' as [| j']; [reflexivity | | |].
  - exfalso. destruct (B' ltac:(lia)) as (t & Et).
    rewrite (A eq_refl), Et, Hfirst in E.
    exact (first_path_differs _ _ _ _ E).
  - exfalso. destruct (B ltac:(lia)) as (t & Et).
    rewrite (A' eq_refl), Et, Hfirst in E. symmetry in E.
    exact (first_path_differs _ _ _ _ E).
  - destruct (B ltac:(lia)) as (t & Et). destruct (B' ltac:(lia)) as (t' & Et').
    rewrite Et, Et' in E. apply later_paths_differ in E. lia.
Qed.

(** The first two encoder runs of a schedule of two factors or more. *)
Lemma loop_first_two f0 f1 rest w r w' :
  encodes w = [] ->
  loop (f0 :: f1 :: rest) 0 firstOut initialVideoKbps w = (r, w') ->
  let c0 :=
    {| call_input := inputPath; call_output := firstOut;
       call_videoKbps := initialVideoKbps;
       call_audioKbps := AUDIO_KBPS cfg;
       call_maxWidth := MAX_WIDTH cfg |} in
  (ffmpeg env 0 c0 = Rejects /\ encodes w' = [c0])
  \/ exists size, ffmpeg env 0 c0 = Writes size /\
     ((le (of_Z size) (targetBytes cfg) = true /\ encodes w' = [c0])
      \/ (le (of_Z size) (targetBytes cfg) = false /\
          exists c1 more,
            encodes w' = c0 :: c1 :: more
            /\ call_videoKbps c1
               = Math_max (of_Z 48)
                   (Math_floor (mul initialVideoKbps f1)))).
Proof.
  unfold loop. intros Hlog Hloop. cbv zeta.
  rewrite size_loop_cons in Hloop. cbv zeta in Hloop.
  rewrite Hlog in Hloop.
  cbn [Nat.eqb Nat.ltb Nat.leb List.length] in Hloop.
  set (c0 := Build_EncodeCall _ _ _ _ _) in *.
  destruct (ffmpeg env 0 c0) as [| size] eqn:Hff0.
  { left. inversion Hloop; subst r w'. split; [reflexivity |].
    rewrite encodes_left_behind. cbn [encodes log_call]. rewrite Hlog.
    reflexivity. }
  right. exists size. split; [reflexivity |].
  destruct (le (of_Z size) (targetBytes cfg)) eqn:Hfit.
  { left. inversion Hloop; subst r w'. split; [reflexivity |].
    cbn [encodes log_call put_file]. rewrite Hlog. reflexivity. }
  right. split; [reflexivity |].
  rewrite size_loop_cons in Hloop. cbv zeta in Hloop.
  cbn [Nat.eqb Nat.ltb Nat.leb encodes put_file log_call] in Hloop.
  rewrite Hlog in Hloop. cbn [app List.length] in Hloop.
  set (c1 := Build_EncodeCall _ _ (Math_max _ _) _ _) in *.
  exists c1.
  assert (Hv : call_videoKbps c1
               = Math_max (of_Z 48) (Math_floor (mul initialVideoKbps f1)))
    by reflexivity.
  destruct (ffmpeg env 1 c1) as [| size1] eqn:Hff1.
  { exists []. inversion Hloop; subst r w'. split; [| exact Hv].
    rewrite encodes_left_behind.
    cbn [encodes log_call put_file tick]. rewrite Hlog. reflexivity. }
  destruct (le (of_Z size1) (targetBytes cfg)) eqn:Hfit1.
  { exists []. inversion Hloop; subst r w'. split; [| exact Hv].
    cbn [encodes log_call put_file tick]. rewrite Hlog. reflexivity. }
  match type of Hloop with
  | size_loop ?c ?e ?ip ?on ?fo ?init ?fs _ ?lo ?vk ?w0 = _ =>
      destruct (loop_inv c e ip on fo init fs [f0; f1] lo vk w0 _ _
                  ltac:(cbn [encodes log_call put_file tick];
                        rewrite Hlog; reflexivity)
                  ltac:(discriminate) Hloop)
        as (calls & Hcalls & _)
  end.
  exists calls. split; [| exact Hv].
  rewrite Hcalls. cbn [encodes log_call put_file tick]. rewrite Hlog.
  reflexivity.
Qed.

End Loop.

Lemma between_digit_permitted c :
  between "0" "9" c = true -> permitted c = true.
Proof.
  intros H. unfold permitted, word_char. rewrite H.
  rewrite !Bool.orb_true_r. reflexivity.
Qed.

Lemma decimal_permitted z :
  Forall (fun c => permitted c = true) (chars (decimal z)).
Proof.
  apply Forall_forall. intros c H.
  destruct (decimal_chars z c H) as [D | ->];
    [apply between_digit_permitted, D | reflexivity].
Qed.

(** The loop as the handlers of [server.js] start it: no encoder run yet,
    index 0, the first path stamped with the clock. *)
Lemma loop_summary cfg env ip outName t0 init schedule w r w1 :
  encodes w = [] ->
  Forall (fun c => permitted c = true) (chars outName) ->
  size_loop cfg env ip outName
    (in_TMP_DIR (decimal t0 ++ "_" ++ outName)%string) init schedule 0
    (in_TMP_DIR (decimal t0 ++ "_" ++ outName)%string) init w = (r, w1) ->
  NoDup (outputs w1)
  /\ (forall k c, nth_error (encodes w1) k = Some c ->
        call_input c = ip
        /\ call_audioKbps c = AUDIO_KBPS cfg
        /\ call_maxWidth c = MAX_WIDTH cfg
        /\ (k = 0 ->
            call_output c = in_TMP_DIR (decimal t0 ++ "_" ++ outName)%string)
        /\ exists name,
             call_output c = in_TMP_DIR name
             /\ Forall (fun x => permitted x = true) (chars name)
             /\ In "_"%char (chars (call_output c)))
  /\ (forall p,
        (forall k c, nth_error (encodes w1) k = Some c -> call_output c = p ->
                     ffmpeg env k c = Rejects /\ leaves env k c = None) ->
        lookup p (files w1) = lookup p (files w))
  /\ (forall k c size,
        nth_error (encodes w1) k = Some c -> ffmpeg env k c = Writes size ->
        lookup (call_output c) (files w1) = Some size)
  /\ (forall k c, nth_error (encodes w1) k = Some c ->
        S k < List.length (encodes w1) \/ r <> Throw ->
        exists size, ffmpeg env k c = Writes size)
  /\ (r = Throw ->
      exists c,
        nth_error (encodes w1) (Nat.pred (List.length (encodes w1))) = Some c
        /\ ffmpeg env (Nat.pred (List.length (encodes w1))) c = Rejects)
  /\ (forall out, r = Normal out -> schedule <> [] ->
      exists c,
        nth_error (encodes w1) (Nat.pred (List.length (encodes w1))) = Some c
        /\ out = call_output c)
  /\ (forall j j' c c',
        nth_error (encodes w1) j = Some c ->
        nth_error (encodes w1) j' = Some c' ->
        call_output c = call_output c' -> j = j')
  /\ (forall k c size,
        nth_error (encodes w1) k = Some c -> ffmpeg env k c = Rejects ->
        leaves env k c = Some size ->
        lookup (call_output c) (files w1) = Some size).
Proof.
  intros Hlog Hname Hrun.
  assert (Hlast : forall out, r = Normal out -> schedule <> [] ->
            exists c,
              nth_error (encodes w1) (Nat.pred (List.length (encodes w1)))
              = Some c /\ out = call_output c).
  { intros out -> Hne.
    destruct (loop_returns_last _ _ _ _ _ _ _ _ _ _ _ _ _ Hrun)
      as [(C & _) | (_ & H)]; [contradiction | exact H]. }
  destruct (loop_trace cfg env ip outName _ init schedule 0 _ init w r w1
              ltac:(rewrite Hlog; reflexivity) Hrun)
    as (calls & Hcalls & Hsh & Hframe & Hwritten & Hwrote & Hthrow & Hleft).
  rewrite Hlog in Hcalls. cbn [app] in Hcalls. rewrite Hcalls.
  assert (Hdistinct : forall j j' c c',
             nth_error calls j = Some c -> nth_error calls j' = Some c' ->
             call_output c = call_output c' -> j = j').
  { apply (attempt_paths_distinct outName _ t0 calls eq_refl).
    intros j c Hj. destruct (Hsh j c Hj) as (_ & _ & _ & A & B). auto. }
  split.
  { unfold outputs. rewrite Hcalls. apply NoDup_nth_error.
    intros j j' Hlt E. rewrite length_map in Hlt.
    rewrite !nth_error_map in E.
    destruct (nth_error calls j) as [c |] eqn:Hj;
      [| apply nth_error_None in Hj; lia].
    destruct (nth_error calls j') as [c' |] eqn:Hj'; [| discriminate].
    cbn [option_map] in E. inversion E.
    eapply Hdistinct; eassumption. }
  split.
  { intros k c Hk. destruct (Hsh k c Hk) as (A & B & C & D & E).
    cbn [Nat.add] in D, E.
    split; [exact A |]. split; [exact B |]. split; [exact C |].
    split; [exact D |].
    destruct k as [| k].
    - rewrite (D eq_refl). eexists. split; [reflexivity |]. split.
      + rewrite !chars_app. apply Forall_app. split; [apply decimal_permitted |].
        apply Forall_app. split; [| exact Hname].
        repeat constructor.
      + apply stamped_has_underscore.
    - destruct (E ltac:(lia)) as (t & Et). rewrite Et.
      eexists. split; [reflexivity |]. split.
      + rewrite !chars_app. apply Forall_app. split; [apply decimal_permitted |].
        apply Forall_app. split; [repeat constructor |].
        apply Forall_app. split; [apply decimal_permitted |].
        apply Forall_app. split; [repeat constructor | exact Hname].
      + apply stamped_has_underscore. }
  split; [exact Hframe |].
  split.
  { intros k c size Hk Hs. apply (Hwritten k c size Hk Hs).
    intros j' c' Hlt Hj' E. symmetry in E.
    pose proof (Hdistinct _ _ _ _ Hk Hj' E). lia. }
  split; [exact Hwrote |]. split; [exact Hthrow |].
  split; [rewrite <- Hcalls; exact Hlast |].
  split; [exact Hdistinct | exact Hleft].
Qed.


End TraceFacts.

(** ** Requests to the earlier revision, case by case *)
Module RequestFacts.
Import JS Names Host Server NamesFacts LoopFacts HandlerFacts.
Import StringFacts DiskFacts TraceFacts.
Local Open Scope string_scope.
Local Open Scope list_scope.

Lemma outName_permitted o :
  Forall (fun c => permitted c = true) (chars (outName o)).
Proof.
  unfold outName. rewrite !chars_app. apply Forall_app. split.
  - repeat constructor.
  - apply Forall_app. split; [| repeat constructor].
    apply Forall_forall. intros c H. apply strip_ext_chars in H.
    eapply strip_permitted. exact H.
Qed.

Section Legacy.

Variable cfg : Config.
Variable env : Env.

(** The ways a request to the earlier revision ends, with the world each
    leaves. *)
Lemma legacy_cases req w r w' :
  encodes w = [] ->
  Legacy.upload cfg env req w = (r, w') ->
  (file req = None /\ r = Throw /\ w' = w)
  \/ exists f, file req = Some f /\ r = Normal tt /\
     let ip := path f in
     let outName := outName (originalname f) in
     let out0 :=
       in_TMP_DIR (decimal (Date_now env (ticks w)) ++ "_" ++ outName)%string in
     let fail := fun x =>
       with_res (with_text 500 Legacy.message_500 (res x))
         (add_timer [Some ip; Some out0] 10000 x) in
     ((ffprobe env ip = None \/ ffprobe env ip = Some {| format := None |})
      /\ w' = fail (tick w))
     \/ exists d,
          ffprobe env ip = Some {| format := Some {| duration := d |} |} /\
          let v0 :=
            Legacy.videoKbps cfg (Legacy.totalKbps cfg (Legacy.duration d)) in
          let c0 :=
            {| call_input := ip; call_output := out0; call_videoKbps := v0;
               call_audioKbps := AUDIO_KBPS cfg;
               call_maxWidth := MAX_WIDTH cfg |} in
          (ffmpeg env 0 c0 = Rejects
           /\ w' = fail (left_behind out0 (leaves env 0 c0)
                           (log_call c0 (tick w))))
          \/ exists size,
               ffmpeg env 0 c0 = Writes size /\
               let w1 := put_file out0 size (log_call c0 (tick w)) in
               (gt (of_Z size) (targetBytes cfg) = false
                /\ w' = add_timer [Some ip; Some out0] 10000
                          (with_res
                             (with_pipe out0
                                (with_download_headers outName (res w)))
                             w1))
               \/ gt (of_Z size) (targetBytes cfg) = true /\
                  let out1 :=
                    in_TMP_DIR (decimal (Date_now env (S (ticks w)))
                                ++ "_retry_" ++ outName)%string in
                  let c1 :=
                    {| call_input := ip; call_output := out1;
                       call_videoKbps := Legacy.retryKbps v0;
                       call_audioKbps := AUDIO_KBPS cfg;
                       call_maxWidth := MAX_WIDTH cfg |} in
                  (ffmpeg env 1 c1 = Rejects
                   /\ w' = fail (left_behind out1 (leaves env 1 c1)
                                   (log_call c1 (tick w1))))
                  \/ exists size',
                       ffmpeg env 1 c1 = Writes size' /\
                       w' = add_timer [Some ip; Some out1] 10000
                              (with_res
                                 (with_pipe out1
                                    (with_download_headers outName (res w)))
                                 (drop_file out0
                                    (put_file out1 size'
                                       (log_call c1 (tick w1))))).
Proof.
  intros Hlog. unfold Legacy.upload. destruct (file req) as [f |] eqn:Hfile.
  - run_handler. unfold encode. intros Hrun. right. exists f.
    split; [reflexivity |]. cbv zeta.
    set (outName := outName (originalname f)) in *.
    set (out0 := in_TMP_DIR (decimal (Date_now env (ticks w)) ++ "_" ++ outName)%string) in *.
    destruct (ffprobe env (path f)) as [[[[d] |]] |] eqn:Hprobe.
    + cbn [format Host.duration encodes tick] in Hrun. rewrite Hlog in Hrun.
      cbn [List.length] in Hrun.
      set (v0 := Legacy.videoKbps cfg _) in *.
      set (c0 := Build_EncodeCall _ _ _ _ _) in *.
      destruct (ffmpeg env 0 c0) as [| size] eqn:Hff.
      * inversion Hrun; subst r w'. split; [reflexivity |].
        right. exists d. split; [reflexivity |]. left.
        split; [exact Hff | reflexivity].
      * cbn [files put_file log_call tick] in Hrun.
        rewrite lookup_write in Hrun.
        destruct (gt (of_Z size) (targetBytes cfg)) eqn:Hgt.
        -- cbn [encodes put_file log_call tick ticks] in Hrun.
           rewrite Hlog in Hrun. cbn [app List.length] in Hrun.
           set (out1 := in_TMP_DIR (decimal (Date_now env (S (ticks w))) ++ "_retry_" ++ outName)%string) in *.
           set (c1 := Build_EncodeCall (path f) out1 _ _ _) in *.
           destruct (ffmpeg env 1 c1) as [| size'] eqn:Hff1.
           ++ inversion Hrun; subst r w'. split; [reflexivity |].
              right. exists d. split; [reflexivity |]. right. exists size.
              split; [exact Hff |]. right. split; [exact Hgt |].
              left. split; [exact Hff1 | reflexivity].
           ++ cbn [files put_file log_call tick drop_file] in Hrun.
              assert (Hne : out1 <> out0).
              { intros E. symmetry in E. revert E. apply retry_path_differs. }
              rewrite (lookup_remove_other out1 out0) in Hrun by exact Hne.
              rewrite lookup_write in Hrun.
              unfold exists_file in Hrun.
              cbn [files with_res drop_file put_file log_call tick] in Hrun.
              rewrite (lookup_remove_other out1 out0) in Hrun by exact Hne.
              rewrite lookup_write in Hrun.
              inversion Hrun; subst r w'. split; [reflexivity |].
              right. exists d. split; [reflexivity |]. right. exists size.
              split; [exact Hff |]. right. split; [exact Hgt |].
              right. exists size'. split; [exact Hff1 | reflexivity].
        -- unfold exists_file in Hrun.
           cbn [files with_res put_file log_call tick] in Hrun.
           rewrite lookup_write in Hrun.
           inversion Hrun; subst r w'. split; [reflexivity |].
           right. exists d. split; [reflexivity |]. right. exists size.
           split; [exact Hff |]. left. split; [exact Hgt | reflexivity].
    + inversion Hrun; subst r w'. split; [reflexivity |]. left.
      split; [right; reflexivity | reflexivity].
    + inversion Hrun; subst r w'. split; [reflexivity |]. left.
      split; [left; reflexivity | reflexivity].
  - unfold throw. intros H; inversion H; subst. left. auto.
Qed.

End Legacy.

Section ServerJs.

Variable cfg : Config.
Variable env : Env.

(** The two revisions of [server.js] on a fresh request: how each ends,
    the run of the loop behind it, and the paths it schedules. *)
Lemma server_js_cases rev req uploads r w' :
  rev <> Revisions.Earlier ->
  Revisions.upload rev cfg env req (start uploads) = (r, w') ->
  r = Normal tt /\
  ((inputPath_of req = None /\
    w' = with_res (with_text 400 message_400 fresh_res) (start uploads))
   \/ exists f ip, inputPath_of req = Some (f, ip) /\
      let outName := outName (originalname f) in
      let firstOut :=
        in_TMP_DIR (decimal (Date_now env 0) ++ "_" ++ outName)%string in
      let on_failure :=
        match rev with
        | Revisions.Second => [Some ip]
        | _ => [Some ip; Some firstOut]
        end in
      ((ffprobe env ip = None /\
        w' = with_res (with_text 500 message_500 fresh_res)
               (add_timer on_failure 12000 (tick (start uploads))))
       \/ exists init schedule r1 w1,
            size_loop cfg env ip outName firstOut init schedule 0
              firstOut init (tick (start uploads)) = (r1, w1)
            /\ res w1 = fresh_res /\ timers w1 = [] /\ schedule <> []
            /\ ((r1 = Throw /\
                 w' = with_res (with_text 500 message_500 fresh_res)
                        (add_timer on_failure 12000 w1))
                \/ exists out,
                     r1 = Normal out /\ exists_file out w1 = true /\
                     w' = add_timer
                            match rev with
                            | Revisions.Second => [Some ip; Some out]
                            | _ =>
                                [Some ip;
                                 if String.eqb firstOut out then None
                                 else Some firstOut;
                                 Some out]
                            end 12000
                            (with_res
                               (with_pipe out
                                  (with_download_headers outName fresh_res))
                               w1)))).
Proof.
  intros Hrev Hrun. destruct rev; [| | congruence]; cbn [Revisions.upload] in Hrun.
  - destruct (simple_cases cfg env req _ r w' Hrun) as [Hr H].
    split; [exact Hr |].
    destruct H as [[Hreq ->] | (f & ip & Hreq & H)]; [left; auto |].
    right. exists f, ip. split; [exact Hreq |]. cbv zeta in H |- *.
    cbn [ticks start] in H.
    destruct H as [[Hp ->] | (meta & _ & [(w1 & Hloop & ->) | (out & w1 & Hloop & Hex & ->)])].
    + left. auto.
    + right. destruct (loop_frame _ _ _ _ _ _ _ _ _ _ _ _ _ Hloop) as [Hres Htim].
      cbn [res timers tick start] in Hres, Htim.
      do 4 eexists. split; [exact Hloop |]. split; [exact Hres |].
      split; [exact Htim |]. split; [discriminate |]. left. split; [reflexivity |].
      rewrite Hres. reflexivity.
    + right. destruct (loop_frame _ _ _ _ _ _ _ _ _ _ _ _ _ Hloop) as [Hres Htim].
      cbn [res timers tick start] in Hres, Htim.
      do 4 eexists. split; [exact Hloop |]. split; [exact Hres |].
      split; [exact Htim |]. split; [discriminate |]. right. exists out. split; [reflexivity |].
      split; [exact Hex |]. rewrite Hres. reflexivity.
  - destruct (queued_cases cfg env req _ r w' Hrun) as [Hr H].
    split; [exact Hr |].
    destruct H as [[Hreq ->] | (f & ip & Hreq & H)]; [left; auto |].
    right. exists f, ip. split; [exact Hreq |]. cbv zeta in H |- *.
    cbn [ticks start] in H.
    destruct H as [[Hp ->] | (meta & _ & [(w1 & Hloop & ->) | (out & w1 & Hloop & Hex & ->)])].
    + left. auto.
    + right. destruct (loop_frame _ _ _ _ _ _ _ _ _ _ _ _ _ Hloop) as [Hres Htim].
      cbn [res timers tick start] in Hres, Htim.
      do 4 eexists. split; [exact Hloop |]. split; [exact Hres |].
      split; [exact Htim |]. split; [discriminate |]. left. split; [reflexivity |].
      rewrite Hres. reflexivity.
    + right. destruct (loop_frame _ _ _ _ _ _ _ _ _ _ _ _ _ Hloop) as [Hres Htim].
      cbn [res timers tick start] in Hres, Htim.
      do 4 eexists. split; [exact Hloop |]. split; [exact Hres |].
      split; [exact Htim |]. split; [discriminate |]. right. exists out. split; [reflexivity |].
      split; [exact Hex |]. rewrite Hres. reflexivity.
Qed.

End ServerJs.

Section FirstTwo.

Variable cfg : Config.
Variable env : Env.

(** The first two encoder runs of the first revision of [server.js]. *)
Lemma simple_first_two req uploads f r w' :
  file req = Some f ->
  path f <> EmptyString ->
  Simple.upload cfg env req (start uploads) = (r, w') ->
  let out0 :=
    in_TMP_DIR (decimal (Date_now env 0) ++ "_"
                ++ outName (originalname f))%string in
  (ffprobe env (path f) = None /\ encodes w' = [])
  \/ exists meta, ffprobe env (path f) = Some meta /\
     let v0 :=
       Simple.initialVideoKbps cfg
         (Simple.totalKbps cfg (Simple.duration meta)) in
     let c0 :=
       {| call_input := path f; call_output := out0; call_videoKbps := v0;
          call_audioKbps := AUDIO_KBPS cfg;
          call_maxWidth := MAX_WIDTH cfg |} in
     (ffmpeg env 0 c0 = Rejects /\ encodes w' = [c0])
     \/ exists size, ffmpeg env 0 c0 = Writes size /\
        ((le (of_Z size) (targetBytes cfg) = true /\ encodes w' = [c0])
         \/ (le (of_Z size) (targetBytes cfg) = false /\
             exists c1 more,
               encodes w' = c0 :: c1 :: more
               /\ call_videoKbps c1
                  = Math_max (of_Z 48)
                      (Math_floor (mul v0 (literal (85 # 100)))))).
Proof.
  intros Hf Hpath Hrun. cbv zeta.
  destruct (simple_cases cfg env req _ r w' Hrun)
    as [_ [[Hreq _] | (f0 & ip & Hreq & H)]].
  { destruct (inputPath_of_None req Hreq) as [C | (g & C1 & C2)];
      congruence. }
  destruct (inputPath_of_Some req f0 ip Hreq) as (Hf0 & -> & _).
  assert (f0 = f) by congruence. subst f0. cbv zeta in H.
  cbn [ticks start] in H.
  destruct H as [[Hp ->] | (meta & Hp & H)]; [left; auto |].
  right. exists meta. split; [exact Hp |].
  assert (Hl : exists r1 w1,
             encodes w' = encodes w1 /\
             size_loop cfg env (path f) (outName (originalname f))
               (in_TMP_DIR (decimal (Date_now env 0) ++ "_"
                            ++ outName (originalname f))%string)
               (Simple.initialVideoKbps cfg
                  (Simple.totalKbps cfg (Simple.duration meta)))
               Simple.passes 0
               (in_TMP_DIR (decimal (Date_now env 0) ++ "_"
                            ++ outName (originalname f))%string)
               (Simple.initialVideoKbps cfg
                  (Simple.totalKbps cfg (Simple.duration meta)))
               (tick (start uploads)) = (r1, w1)).
  { destruct H as [(w1 & Hloop & ->) | (out & w1 & Hloop & _ & ->)];
      do 2 eexists; (split; [| exact Hloop]); reflexivity. }
  destruct Hl as (r1 & w1 & -> & Hloop). clear H.
  exact (loop_first_two cfg env (path f) (outName (originalname f)) _ _
           (literal 1) (literal (85 # 100)) [literal (72 # 100)]
           (tick (start uploads)) r1 w1 eq_refl Hloop).
Qed.

End FirstTwo.

Section Bitrates.

Variable cfg : Config.
Variable env : Env.

(** The bitrate of every encoder run of a request, by revision. *)
Lemma request_bitrates rev req uploads r w' k c :
  Revisions.upload rev cfg env req (start uploads) = (r, w') ->
  nth_error (encodes w') k = Some c ->
  exists f meta,
    file req = Some f /\ ffprobe env (path f) = Some meta /\
    let dur := Queued.duration meta in
    match rev with
    | Revisions.First =>
        (k < 3)%nat
        /\ call_videoKbps c
           = Spec.videoKbpsNow
               (Simple.initialVideoKbps cfg (Simple.totalKbps cfg dur))
               Simple.passes k
    | Revisions.Second =>
        (k < 4)%nat
        /\ call_videoKbps c
           = Spec.videoKbpsNow
               (Queued.initialVideoKbps cfg (Queued.totalKbps cfg dur))
               Queued.factors k
    | Revisions.Earlier =>
        (k = 0%nat
         /\ call_videoKbps c
            = Legacy.videoKbps cfg (Legacy.totalKbps cfg dur))
        \/ (k = 1%nat
            /\ call_videoKbps c
               = Legacy.retryKbps
                   (Legacy.videoKbps cfg (Legacy.totalKbps cfg dur)))
    end.
Proof.
  intros Hrun Hk. destruct rev; cbn [Revisions.upload] in Hrun.
  - destruct (simple_cases cfg env req _ r w' Hrun)
      as [_ [[_ ->] | (f & ip & Hreq & H)]]; [destruct k; discriminate Hk |].
    destruct (inputPath_of_Some req f ip Hreq) as (Hfile & -> & _).
    cbv zeta in H.
    destruct H as [[_ ->] | (meta & Hmeta & H)];
      [destruct k; discriminate Hk |].
    exists f, meta. split; [exact Hfile |]. split; [exact Hmeta |].
    cbv zeta.
    assert (Hl : exists r1 w1,
               encodes w' = encodes w1 /\
               size_loop cfg env (path f) (outName (originalname f))
                 (in_TMP_DIR (decimal (Date_now env (ticks (start uploads)))
                              ++ "_" ++ outName (originalname f))%string)
                 (Simple.initialVideoKbps cfg
                    (Simple.totalKbps cfg (Simple.duration meta)))
                 Simple.passes 0
                 (in_TMP_DIR (decimal (Date_now env (ticks (start uploads)))
                              ++ "_" ++ outName (originalname f))%string)
                 (Simple.initialVideoKbps cfg
                    (Simple.totalKbps cfg (Simple.duration meta)))
                 (tick (start uploads)) = (r1, w1)).
    { destruct H as [(w1 & Hloop & ->) | (out & w1 & Hloop & _ & ->)];
        do 2 eexists; (split; [| exact Hloop]); reflexivity. }
    destruct Hl as (r1 & w1 & Henc & Hloop). rewrite Henc in Hk.
    match type of Hloop with
    | size_loop ?c0 ?e ?ip ?on ?fo ?init ?fs _ ?lo ?vk ?w0 = _ =>
        destruct (loop_inv c0 e ip on fo init fs [] lo vk w0 _ _
                    eq_refl (fun _ => eq_refl) Hloop)
          as (calls & Hcalls & Hlen & Hall)
    end.
    cbn [encodes tick start app List.length] in Hcalls, Hlen.
    rewrite Hcalls in Hk. destruct (Hall k c Hk) as (Hv & _).
    split; [| exact Hv].
    assert (k < List.length calls)%nat by (apply nth_error_Some; congruence).
    cbn [List.length Simple.passes] in Hlen. lia.
  - destruct (queued_cases cfg env req _ r w' Hrun)
      as [_ [[_ ->] | (f & ip & Hreq & H)]]; [destruct k; discriminate Hk |].
    destruct (inputPath_of_Some req f ip Hreq) as (Hfile & -> & _).
    cbv zeta in H.
    destruct H as [[_ ->] | (meta & Hmeta & H)];
      [destruct k; discriminate Hk |].
    exists f, meta. split; [exact Hfile |]. split; [exact Hmeta |].
    cbv zeta.
    assert (Hl : exists r1 w1,
               encodes w' = encodes w1 /\
               size_loop cfg env (path f) (outName (originalname f))
                 (in_TMP_DIR (decimal (Date_now env (ticks (start uploads)))
                              ++ "_" ++ outName (originalname f))%string)
                 (Queued.initialVideoKbps cfg
                    (Queued.totalKbps cfg (Queued.duration meta)))
                 Queued.factors 0
                 (in_TMP_DIR (decimal (Date_now env (ticks (start uploads)))
                              ++ "_" ++ outName (originalname f))%string)
                 (Queued.initialVideoKbps cfg
                    (Queued.totalKbps cfg (Queued.duration meta)))
                 (tick (start uploads)) = (r1, w1)).
    { destruct H as [(w1 & Hloop & ->) | (out & w1 & Hloop & _ & ->)];
        do 2 eexists; (split; [| exact Hloop]); reflexivity. }
    destruct Hl as (r1 & w1 & Henc & Hloop). rewrite Henc in Hk.
    match type of Hloop with
    | size_loop ?c0 ?e ?ip ?on ?fo ?init ?fs _ ?lo ?vk ?w0 = _ =>
        destruct (loop_inv c0 e ip on fo init fs [] lo vk w0 _ _
                    eq_refl (fun _ => eq_refl) Hloop)
          as (calls & Hcalls & Hlen & Hall)
    end.
    cbn [encodes tick start app List.length] in Hcalls, Hlen.
    rewrite Hcalls in Hk. destruct (Hall k c Hk) as (Hv & _).
    split; [| exact Hv].
    assert (k < List.length calls)%nat by (apply nth_error_Some; congruence).
    cbn [List.length Queued.factors] in Hlen. lia.
  - destruct (legacy_cases cfg env req (start uploads) r w' eq_refl Hrun)
      as [(_ & _ & ->) | (f & Hfile & _ & H)];
      [destruct k; discriminate Hk |].
    cbv zeta in H.
    destruct H as [[_ ->] | (d & Hmeta & H)];
      [destruct k; discriminate Hk |].
    exists f, {| format := Some {| duration := d |} |}.
    split; [exact Hfile |]. split; [exact Hmeta |].
    cbv zeta. unfold Legacy.duration in H.
    unfold Queued.duration, format_duration. cbn [format duration].
    set (v0 := Legacy.videoKbps cfg _) in *.
    destruct H as [[_ ->] | (size & _ & [[_ ->] | [_ [[_ ->] | (size' & _ & ->)]]])];
      cbn [encodes add_timer with_res] in Hk;
      rewrite ?encodes_left_behind in Hk;
      cbn [encodes add_timer with_res log_call put_file drop_file tick
             start app] in Hk;
      (destruct k as [| [| k]]; cbn [nth_error] in Hk;
       try discriminate Hk; try (destruct k; discriminate Hk);
       inversion Hk; subst c; clear Hk; cbn [call_videoKbps];
       first [left; split; [reflexivity | reflexivity]
             | right; split; [reflexivity | reflexivity]]).
Qed.

End Bitrates.

End RequestFacts.

(** ** Integers, the planner in the duration, and the rate options *)
Module IntegerFacts.
Import JS Rounding NumberFacts PlannerFacts.
Local Open Scope Q_scope.

(** Every integer below [2^53] is a binary64 value. *)
Lemma representable_integer z :
  (0 <= z < 2 ^ 53)%Z -> rn (inject_Z z) == inject_Z z.
Proof.
  intros Hz. assert (E : inject_Z z == inject_Z z * 2 ^ 0).
  { change (2 ^ 0) with 1. symmetry. apply Qmult_1_r. }
  rewrite (rn_comp _ _ E), rn_exact by lia. symmetry. exact E.
Qed.

Lemma floor_rn_integer z :
  (0 <= z < 2 ^ 53)%Z -> Qfloor (rn (inject_Z z)) = z.
Proof.
  intros H. rewrite (Qfloor_comp _ _ (representable_integer z H)).
  apply Qfloor_Z.
Qed.

(** [Math.max(1, d || 1)] for a finite reading [d] is [max(1, d)]. *)
Lemma duration_value d :
  exists q,
    Math_max (of_Z 1) (ToNumber (or_else (Num (Fin d)) (of_Z 1))) = Fin q
    /\ 1 <= q /\ d <= q /\ (1 <= d -> q = d).
Proof.
  cbn [or_else truthy]. destruct (Qeq_bool d 0) eqn:E0; cbn [negb ToNumber].
  - apply Qeq_bool_iff in E0. exists (inject_Z 1).
    split; [reflexivity |]. change (inject_Z 1) with 1.
    split; [lra |]. split; [lra |]. intros H. exfalso. lra.
  - unfold of_Z. rewrite Math_max_Fin. change (inject_Z 1) with 1.
    destruct (Qle_bool 1 d) eqn:E.
    + apply Qle_bool_iff in E. exists d. repeat split; auto; lra.
    + exists 1. split; [reflexivity |].
      assert (L : d < 1) by (apply Qle_bool_false, E).
      split; [lra |]. split; [lra |]. intros H. exfalso. lra.
Qed.

Lemma duration_mono d1 d2 :
  d1 <= d2 ->
  exists q1 q2,
    Math_max (of_Z 1) (ToNumber (or_else (Num (Fin d1)) (of_Z 1))) = Fin q1
    /\ Math_max (of_Z 1) (ToNumber (or_else (Num (Fin d2)) (of_Z 1)))
       = Fin q2
    /\ 1 <= q1 /\ q1 <= q2.
Proof.
  intros H.
  destruct (duration_value d1) as (q1 & E1 & A1 & B1 & C1).
  destruct (duration_value d2) as (q2 & E2 & A2 & B2 & C2).
  exists q1, q2. split; [exact E1 |]. split; [exact E2 |]. split; [exact A1 |].
  destruct (Qlt_le_dec d1 1) as [L | L].
  - (* q1 = 1 *)
    assert (Q1 : q1 == 1).
    { revert E1. cbn [or_else truthy].
      destruct (Qeq_bool d1 0); cbn [negb ToNumber].
      - intros E; inversion E. reflexivity.
      - unfold of_Z. rewrite Math_max_Fin. change (inject_Z 1) with 1.
        destruct (Qle_bool 1 d1) eqn:E; [apply Qle_bool_iff in E; lra |].
        intros E'; inversion E'. reflexivity. }
    lra.
  - rewrite (C1 L). lra.
Qed.

(** A longer clip is never planned a higher bitrate, whatever the target,
    as long as it is not negative. *)
Lemma plan_antitone ft fv d1 d2 target a :
  le (Fin 0) target = true -> 1 <= d1 -> d1 <= d2 ->
  le (Spec.plan (of_Z ft) (of_Z fv) (Fin d2) target (Fin a))
     (Spec.plan (of_Z ft) (of_Z fv) (Fin d1) target (Fin a)) = true.
Proof.
  intros Ht H1 H12. unfold Spec.plan, Spec.totalKbps.
  apply Math_max_mono; [discriminate |]. apply sub_mono.
  apply Math_max_mono; [discriminate |]. apply Math_floor_mono.
  unfold of_Z at 2 4. apply div_mono; [reflexivity |].
  apply div_antitone; [| lra | exact H12].
  unfold of_Z. apply mul_nonneg; [exact Ht | reflexivity].
Qed.

(** Rounding an integer gives an integer. *)
Lemma rn_pos_integer z :
  (0 < z)%Z -> exists z', rn (inject_Z z) == inject_Z z'.
Proof.
  intros Hz.
  assert (Hq : 0 < inject_Z z).
  { change 0 with (inject_Z 0). rewrite <- Zlt_Qlt. exact Hz. }
  destruct (Z_lt_le_dec (ilog2 (inject_Z z) - 52) 0) as [Hneg | Hpos].
  - exists z. apply representable_integer. split; [lia |].
    destruct (ilog2_spec _ Hq) as [_ Hhi].
    assert (Hle : 2 ^ (ilog2 (inject_Z z) + 1) <= 2 ^ 53)
      by (apply pow2_le; lia).
    pose proof (pow2_Z 53 ltac:(lia)) as P53.
    rewrite Zlt_Qlt.
    apply Qlt_le_trans with (2 ^ (ilog2 (inject_Z z) + 1)); [exact Hhi |].
    apply Qle_trans with (2 ^ 53); [exact Hle |].
    rewrite P53. apply Qle_refl.
  - assert (G : grid (inject_Z z) = (ilog2 (inject_Z z) - 52)%Z)
      by (unfold grid; lia).
    exists (round_half_even
              (inject_Z z / 2 ^ (ilog2 (inject_Z z) - 52))
            * 2 ^ (ilog2 (inject_Z z) - 52))%Z.
    rewrite (rn_of_pos _ Hq). unfold rn_pos, round_to. rewrite G.
    rewrite inject_Z_mult, pow2_Z by exact Hpos. reflexivity.
Qed.

Lemma rn_integer_eq z : exists z', rn (inject_Z z) == inject_Z z'.
Proof.
  destruct (Z.lt_trichotomy z 0) as [Hneg | [-> | Hpos]].
  - destruct (rn_pos_integer (- z) ltac:(lia)) as (z' & E).
    exists (- z')%Z.
    assert (E' : inject_Z z == - inject_Z (- z))
      by (rewrite inject_Z_opp; ring).
    rewrite (rn_comp _ _ E'), rn_opp, E, inject_Z_opp. reflexivity.
  - exists 0%Z. reflexivity.
  - apply rn_pos_integer, Hpos.
Qed.

Lemma rn_reduced q : Qred (rn q) = rn q.
Proof.
  unfold rn. destruct (q ?= 0); [reflexivity | |];
    apply Qred_complete, Qred_correct.
Qed.

Lemma rn_integer z : exists z', rn (inject_Z z) = inject_Z z'.
Proof.
  destruct (rn_integer_eq z) as (z' & E). exists z'.
  rewrite <- rn_reduced. rewrite (Qred_complete _ _ E).
  unfold inject_Z, Qred. cbn [Qnum Qden].
  pose proof (Z.ggcd_correct_divisors z' 1) as D.
  pose proof (Z.ggcd_gcd z' 1) as G.
  destruct (Z.ggcd z' 1) as [g [aa bb]]. cbn [fst snd] in *.
  rewrite Z.gcd_1_r in G. subst g. destruct D as [D1 D2].
  rewrite Z.mul_1_l in D1, D2. subst aa bb. reflexivity.
Qed.

(** The floor of a rational between [-2^k] and [2^k] lies there too. *)
Lemma floor_bound q k :
  (0 <= k)%Z -> - 2 ^ k <= q -> q <= 2 ^ k ->
  - 2 ^ k <= inject_Z (Qfloor q) /\ inject_Z (Qfloor q) <= 2 ^ k.
Proof.
  intros Hk Lo Hi. pose proof (pow2_Z k Hk) as PZ. split.
  - rewrite <- PZ, <- inject_Z_opp, <- Zle_Qle.
    rewrite <- (Qfloor_Z (- 2 ^ k)). apply Qfloor_resp_le.
    rewrite inject_Z_opp, PZ. exact Lo.
  - eapply Qle_trans; [apply Qfloor_le | exact Hi].
Qed.

(** With a finite duration, a target of at most [2^1020] bytes and an
    audio bitrate of at most [2^1000], both whole numbers, the planner
    yields a whole number at or above its floor. *)
Lemma plan_integer ft fv d tb a :
  1 <= d ->
  - 2 ^ 1020 <= inject_Z tb -> inject_Z tb <= 2 ^ 1020 ->
  - 2 ^ 1000 <= inject_Z a -> inject_Z a <= 2 ^ 1000 ->
  (0 <= ft <= 1000)%Z -> (0 <= fv <= 1000)%Z ->
  exists z,
    Spec.plan (of_Z ft) (of_Z fv) (Fin d) (of_Z tb) (of_Z a) = of_Z z
    /\ (fv <= z)%Z /\ inject_Z z <= 2 ^ 1015.
Proof.
  intros Hd Ltb Utb La Ua Hft Hfv. unfold Spec.plan.
  destruct (totalKbps_value ft d (inject_Z tb) Hd Ltb Utb) as (E & Lr & Ur).
  unfold of_Z at 3. rewrite E. clear E.
  set (r := rn (rn (rn (inject_Z tb * inject_Z 8) / d) / inject_Z 1000)) in *.
  destruct (floor_bound r 1014 ltac:(lia) Lr Ur) as [Lf Uf].
  set (fl := Qfloor r) in *.
  assert (K : inject_Z 1000 <= 2 ^ 1014).
  { apply Qle_trans with (2 ^ 10); [vm_compute; discriminate |].
    apply pow2_le. lia. }
  assert (Lt : - 2 ^ 1014 <= inject_Z (Z.max ft fl)
               /\ inject_Z (Z.max ft fl) <= 2 ^ 1014).
  { pose proof (pow2_pos 1014) as P.
    assert (F0 : 0 <= inject_Z ft)
      by (change 0 with (inject_Z 0); rewrite <- Zle_Qle; lia).
    assert (F1 : inject_Z ft <= inject_Z 1000) by (rewrite <- Zle_Qle; lia).
    destruct (Z.max_spec ft fl) as [[_ ->] | [_ ->]]; split; lra. }
  set (t := Z.max ft fl) in *. destruct Lt as [Lt Ut].
  assert (P1 : 2 ^ 1015 == 2 ^ 1014 + 2 ^ 1014).
  { rewrite (pow2_succ 1014). ring. }
  assert (P2 : 2 ^ 1000 <= 2 ^ 1014) by (apply pow2_le; lia).
  unfold of_Z at 2 3. cbn [sub].
  destruct (round_bound (inject_Z t - inject_Z a) 1015 ltac:(lia))
    as (E & Lx & Ux); [lra | lra |].
  rewrite E.
  assert (E' : inject_Z t - inject_Z a == inject_Z (t - a)).
  { unfold Zminus. rewrite inject_Z_plus, inject_Z_opp. reflexivity. }
  rewrite (rn_comp _ _ E') in Lx, Ux |- *.
  destruct (rn_integer (t - a)) as (z' & Ez). rewrite Ez in Lx, Ux |- *.
  fold (of_Z z'). rewrite Math_max_of_Z. eexists.
  split; [reflexivity |]. split; [lia |].
  assert (F1 : inject_Z fv <= inject_Z 1000) by (rewrite <- Zle_Qle; lia).
  pose proof (pow2_pos 1014) as P.
  destruct (Z.max_spec fv z') as [[_ ->] | [_ ->]]; lra.
Qed.

(** A retry's bitrate is a whole number at or above 48, or [Infinity]. *)
Lemma scaled_integer z f :
  (0 <= z)%Z -> inject_Z z <= 2 ^ 1015 -> 0 < f -> f <= 1 ->
  exists z',
    Math_max (of_Z 48) (Math_floor (mul (of_Z z) (Fin f))) = of_Z z'
    /\ (48 <= z')%Z.
Proof.
  intros Hz Uz Hf0 Hf.
  assert (Z0 : 0 <= inject_Z z)
    by (change 0 with (inject_Z 0); rewrite <- Zle_Qle; exact Hz).
  pose proof (pow2_pos 1015) as P.
  destruct (round_bound (inject_Z z * f) 1015 ltac:(lia)) as (E & _);
    [nra | nra |].
  unfold of_Z at 2. rewrite (scaled_value _ _ E).
  eexists. split; [reflexivity | lia].
Qed.

End IntegerFacts.

(** ** Extensions, sanitised names and prefixes *)
Module NameMore.
Import Names NamesFacts StringFacts.
Local Open Scope string_scope.
Local Open Scope list_scope.

Lemma no_dot_app a b : no_dot (a ++ b)%string = no_dot a && no_dot b.
Proof.
  induction a as [| c a IH]; cbn [String.append no_dot]; [reflexivity |].
  rewrite IH. apply Bool.andb_assoc.
Qed.

Lemma no_dot_after_dot a b : no_dot (a ++ String "." b)%string = false.
Proof.
  rewrite no_dot_app. cbn [no_dot]. rewrite Ascii.eqb_refl.
  apply Bool.andb_false_r.
Qed.

(** The extension is what follows the last dot, when something does. *)
Lemma strip_ext_suffix stem ext :
  no_dot ext = true -> ext <> EmptyString ->
  strip_ext (stem ++ String "." ext)%string = stem.
Proof.
  intros Hd He. induction stem as [| c stem IH]; cbn [String.append strip_ext].
  - rewrite Ascii.eqb_refl, Hd. apply String.eqb_neq in He. rewrite He.
    reflexivity.
  - rewrite no_dot_after_dot, Bool.andb_false_r. cbn [andb]. rewrite IH.
    reflexivity.
Qed.

Lemma strip_ext_no_dot s : no_dot s = true -> strip_ext s = s.
Proof.
  induction s as [| c s IH]; cbn [no_dot strip_ext]; [reflexivity |].
  intros H. apply Bool.andb_true_iff in H. destruct H as [Hc Hs].
  apply Bool.negb_true_iff in Hc. rewrite Hc. cbn [andb]. rewrite (IH Hs).
  reflexivity.
Qed.

Lemma strip_ext_trailing_dot s :
  strip_ext (s ++ ".")%string = (s ++ ".")%string.
Proof.
  induction s as [| c s IH]; cbn [String.append strip_ext].
  - reflexivity.
  - rewrite no_dot_after_dot, Bool.andb_false_r. cbn [andb]. rewrite IH.
    reflexivity.
Qed.

Lemma strip_id s :
  Forall (fun c => permitted c = true) (chars s) -> strip s = s.
Proof.
  induction s as [| c s IH]; cbn [chars strip]; [reflexivity |].
  intros H. inversion H as [| ? ? Hc Hs]; subst. rewrite Hc, (IH Hs).
  reflexivity.
Qed.

Lemma strip_empty s :
  (forall c, In c (chars s) -> permitted c = false) -> strip s = EmptyString.
Proof.
  induction s as [| c s IH]; cbn [chars strip]; [reflexivity |].
  intros H. rewrite (H c) by (left; reflexivity). apply IH.
  intros d Hd. apply H. right. exact Hd.
Qed.

Lemma prefix_spec p s :
  String.prefix p s = true <-> exists rest, s = (p ++ rest)%string.
Proof.
  revert s. induction p as [| c p IH]; intros s.
  - split; [intros _; exists s; reflexivity | intros _; destruct s; reflexivity].
  - destruct s as [| d s].
    + split; [discriminate | intros (rest & E); discriminate].
    + cbn [String.prefix String.append].
      destruct (Ascii.ascii_dec c d) as [-> | N].
      * rewrite IH. split; intros (rest & E); exists rest.
        -- rewrite E. reflexivity.
        -- inversion E. reflexivity.
      * split; [discriminate | intros (rest & E); inversion E; congruence].
Qed.

End NameMore.

(** * The claims *)
Module Claims.

Import JS Names Host Server Scenario.
Import Rounding NumberFacts PlannerFacts NamesFacts LoopFacts HandlerFacts.
Import BitrateFacts.
Local Open Scope string_scope.
Local Open Scope list_scope.

Lemma twelve_MiB_is_over :
  le (of_Z (12 * MiB)) (targetBytes defaults) = false.
Proof. vm_compute. reflexivity. Qed.

Lemma nine_MiB_fits : le (of_Z (9 * MiB)) (targetBytes defaults) = true.
Proof. vm_compute. reflexivity. Qed.

(** C1. Within a job the encoder runs follow the schedule, and the loop
    stops at the first run that fits and not before.  The [k]-th run uses
    the bitrate of schedule index [k]; a non-empty schedule has a first run;
    a run whose measured size is at most [targetBytes] is the last one and
    its output is what the loop returns; a run that wrote more than
    [targetBytes] is followed by the next scheduled run, as long as the
    schedule has one; every run before the last was measured above the
    target.  With the schedule [1.00, 0.82, 0.68, 0.56], a 9.8 MB target and
    an encoder that writes 12 MB and then 9 MB, exactly the runs of index 0
    and 1 happen. *)
Theorem attempts_in_order_stop_at_first_fit :
  forall cfg env inputPath outName firstOut initialVideoKbps schedule w r w',
    encodes w = [] ->
    size_loop cfg env inputPath outName firstOut initialVideoKbps schedule
      0 firstOut initialVideoKbps w = (r, w') ->
    (List.length (encodes w') <= List.length schedule)%nat
    /\ (schedule <> [] -> encodes w' <> [])
    /\ (forall k c, nth_error (encodes w') k = Some c ->
          call_videoKbps c = Spec.videoKbpsNow initialVideoKbps schedule k
          /\ (forall size,
                ffmpeg env k c = Writes size ->
                le (of_Z size) (targetBytes cfg) = true ->
                List.length (encodes w') = S k
                /\ r = Normal (call_output c))
          /\ (forall size,
                ffmpeg env k c = Writes size ->
                le (of_Z size) (targetBytes cfg) = false ->
                (S k < List.length schedule)%nat ->
                (S k < List.length (encodes w'))%nat)
          /\ ((S k < List.length (encodes w'))%nat ->
              exists size,
                ffmpeg env k c = Writes size
                /\ le (of_Z size) (targetBytes cfg) = false))
    /\ (cfg = defaults -> schedule = Queued.factors ->
        (forall c, ffmpeg env 0%nat c = Writes (12 * MiB)) ->
        (forall c, ffmpeg env 1%nat c = Writes (9 * MiB)) ->
        List.length (encodes w') = 2%nat
        /\ exists c, nth_error (encodes w') 1 = Some c
                     /\ r = Normal (call_output c)).
Proof.
  intros cfg env inputPath outName firstOut init schedule w r w' Hlog Hrun.
  destruct (loop_inv cfg env inputPath outName firstOut init schedule
              [] firstOut init w r w')
    as (calls & Hcalls & Hlen & Hall); [rewrite Hlog; reflexivity | reflexivity | exact Hrun |].
  destruct (loop_progress cfg env inputPath outName firstOut init schedule
              [] firstOut init w r w')
    as (calls' & Hcalls' & Hfirst & Hnext); [rewrite Hlog; reflexivity | exact Hrun |].
  rewrite Hlog in Hcalls, Hcalls'. cbn [app] in Hcalls, Hcalls'.
  rewrite Hcalls in Hcalls'. subst calls'. rewrite Hcalls.
  split; [exact Hlen |]. split; [exact Hfirst |]. split.
  - intros k c Hk. destruct (Hall k c Hk) as (Hv & Hstop & Hover & _).
    cbn [List.length Nat.add app] in *.
    split; [exact Hv |]. split; [exact Hstop |]. split; [| exact Hover].
    intros size Hs Hbig. apply (Hnext k c size Hk Hs Hbig).
  - intros -> -> H0 H1. unfold Queued.factors in Hrun.
    rewrite size_loop_cons in Hrun. cbv zeta in Hrun.
    rewrite Hlog in Hrun. cbn [Nat.eqb Nat.ltb Nat.leb List.length] in Hrun.
    rewrite H0, twelve_MiB_is_over in Hrun.
    rewrite size_loop_cons in Hrun. cbv zeta in Hrun.
    cbn [encodes put_file log_call] in Hrun. rewrite Hlog in Hrun.
    cbn [Nat.eqb Nat.ltb Nat.leb List.length app] in Hrun.
    rewrite H1, nine_MiB_fits in Hrun.
    inversion Hrun; subst r w'. cbn [encodes put_file log_call tick] in Hcalls.
    rewrite Hlog in Hcalls. cbn [app] in Hcalls. rewrite <- Hcalls.
    split; [reflexivity |]. eexists. split; reflexivity.
Qed.

(** Sizes 12 MB, 11 MB, 9 MB, 20 MB, ...: the loop goes on after the
    first and after the second run and stops after the third, whose output
    it returns. *)
Lemma attempts_in_order_stop_at_first_fit_witness :
  let run :=
    size_loop defaults fits_at_index_2 "tmp/3f2a9c" "out.mp4" "tmp/0_out.mp4"
      (of_Z 2644) Queued.factors 0 "tmp/0_out.mp4" (of_Z 2644)
      (start uploaded) in
  encodes (start uploaded) = []
  /\ List.length (encodes (snd run)) = 3%nat
  /\ exists c, nth_error (encodes (snd run)) 2 = Some c
               /\ fst run = Normal (call_output c).
Proof.
  intros run. split; [reflexivity |].
  destruct (attempts_in_order_stop_at_first_fit
              defaults fits_at_index_2 "tmp/3f2a9c" "out.mp4" "tmp/0_out.mp4"
              (of_Z 2644) Queued.factors (start uploaded) (fst run) (snd run)
              eq_refl (surjective_pairing _))
    as (_ & Hfirst & Hall & _).
  assert (Hover : forall size, (size = 12 * MiB \/ size = 11 * MiB)%Z ->
                               le (of_Z size) (targetBytes defaults) = false).
  { intros size [-> | ->]; vm_compute; reflexivity. }
  assert (Hfit : le (of_Z (9 * MiB)) (targetBytes defaults) = true)
    by (vm_compute; reflexivity).
  destruct (encodes (snd run)) as [| c0 rest0] eqn:E0;
    [exfalso; apply Hfirst; [discriminate | reflexivity] |].
  destruct (Hall 0%nat c0 eq_refl) as (_ & _ & Hnext0 & _).
  specialize (Hnext0 (12 * MiB)%Z eq_refl (Hover _ (or_introl eq_refl))
                ltac:(apply Nat.ltb_lt; reflexivity)).
  destruct rest0 as [| c1 rest1]; [cbn in Hnext0; lia |].
  destruct (Hall 1%nat c1 eq_refl) as (_ & _ & Hnext1 & _).
  specialize (Hnext1 (11 * MiB)%Z eq_refl (Hover _ (or_intror eq_refl))
                ltac:(apply Nat.ltb_lt; reflexivity)).
  destruct rest1 as [| c2 rest2]; [cbn in Hnext1; lia |].
  destruct (Hall 2%nat c2 eq_refl) as (_ & Hstop2 & _).
  destruct (Hstop2 (9 * MiB)%Z eq_refl Hfit) as [Hlen Hr].
  split; [exact Hlen |]. exists c2. split; [reflexivity | exact Hr].
Defined.

(** C2. When every scheduled attempt is measured above [targetBytes], the
    encoder runs exactly once per schedule entry and the loop returns the
    output of the last run, with the size that run wrote, whatever the
    earlier runs produced. *)
Theorem exhausted_schedule_returns_last_output :
  forall cfg env inputPath outName firstOut initialVideoKbps schedule w,
    encodes w = [] ->
    schedule <> [] ->
    (forall k c, (k < List.length schedule)%nat ->
       exists size, ffmpeg env k c = Writes size
                    /\ le (of_Z size) (targetBytes cfg) = false) ->
    exists out w' c size,
      size_loop cfg env inputPath outName firstOut initialVideoKbps schedule
        0 firstOut initialVideoKbps w = (Normal out, w')
      /\ List.length (encodes w') = List.length schedule
      /\ nth_error (encodes w') (Nat.pred (List.length schedule)) = Some c
      /\ out = call_output c
      /\ ffmpeg env (Nat.pred (List.length schedule)) c = Writes size
      /\ lookup out (files w') = Some size.
Proof.
  intros cfg env inputPath outName firstOut init schedule w Hlog Hne Hall.
  destruct (loop_exhausts cfg env inputPath outName firstOut init schedule
              [] firstOut init w)
    as (out & w' & Hrun & Hlen & _ & Hlast); [rewrite Hlog; reflexivity | exact Hall |].
  destruct (Hlast Hne) as (c & size & Hc & Hout & Hff & Hsize).
  exists out, w', c, size. cbn [app List.length] in *. auto 10.
Qed.

(** Sizes 12, 11, 13, 14 MB against 9.8 MB: four runs, and the file
    returned is the 14 MB one although the second run wrote 11 MB. *)
Lemma exhausted_schedule_returns_last_output_witness :
  encodes (start uploaded) = []
  /\ exists out w',
       size_loop defaults never_fits "tmp/3f2a9c" "out.mp4" "tmp/0_out.mp4"
         (of_Z 2644) Queued.factors 0 "tmp/0_out.mp4" (of_Z 2644)
         (start uploaded) = (Normal out, w')
       /\ List.length (encodes w') = 4%nat
       /\ lookup out (files w') = Some (14 * MiB)
       /\ ffmpeg never_fits 1%nat
            {| call_input := "tmp/3f2a9c"; call_output := out;
               call_videoKbps := NaN; call_audioKbps := NaN;
               call_maxWidth := NaN |} = Writes (11 * MiB).
Proof.
  split; [reflexivity |].
  destruct (exhausted_schedule_returns_last_output
              defaults never_fits "tmp/3f2a9c" "out.mp4" "tmp/0_out.mp4"
              (of_Z 2644) Queued.factors (start uploaded) eq_refl)
    as (out & w' & c & size & Hrun & Hlen & _ & _ & Hff & Hsize).
  - discriminate.
  - intros k c Hk.
    destruct k as [| [| [| [| k]]]];
      [eexists; split; [reflexivity | vm_compute; reflexivity] .. |].
    cbn in Hk. lia.
  - exists out, w'. cbn in Hff. inversion Hff; subst size. auto.
Defined.

(** C3. In each revision [totalKbps] and [initialVideoKbps] are the planner
    of the specification, with floors 200 and 64 (first and earlier
    revisions) or 180 and 56 (queued revision); for a positive duration and a
    positive budget the planned video bitrate is at least [floorVideoKbps];
    and for a budget of at most [2^1020] bytes, whose bits do not overflow
    binary64, [totalKbps] is exactly [floorTotalKbps] from some positive
    duration on and at an infinite one. *)
Theorem planner_is_clamped_from_below :
  forall (floorTotalKbps floorVideoKbps : Z)
         (durationSeconds targetBytes audioKbps : Q),
    (0 < durationSeconds)%Q -> (0 < targetBytes)%Q ->
    (forall cfg d,
       Simple.totalKbps cfg d = Spec.totalKbps (of_Z 200) d (Server.targetBytes cfg)
       /\ Simple.initialVideoKbps cfg (Simple.totalKbps cfg d)
          = Spec.plan (of_Z 200) (of_Z 64) d (Server.targetBytes cfg)
              (AUDIO_KBPS cfg)
       /\ Queued.totalKbps cfg d
          = Spec.totalKbps (of_Z 180) d (Server.targetBytes cfg)
       /\ Queued.initialVideoKbps cfg (Queued.totalKbps cfg d)
          = Spec.plan (of_Z 180) (of_Z 56) d (Server.targetBytes cfg)
              (AUDIO_KBPS cfg)
       /\ Legacy.totalKbps cfg d
          = Spec.totalKbps (of_Z 200) d (Server.targetBytes cfg)
       /\ Legacy.videoKbps cfg (Legacy.totalKbps cfg d)
          = Spec.plan (of_Z 200) (of_Z 64) d (Server.targetBytes cfg)
              (AUDIO_KBPS cfg))
    /\ le (of_Z floorVideoKbps)
         (Spec.plan (of_Z floorTotalKbps) (of_Z floorVideoKbps)
            (Fin durationSeconds) (Fin targetBytes) (Fin audioKbps)) = true
    /\ ((0 <= floorTotalKbps)%Z -> (targetBytes <= 2 ^ 1020)%Q ->
        exists longEnough,
          (0 < longEnough)%Q
          /\ (forall d, (longEnough <= d)%Q ->
                Spec.totalKbps (of_Z floorTotalKbps) (Fin d) (Fin targetBytes)
                = of_Z floorTotalKbps)
          /\ Spec.totalKbps (of_Z floorTotalKbps) PosInf (Fin targetBytes)
             = of_Z floorTotalKbps).
Proof.
  intros ft fv d tb a Hd Htb. split; [| split].
  - intros cfg d'.
    unfold Simple.initialVideoKbps, Simple.totalKbps, Queued.initialVideoKbps,
      Queued.totalKbps, Legacy.videoKbps, Legacy.totalKbps, Spec.plan,
      Spec.totalKbps.
    repeat split.
  - unfold Spec.plan. apply Math_max_ge; [discriminate |].
    apply sub_not_NaN.
    destruct (totalKbps_shape ft d (Fin tb) ltac:(discriminate) Hd)
      as [E | (t & E & _)]; rewrite E; discriminate.
  - intros Hft Hbound.
    assert (HA : (0 <= rn (tb * inject_Z 8))%Q).
    { apply rn_nonneg. change (inject_Z 8) with 8%Q. lra. }
    exists (rn (tb * inject_Z 8) + 1)%Q. split; [lra |]. split.
    + intros d' Hd'. apply totalKbps_clamped; assumption.
    + pose proof (pow2_pos 1020) as P.
      rewrite totalKbps_unbounded by (set (B := (2 ^ 1020)%Q) in *; lra).
      rewrite Z.max_l by lia. reflexivity.
Qed.

(** Thirty seconds, the default budget and 96 kbps of audio, floors 180
    and 56. *)
Lemma planner_is_clamped_from_below_witness :
  (0 < 30)%Q /\ (0 < 10276044)%Q /\ (10276044 <= 2 ^ 1020)%Q
  /\ le (of_Z 56)
       (Spec.plan (of_Z 180) (of_Z 56) (Fin 30) (Fin 10276044) (Fin 96)) = true
  /\ exists longEnough,
       (0 < longEnough)%Q
       /\ (forall d, (longEnough <= d)%Q ->
             Spec.totalKbps (of_Z 180) (Fin d) (Fin 10276044) = of_Z 180)
       /\ Spec.totalKbps (of_Z 180) PosInf (Fin 10276044) = of_Z 180.
Proof.
  assert (B : (10276044 <= 2 ^ 1020)%Q) by (vm_compute; discriminate).
  split; [reflexivity |]. split; [reflexivity |]. split; [exact B |].
  destruct (planner_is_clamped_from_below 180 56 30 10276044 96
              eq_refl eq_refl) as (_ & Hfloor & Hlong).
  split; [exact Hfloor |]. apply Hlong; [discriminate | exact B].
Defined.

(** C4. In every reachable state of the admission queue the jobs inside
    the probe-and-encode pipeline are exactly [running] many and at most
    [CONCURRENCY]; the jobs started so far, in the order they were started,
    followed by the waiting ones, are the arrivals in arrival order; and
    every start of streaming, and every 500 answer of a queued job, comes
    after that job's [running--]. *)
Theorem admission_queue_bounded_fifo_released_first :
  forall CONCURRENCY s,
    0 <= CONCURRENCY ->
    Queue.reachable CONCURRENCY s ->
    Z.of_nat (List.length (Queue.inside s)) <= CONCURRENCY
    /\ Queue.running s = Z.of_nat (List.length (Queue.inside s))
    /\ Queue.started (Queue.history s) ++ Queue.queue s
       = seq 0 (Queue.arrived s)
    /\ (forall j,
          Queue.released_before j (Queue.Streaming j) (Queue.history s)
          /\ Queue.released_before j (Queue.Sent500 j) (Queue.history s)).
Proof.
  intros C s HC Hreach.
  destruct (QueueFacts.reachable_invariant C s Hreach)
    as (Hrun & Hcap & Hfifo & _ & _ & _ & Hrel).
  rewrite <- Hrun. repeat split; try assumption; try apply Hrel. lia.
Qed.

(** Capacity 1, two uploads: the second waits until the first is done. *)
Lemma admission_queue_bounded_fifo_released_first_witness :
  0 <= 1
  /\ Queue.run 1 Queue.init two_uploads
     = Some {| Queue.queue := []; Queue.running := 1; Queue.inside := [1%nat];
               Queue.settled := []; Queue.arrived := 2;
               Queue.history :=
                 [Queue.Started 0%nat; Queue.Released 0%nat;
                  Queue.Started 1%nat; Queue.Streaming 0%nat] |}
  /\ Queue.released_before 0%nat (Queue.Streaming 0%nat)
       [Queue.Started 0%nat; Queue.Released 0%nat; Queue.Started 1%nat;
        Queue.Streaming 0%nat].
Proof.
  split; [discriminate |]. split; [reflexivity |].
  refine (proj1 (proj2 (proj2 (proj2
    (admission_queue_bounded_fifo_released_first 1 _ _ (ex_intro _ two_uploads eq_refl))))
    0%nat)).
  discriminate.
Defined.

(** The paths the queued revision hands to [cleanupLater]: nothing on a
    400, the upload alone on a 500, the upload and the streamed file on a
    200.  No other attempt output is ever scheduled. *)
Lemma queued_cleanup_set cfg env req uploads r w' :
  Queued.upload cfg env req (start uploads) = (r, w') ->
  (statusCode (res w') = 400 /\ scheduled w' = [])
  \/ (exists ip, statusCode (res w') = 500 /\ scheduled w' = [ip])
  \/ (exists ip out, body (res w') = Some (Piped out)
                     /\ scheduled w' = [ip; out]).
Proof.
  intros Hrun. destruct (queued_cases cfg env req _ r w' Hrun) as [_ H].
  destruct H as [[_ ->] | (f & ip & _ & [[_ ->] | (meta & _ & [(w1 & Hloop & ->) | (out & w1 & Hloop & _ & ->)])])].
  - left. split; reflexivity.
  - right. left. exists ip. split; reflexivity.
  - apply loop_frame in Hloop. destruct Hloop as [_ Ht].
    right. left. exists ip. split; [reflexivity |].
    unfold scheduled. cbn [timers with_res add_timer]. rewrite Ht. reflexivity.
  - apply loop_frame in Hloop. destruct Hloop as [_ Ht].
    right. right. exists ip, out. split; [reflexivity |].
    unfold scheduled. cbn [timers with_res add_timer]. rewrite Ht. reflexivity.
Qed.

(** C5 (where the code departs from it).  Queued revision, default
    configuration, encoder sizes 12 MB, 11 MB, then a failure at index 2:
    the answer is 500, the outputs of attempts 0 and 1 are on disk, and the
    only path scheduled for deletion is the upload. *)
Theorem queued_failure_schedules_the_upload_only :
  let w' :=
    snd (Queued.upload defaults fails_at_index_2 request (start uploaded)) in
  let out0 := "tmp/1700000000000_discompress_....evil name.mp4" in
  let out1 := "tmp/1700000000001_1_discompress_....evil name.mp4" in
  statusCode (res w') = 500
  /\ nth_error (outputs w') 0 = Some out0
  /\ nth_error (outputs w') 1 = Some out1
  /\ exists_file out0 w' = true
  /\ exists_file out1 w' = true
  /\ scheduled w' = ["tmp/3f2a9c"]
  /\ (In out0 (scheduled w') -> False)
  /\ (In out1 (scheduled w') -> False).
Proof.
  cbv zeta.
  assert (E : scheduled (snd (Queued.upload defaults fails_at_index_2 request
                                (start uploaded))) = ["tmp/3f2a9c"])
    by (vm_compute; reflexivity).
  rewrite E. repeat split; try (vm_compute; reflexivity).
  - intros [H | []]. discriminate H.
  - intros [H | []]. discriminate H.
Qed.

(** C6. Queued revision: without a file the answer is 400; when the probe
    fails, or any encoder run fails, the answer is 500 with the fixed
    message; when every attempt is measured above the target the answer
    keeps status 200, carries [Content-Type: video/mp4] and streams the
    output of the fourth, last attempt. *)
Theorem upload_answers_400_500_200 :
  forall cfg env req uploads r w',
    Queued.upload cfg env req (start uploads) = (r, w') ->
    (file req = None ->
     statusCode (res w') = 400 /\ body (res w') = Some (Text message_400))
    /\ (forall f, file req = Some f -> path f <> EmptyString ->
          ffprobe env (path f) = None ->
          statusCode (res w') = 500
          /\ body (res w') = Some (Text message_500))
    /\ (forall k c, nth_error (encodes w') k = Some c ->
          ffmpeg env k c = Rejects ->
          statusCode (res w') = 500
          /\ body (res w') = Some (Text message_500))
    /\ (forall f, file req = Some f -> path f <> EmptyString ->
          ffprobe env (path f) <> None ->
          (forall k c, (k < 4)%nat ->
             exists size, ffmpeg env k c = Writes size
                          /\ le (of_Z size) (targetBytes cfg) = false) ->
          statusCode (res w') = 200
          /\ In ("Content-Type", "video/mp4") (headers (res w'))
          /\ List.length (encodes w') = 4%nat
          /\ exists c, nth_error (encodes w') 3 = Some c
                       /\ body (res w') = Some (Piped (call_output c))).
Proof.
  intros cfg env req uploads r w' Hrun.
  destruct (queued_cases cfg env req _ r w' Hrun) as [_ H].
  destruct H as [[Hreq ->] | (f & ip & Hreq & H)].
  - (* no usable file *)
    assert (Hno : forall g, file req = Some g -> path g <> EmptyString -> False).
    { intros g Hg Hp. destruct (inputPath_of_None req Hreq) as [C | (g' & C & E)];
        congruence. }
    split; [intros _; split; reflexivity |].
    split; [intros g Hg Hp; destruct (Hno g Hg Hp) |].
    split; [intros k c Hk; destruct k; discriminate |].
    intros g Hg Hp. destruct (Hno g Hg Hp).
  - destruct (inputPath_of_Some req f ip Hreq) as (Hfile & -> & Hpath).
    cbv zeta in H.
    split; [intros C; congruence |].
    destruct H as [[Hprobe ->] | (meta & Hprobe & [(w1 & Hloop & ->) | (out & w1 & Hloop & Hex & ->)])].
    + (* the probe fails *)
      split; [intros _ _ _ _; split; reflexivity |].
      split; [intros k c Hk; destruct k; discriminate |].
      intros g Hg _ Hp. assert (g = f) by congruence. subst g. contradiction.
    + (* the loop throws *)
      split; [intros g Hg _ C; assert (g = f) by congruence; subst g; congruence |].
      split; [intros k c _ _; split; reflexivity |].
      intros g Hg _ _ Hover.
      match type of Hloop with
      | size_loop ?c ?e ?ip ?on ?fo ?init ?fs _ ?lo ?vk ?w0 = _ =>
          destruct (loop_exhausts c e ip on fo init fs [] lo vk w0 eq_refl Hover)
            as (out & w2 & Hrun2 & _)
      end.
      cbn [List.length] in Hrun2. rewrite Hloop in Hrun2. discriminate.
    + (* the loop returns *)
      destruct (loop_frame _ _ _ _ _ _ _ _ _ _ _ _ _ Hloop) as [Hres _].
      split; [intros g Hg _ C; assert (g = f) by congruence; subst g; congruence |].
      split.
      * intros k c Hk Hrej. exfalso.
        match type of Hloop with
        | size_loop ?c0 ?e ?ip ?on ?fo ?init ?fs _ ?lo ?vk ?w0 = _ =>
            destruct (loop_inv c0 e ip on fo init fs [] lo vk w0 _ _
                        eq_refl (fun _ => eq_refl) Hloop)
              as (calls & Hcalls & _ & Hall)
        end.
        cbn [encodes add_timer with_res tick start app] in Hk, Hcalls.
        rewrite Hcalls in Hk. destruct (Hall k c Hk) as (_ & _ & _ & Hthrow).
        specialize (Hthrow Hrej). discriminate.
      * intros g Hg _ _ Hover.
        match type of Hloop with
        | size_loop ?c ?e ?ip ?on ?fo ?init ?fs _ ?lo ?vk ?w0 = _ =>
            destruct (loop_exhausts c e ip on fo init fs [] lo vk w0 eq_refl Hover)
              as (out' & w2 & Hrun2 & Hlen & _ & Hlast)
        end.
        cbn [List.length app] in Hrun2, Hlen, Hlast. rewrite Hloop in Hrun2.
        inversion Hrun2; subst out' w2.
        destruct (Hlast ltac:(discriminate)) as (c & size & Hc & Hout & _).
        cbn [res statusCode headers body encodes add_timer with_res with_pipe
             with_download_headers].
        rewrite Hres. cbn [res tick start statusCode fresh_res headers app].
        split; [reflexivity |]. split; [left; reflexivity |].
        split; [exact Hlen |]. exists c. split; [exact Hc | rewrite Hout; reflexivity].
Qed.

(** Sizes 12, 11, 13, 14 MB: status 200, the fourth output streamed. *)
Lemma upload_answers_400_500_200_witness :
  let w' := snd (Queued.upload defaults never_fits request (start uploaded)) in
  statusCode (res w') = 200
  /\ In ("Content-Type", "video/mp4") (headers (res w'))
  /\ List.length (encodes w') = 4%nat
  /\ exists c, nth_error (encodes w') 3 = Some c
               /\ body (res w') = Some (Piped (call_output c)).
Proof.
  refine (proj2 (proj2 (proj2 (upload_answers_400_500_200
    defaults never_fits request uploaded
    (fst (Queued.upload defaults never_fits request (start uploaded)))
    (snd (Queued.upload defaults never_fits request (start uploaded)))
    (surjective_pairing _)))) _ eq_refl _ _ _).
  - discriminate.
  - discriminate.
  - intros k c Hk.
    destruct k as [| [| [| [| k]]]];
      [eexists; split; [reflexivity | vm_compute; reflexivity] .. |].
    lia.
Defined.

(** C7 (where the code departs from it).  [Math.max(1, d || 1)] is at
    least one second for an absent duration and for every number the probe
    may report, it is exactly 1 for an absent, zero, [NaN] or empty reading,
    and it is never zero, so the planner never divides by zero.  But the
    probe hands over a missing duration as the string ['N/A'], which is
    truthy and no number: in all three revisions the duration is then [NaN],
    not 1, and so is every bitrate the encoder is asked for. *)
Theorem missing_duration_is_not_floored :
  (forall n : number,
     le (of_Z 1) (Legacy.duration (Num n)) = true
     /\ Queued.duration {| format := Some {| duration := Num n |} |}
        = Legacy.duration (Num n)
     /\ Simple.duration {| format := Some {| duration := Num n |} |}
        = Legacy.duration (Num n))
  /\ (forall v : value,
        is_zero (Legacy.duration v) = false
        /\ Queued.duration {| format := Some {| duration := v |} |}
           = Legacy.duration v
        /\ Simple.duration {| format := Some {| duration := v |} |}
           = Legacy.duration v)
  /\ Queued.duration {| format := None |} = of_Z 1
  /\ Simple.duration {| format := None |} = of_Z 1
  /\ Legacy.duration Undefined = of_Z 1
  /\ Legacy.duration (Num (of_Z 0)) = of_Z 1
  /\ Legacy.duration (Num NaN) = of_Z 1
  /\ Legacy.duration (Str EmptyString) = of_Z 1
  /\ Legacy.duration (Str "N/A") = NaN
  /\ Queued.duration no_duration = NaN
  /\ Simple.duration no_duration = NaN
  /\ le (of_Z 1) (Queued.duration no_duration) = false
  /\ Queued.totalKbps defaults (Queued.duration no_duration) = NaN
  /\ map call_videoKbps
       (encodes (snd (Queued.upload defaults (probing no_duration never_fits)
                        request (start uploaded))))
     = [NaN; NaN; NaN; NaN]
  /\ map call_videoKbps
       (encodes (snd (Simple.upload defaults (probing no_duration never_fits)
                        request (start uploaded))))
     = [NaN; NaN; NaN]
  /\ map call_videoKbps
       (encodes (snd (Legacy.upload defaults (probing no_duration never_fits)
                        request (start uploaded))))
     = [NaN; NaN].
Proof.
  split.
  { intros n. split; [| split; reflexivity].
    unfold Legacy.duration. cbn [or_else].
    destruct (truthy n) eqn:T; cbn [ToNumber].
    - destruct n as [| | q |]; [discriminate T | reflexivity | |
                                 reflexivity].
      apply Math_max_lower.
    - reflexivity. }
  split.
  { intros v. split; [| split; reflexivity]. unfold Legacy.duration.
    destruct (clamped_duration v) as [(-> & _) | [-> | (q & -> & Hq)]];
      try reflexivity.
    cbn [is_zero]. destruct (Qeq_bool q 0) eqn:E; [| reflexivity].
    apply Qeq_bool_iff in E. exfalso. lra. }
  repeat split; vm_compute; reflexivity.
Qed.

(** C8. The name after the first [replace] contains only word characters,
    dots, hyphens and spaces; it is the input with every other character
    removed; it is not empty when the input holds a permitted character; and
    the base name derived from it contains only permitted characters too. *)
Theorem sanitized_name_keeps_permitted_characters :
  forall (name : string) (c : ascii),
    In c (chars name) -> permitted c = true ->
    Forall (fun x => permitted x = true) (chars (originalName (Some name)))
    /\ chars (originalName (Some name)) = filter permitted (chars name)
    /\ originalName (Some name) <> EmptyString
    /\ Forall (fun x => permitted x = true) (chars (base (Some name)))
    /\ originalName (Some "../../evil name!.mov") = "....evil name.mov"
    /\ (forall other,
          Forall (fun x => permitted x = true) (chars (originalName other))).
Proof.
  intros name c Hin Hc.
  assert (A : forall other,
             Forall (fun x => permitted x = true) (chars (originalName other))).
  { intros other. apply Forall_forall. intros x. apply strip_permitted. }
  assert (E : or_video (Some name) = name).
  { destruct name; [destruct Hin | reflexivity]. }
  split; [apply A |]. split; [| split; [| split; [| split]]].
  - unfold originalName. rewrite E. apply strip_filter.
  - unfold originalName. rewrite E. apply (strip_nonempty name c Hin Hc).
  - apply Forall_forall. intros x Hx. apply strip_ext_chars in Hx.
    revert x Hx. apply Forall_forall, A.
  - reflexivity.
  - exact A.
Qed.

(** The hostile name of the specification. *)
Lemma sanitized_name_keeps_permitted_characters_witness :
  In "e"%char (chars "../../evil name!.mov")
  /\ permitted "e"%char = true
  /\ chars (originalName (Some "../../evil name!.mov"))
     = filter permitted (chars "../../evil name!.mov")
  /\ originalName (Some "../../evil name!.mov") <> EmptyString.
Proof.
  assert (Hin : In "e"%char (chars "../../evil name!.mov"))
    by (cbn; tauto).
  split; [exact Hin |]. split; [reflexivity |].
  destruct (sanitized_name_keeps_permitted_characters
              "../../evil name!.mov" "e"%char Hin eq_refl)
    as (_ & Hfilter & Hne & _).
  split; assumption.
Defined.

Lemma default_budget : targetBytes defaults = of_Z 10276044.
Proof. vm_compute. reflexivity. Qed.

Lemma thirty_second_total :
  Simple.totalKbps defaults (Simple.duration thirty_seconds) = of_Z 2740.
Proof. vm_compute. reflexivity. Qed.

Lemma thirty_second_video :
  Simple.initialVideoKbps defaults
    (Simple.totalKbps defaults (Simple.duration thirty_seconds)) = of_Z 2644.
Proof. vm_compute. reflexivity. Qed.

Lemma thirty_second_video_legacy :
  Legacy.videoKbps defaults
    (Legacy.totalKbps defaults (Legacy.duration (Num (of_Z 30)))) = of_Z 2644.
Proof. vm_compute. reflexivity. Qed.

Lemma fits_default_budget size :
  size <= 10276044 -> le (of_Z size) (targetBytes defaults) = true.
Proof.
  intros H. rewrite default_budget. apply le_Fin. rewrite <- Zle_Qle. exact H.
Qed.

Lemma not_over_default_budget size :
  size <= 10276044 -> gt (of_Z size) (targetBytes defaults) = false.
Proof.
  intros H. rewrite default_budget. unfold gt, of_Z.
  rewrite (proj2 (le_Fin _ _)); [reflexivity |]. rewrite <- Zle_Qle. exact H.
Qed.

(** C9, as the code computes it.  For a 30-second input, the default 9.8 MB
    budget (10276044 bytes) and 96 kbps of audio, [totalKbps] is
    [max(200, floor(10276044*8/30/1000)) = 2740] and the planned video
    bitrate is [2740 - 96 = 2644]; the first encoder run of the first and of
    the earlier revision uses 2644 kbps, and when the file it writes has at
    most 10276044 bytes no other run follows and that file is streamed with
    status 200. *)
Theorem thirty_second_plan_is_2740_and_2644 :
  forall env req f uploads r w',
    file req = Some f ->
    path f <> EmptyString ->
    ffprobe env (path f) = Some thirty_seconds ->
    Simple.upload defaults env req (start uploads) = (r, w')
    \/ Legacy.upload defaults env req (start uploads) = (r, w') ->
    Simple.totalKbps defaults (Simple.duration thirty_seconds) = of_Z 2740
    /\ Simple.initialVideoKbps defaults (of_Z 2740) = of_Z 2644
    /\ Legacy.totalKbps defaults (Legacy.duration (Num (of_Z 30)))
       = of_Z 2740
    /\ Legacy.videoKbps defaults (of_Z 2740) = of_Z 2644
    /\ exists c more,
         encodes w' = c :: more
         /\ call_videoKbps c = of_Z 2644
         /\ (forall size,
               ffmpeg env 0%nat c = Writes size ->
               size <= 10276044 ->
               more = []
               /\ statusCode (res w') = 200
               /\ body (res w') = Some (Piped (call_output c))).
Proof.
  intros env req f uploads r w' Hfile Hpath Hprobe Hrun.
  split; [exact thirty_second_total |].
  split; [vm_compute; reflexivity |].
  split; [vm_compute; reflexivity |].
  split; [vm_compute; reflexivity |].
  destruct Hrun as [Hrun | Hrun].
  - destruct (simple_cases defaults env req _ r w' Hrun) as [_ H].
    destruct H as [[Hreq _] | (g & ip & Hreq & H)].
    { destruct (inputPath_of_None req Hreq) as [C | (g & C & E)]; congruence. }
    destruct (inputPath_of_Some req g ip Hreq) as (Hg & -> & _).
    assert (g = f) by congruence. subst g. cbv zeta in H.
    destruct H as [[C _] | (meta & Hmeta & H)]; [congruence |].
    assert (meta = thirty_seconds) by congruence. subst meta.
    rewrite thirty_second_video in H.
    destruct H as [(w1 & Hloop & ->) | (out & w1 & Hloop & Hex & ->)];
      unfold Simple.passes in Hloop;
      destruct (loop_first_call _ _ _ _ _ _ _ _ (tick (start uploads)) _ _
                  eq_refl Hloop)
        as (more & Hlog & Hfit);
      cbv zeta in Hlog, Hfit;
      eexists; exists more;
      cbn [encodes add_timer with_res]; (split; [exact Hlog |]);
      (split; [reflexivity |]); intros size Hs Hsize;
      destruct (Hfit size Hs (fits_default_budget size Hsize)) as (Hmore & Hr & _).
    + discriminate.
    + inversion Hr; subst out.
      destruct (loop_frame _ _ _ _ _ _ _ _ _ _ _ _ _ Hloop) as [Hres _].
      split; [exact Hmore |].
      cbn [res statusCode body add_timer with_res with_pipe
           with_download_headers call_output].
      rewrite Hres. split; reflexivity.
  - destruct (legacy_first_pass defaults env req (start uploads) r w' f
                (Num (of_Z 30)) eq_refl Hfile Hprobe Hrun) as (Hfirst & Hfit).
    cbv zeta in Hfirst, Hfit. rewrite thirty_second_video_legacy in Hfirst, Hfit.
    destruct (encodes w') as [| c more] eqn:Hlog; [discriminate |].
    cbn [nth_error] in Hfirst. inversion Hfirst; subst c.
    eexists; exists more. split; [reflexivity |]. split; [reflexivity |].
    intros size Hs Hsize.
    destruct (Hfit size Hs (not_over_default_budget size Hsize))
      as (Hone & Hres & _).
    inversion Hone; subst more. split; [reflexivity |].
    rewrite Hres. split; reflexivity.
Qed.

(** The request of the examples on a host whose first output has 9 MB. *)
Lemma thirty_second_plan_is_2740_and_2644_witness :
  let w' := snd (Simple.upload defaults fits_at_once request (start uploaded)) in
  exists c more,
    encodes w' = c :: more
    /\ call_videoKbps c = of_Z 2644
    /\ (forall size,
          ffmpeg fits_at_once 0%nat c = Writes size ->
          size <= 10276044 ->
          more = []
          /\ statusCode (res w') = 200
          /\ body (res w') = Some (Piped (call_output c))).
Proof.
  refine (proj2 (proj2 (proj2 (proj2 (thirty_second_plan_is_2740_and_2644
    fits_at_once request _ uploaded
    (fst (Simple.upload defaults fits_at_once request (start uploaded)))
    (snd (Simple.upload defaults fits_at_once request (start uploaded)))
    eq_refl _ eq_refl (or_introl (surjective_pairing _))))))).
  discriminate.
Defined.

(** C9 as the specification states it fails: the planner yields 2740 and
    2644 where the claim says 2744 and 2648, and the first encoder run of the
    example request is at 2644 kbps. *)
Lemma thirty_second_plan_is_not_2744_and_2648 :
  Simple.totalKbps defaults (Simple.duration thirty_seconds) = of_Z 2740
  /\ Simple.initialVideoKbps defaults
       (Simple.totalKbps defaults (Simple.duration thirty_seconds))
     = of_Z 2644
  /\ (Simple.totalKbps defaults (Simple.duration thirty_seconds) = of_Z 2744
      -> False)
  /\ (Simple.initialVideoKbps defaults
        (Simple.totalKbps defaults (Simple.duration thirty_seconds))
      = of_Z 2648 -> False)
  /\ map call_videoKbps
       (encodes (snd (Simple.upload defaults fits_at_once request
                        (start uploaded))))
     = [of_Z 2644].
Proof.
  split; [exact thirty_second_total |]. split; [exact thirty_second_video |].
  split; [rewrite thirty_second_total; discriminate |].
  split; [rewrite thirty_second_video; discriminate |].
  vm_compute. reflexivity.
Qed.





End Claims.

(** * Further properties of the code *)
Module Behaviour.

Import JS Names Host Server Scenario.
Import Rounding NumberFacts PlannerFacts NamesFacts LoopFacts HandlerFacts.
Import BitrateFacts StringFacts DiskFacts TraceFacts RequestFacts.
Import IntegerFacts NameMore.
Local Open Scope string_scope.
Local Open Scope list_scope.

(** X1. The queue is work conserving: in every reachable state in which a
    job is waiting, all [CONCURRENCY] slots are taken. *)
Theorem no_job_waits_beside_a_free_slot :
  forall CONCURRENCY s,
    0 <= CONCURRENCY ->
    Queue.reachable CONCURRENCY s ->
    Queue.queue s <> [] ->
    Queue.running s = CONCURRENCY
    /\ Z.of_nat (List.length (Queue.inside s)) = CONCURRENCY.
Proof.
  intros C s HC Hreach Hq.
  destruct (QueueFacts.reachable_invariant C s Hreach) as (Hrun & Hcap & _).
  destruct Hreach as [inputs Hrun'].
  assert (B : Queue.busy_or_idle C s).
  { eapply QueueMore.busy_or_idle_run; [| exact Hrun']. left. reflexivity. }
  destruct B as [E | Hfull]; [contradiction |].
  rewrite <- Hrun. split; lia.
Qed.

(** One slot, two uploads: the second waits while the first runs. *)
Lemma no_job_waits_beside_a_free_slot_witness :
  0 <= 1
  /\ Queue.run 1 Queue.init second_waits
     = Some {| Queue.queue := [1%nat]; Queue.running := 1;
               Queue.inside := [0%nat]; Queue.settled := [];
               Queue.arrived := 2; Queue.history := [Queue.Started 0%nat] |}
  /\ 1 = 1.
Proof.
  split; [discriminate |]. split; [reflexivity |].
  refine (proj1 (no_job_waits_beside_a_free_slot 1
    {| Queue.queue := [1%nat]; Queue.running := 1;
       Queue.inside := [0%nat]; Queue.settled := [];
       Queue.arrived := 2; Queue.history := [Queue.Started 0%nat] |}
    _ (ex_intro _ second_waits eq_refl) _)); discriminate.
Defined.

(** X2. With a capacity of zero or less [pump] never starts a job: in
    every reachable state nothing has been started, released or answered,
    and every upload so far is still waiting, in arrival order. *)
Theorem nonpositive_capacity_starts_nothing :
  forall CONCURRENCY s,
    CONCURRENCY <= 0 ->
    Queue.reachable CONCURRENCY s ->
    Queue.history s = []
    /\ Queue.inside s = []
    /\ Queue.running s = 0
    /\ Queue.queue s = seq 0 (Queue.arrived s).
Proof.
  intros C s HC Hreach.
  destruct (QueueFacts.reachable_invariant C s Hreach) as (_ & _ & Hfifo & _).
  destruct Hreach as [inputs Hrun].
  assert (S : Queue.stalled s).
  { eapply QueueMore.stalled_run; [exact HC | | exact Hrun].
    repeat split. }
  destruct S as (Hr & Hi & _ & Hh). rewrite Hh in Hfifo. cbn in Hfifo. auto.
Qed.

(** Capacity 0, two uploads. *)
Lemma nonpositive_capacity_starts_nothing_witness :
  0 <= 0
  /\ Queue.run 0 Queue.init second_waits
     = Some {| Queue.queue := [0%nat; 1%nat]; Queue.running := 0;
               Queue.inside := []; Queue.settled := [];
               Queue.arrived := 2; Queue.history := [] |}
  /\ [0%nat; 1%nat] = seq 0 2.
Proof.
  split; [discriminate |]. split; [reflexivity |].
  refine (proj2 (proj2 (proj2 (nonpositive_capacity_starts_nothing 0
    {| Queue.queue := [0%nat; 1%nat]; Queue.running := 0;
       Queue.inside := []; Queue.settled := [];
       Queue.arrived := 2; Queue.history := [] |}
    _ (ex_intro _ second_waits eq_refl))))). discriminate.
Defined.

(** X3. When a job leaves the pipeline while another waits, the head of
    the queue is started in the same turn: the history gains exactly
    [Released j; Started h], and the number of running jobs is unchanged. *)
Theorem release_hands_the_slot_to_the_head :
  forall CONCURRENCY s j ok h t,
    0 < CONCURRENCY ->
    Queue.reachable CONCURRENCY s ->
    In j (Queue.inside s) ->
    Queue.queue s = h :: t ->
    exists s',
      Queue.step CONCURRENCY s (Queue.Finish j ok) = Some s'
      /\ Queue.history s'
         = Queue.history s ++ [Queue.Released j; Queue.Started h]
      /\ Queue.queue s' = t
      /\ Queue.running s' = Queue.running s
      /\ In h (Queue.inside s')
      /\ In (j, ok) (Queue.settled s').
Proof.
  intros C s j ok h t HC Hreach Hin Hq.
  destruct (QueueFacts.reachable_invariant C s Hreach) as (_ & Hcap & _).
  rewrite Z.max_r in Hcap by lia.
  assert (Hex : existsb (Nat.eqb j) (Queue.inside s) = true).
  { apply existsb_exists. exists j. split; [exact Hin | apply Nat.eqb_refl]. }
  eexists. split; [cbn [Queue.step]; rewrite Hex; reflexivity |].
  unfold Queue.finished, Queue.pump.
  cbn [Queue.queue Queue.running Queue.inside Queue.settled Queue.arrived
       Queue.history].
  assert (Hfree : (Queue.running s - 1 >=? C) = false).
  { rewrite Z.geb_leb. apply Z.leb_gt. lia. }
  rewrite Hfree, Hq. cbn [List.length Nat.eqb orb].
  cbn [Queue.queue Queue.running Queue.inside Queue.settled Queue.arrived
       Queue.history].
  split; [rewrite <- app_assoc; reflexivity |]. split; [reflexivity |].
  split; [lia |]. split.
  - apply in_or_app. right. left. reflexivity.
  - apply in_or_app. right. left. reflexivity.
Qed.

(** One slot, two uploads, then the first job succeeds. *)
Lemma release_hands_the_slot_to_the_head_witness :
  exists s',
    Queue.step 1
      {| Queue.queue := [1%nat]; Queue.running := 1;
         Queue.inside := [0%nat]; Queue.settled := [];
         Queue.arrived := 2; Queue.history := [Queue.Started 0%nat] |}
      (Queue.Finish 0%nat true) = Some s'
    /\ Queue.history s'
       = [Queue.Started 0%nat] ++ [Queue.Released 0%nat; Queue.Started 1%nat]
    /\ Queue.queue s' = []
    /\ Queue.running s' = 1
    /\ In 1%nat (Queue.inside s')
    /\ In (0%nat, true) (Queue.settled s').
Proof.
  refine (release_hands_the_slot_to_the_head 1
    {| Queue.queue := [1%nat]; Queue.running := 1;
       Queue.inside := [0%nat]; Queue.settled := [];
       Queue.arrived := 2; Queue.history := [Queue.Started 0%nat] |}
    0%nat true 1%nat [] _ (ex_intro _ second_waits eq_refl) _ eq_refl).
  - reflexivity.
  - left. reflexivity.
Defined.

(** X4. With a finite, non-negative target and a finite audio bitrate, a
    probe that reports a longer duration never yields a higher planned
    video bitrate, in any of the three revisions. *)
Theorem longer_clip_never_gets_more_bitrate :
  forall cfg m a d1 d2,
    TARGET_MB cfg = Fin m -> (0 <= m)%Q -> AUDIO_KBPS cfg = Fin a ->
    (d1 <= d2)%Q ->
    let meta := fun d => {| format := Some {| duration := Num (Fin d) |} |} in
    le (Simple.initialVideoKbps cfg
          (Simple.totalKbps cfg (Simple.duration (meta d2))))
       (Simple.initialVideoKbps cfg
          (Simple.totalKbps cfg (Simple.duration (meta d1)))) = true
    /\ le (Queued.initialVideoKbps cfg
             (Queued.totalKbps cfg (Queued.duration (meta d2))))
          (Queued.initialVideoKbps cfg
             (Queued.totalKbps cfg (Queued.duration (meta d1)))) = true
    /\ le (Legacy.videoKbps cfg
             (Legacy.totalKbps cfg (Legacy.duration (Num (Fin d2)))))
          (Legacy.videoKbps cfg
             (Legacy.totalKbps cfg (Legacy.duration (Num (Fin d1))))) = true.
Proof.
  intros cfg m a d1 d2 Hm Hm0 Ha Hd. cbv zeta.
  destruct (duration_mono d1 d2 Hd) as (q1 & q2 & E1 & E2 & H1 & H12).
  unfold Simple.duration, Queued.duration, Legacy.duration, format_duration.
  cbn [format duration]. rewrite E1, E2.
  pose proof (targetBytes_nonneg cfg m Hm Hm0) as Htb.
  pose proof (plan_antitone 200 64 q1 q2 _ a Htb H1 H12) as P1.
  pose proof (plan_antitone 180 56 q1 q2 _ a Htb H1 H12) as P2.
  destruct (revisions_plan cfg (Fin q1)) as (S1 & Q1 & L1).
  destruct (revisions_plan cfg (Fin q2)) as (S2 & Q2 & L2).
  rewrite S1, S2, Q1, Q2, L1, L2, Ha.
  split; [exact P1 |]. split; [exact P2 | exact P1].
Qed.

(** Default settings, 30 seconds against 60 seconds. *)
Lemma longer_clip_never_gets_more_bitrate_witness :
  (0 <= rn (98 # 10))%Q /\ (30 <= 60)%Q
  /\ le (Queued.initialVideoKbps defaults
           (Queued.totalKbps defaults
              (Queued.duration
                 {| format := Some {| duration := Num (Fin 60) |} |})))
        (Queued.initialVideoKbps defaults
           (Queued.totalKbps defaults
              (Queued.duration
                 {| format := Some {| duration := Num (Fin 30) |} |}))) = true.
Proof.
  assert (H0 : (0 <= rn (98 # 10))%Q) by (vm_compute; discriminate).
  assert (H1 : (30 <= 60)%Q) by (vm_compute; discriminate).
  split; [exact H0 |]. split; [exact H1 |].
  exact (proj1 (proj2 (longer_clip_never_gets_more_bitrate
    defaults (rn (98 # 10)) 96 30 60 eq_refl H0 eq_refl H1))).
Defined.

(** X5. For a whole bitrate [v] below [2^52] the rate options of [encode]
    bracket it: [-bufsize] is exactly [2 v], and
    [v <= maxrate (x1.15) <= maxrate (x1.2) <= bufsize]. *)
Theorem rate_options_bracket_the_bitrate :
  forall v : Z,
    0 <= v < 2 ^ 52 ->
    Simple.bufsize (of_Z v) = of_Z (2 * v)
    /\ Queued.bufsize (of_Z v) = of_Z (2 * v)
    /\ le (of_Z v) (Queued.maxrate (of_Z v)) = true
    /\ le (Queued.maxrate (of_Z v)) (Simple.maxrate (of_Z v)) = true
    /\ le (Simple.maxrate (of_Z v)) (Simple.bufsize (of_Z v)) = true.
Proof.
  intros v Hv.
  assert (L : (1 <= rn (115 # 100) /\ rn (115 # 100) <= rn (12 # 10)
               /\ rn (12 # 10) <= 2)%Q)
    by (repeat split; vm_compute; discriminate).
  destruct L as (L1 & L2 & L3).
  assert (Hv0 : (0 <= inject_Z v)%Q).
  { change 0%Q with (inject_Z 0). rewrite <- Zle_Qle. lia. }
  assert (Hv52 : (inject_Z v <= 2 ^ 52)%Q).
  { rewrite <- (pow2_Z 52) by lia. rewrite <- Zle_Qle. lia. }
  assert (Hfin : forall f, (0 <= f)%Q -> (f <= 2)%Q ->
             round (inject_Z v * f) = Fin (rn (inject_Z v * f))).
  { intros f F0 F2. pose proof (pow2_pos 52) as P.
    assert (E : (2 ^ 53 == 2 * 2 ^ 52)%Q) by apply (pow2_succ 52).
    apply (round_bound (inject_Z v * f) 53); [lia | nra | nra]. }
  assert (Hbuf : Qfloor (rn (inject_Z v * inject_Z 2)) = 2 * v).
  { rewrite (rn_comp _ (inject_Z (2 * v))) by (rewrite inject_Z_mult; ring).
    apply floor_rn_integer. lia. }
  assert (Hself : Qfloor (rn (inject_Z v)) = v)
    by (apply floor_rn_integer; lia).
  unfold Simple.bufsize, Queued.bufsize, Simple.maxrate, Queued.maxrate,
    literal, of_Z.
  cbn [mul].
  rewrite (Hfin (inject_Z 2)) by discriminate.
  rewrite (Hfin (rn (115 # 100))), (Hfin (rn (12 # 10))) by lra.
  cbn [Math_floor]. rewrite Hbuf.
  split; [reflexivity |]. split; [reflexivity |].
  split; [| split]; apply le_Fin; rewrite <- Zle_Qle.
  - rewrite <- Hself at 1. apply floor_rn_mono. nra.
  - apply floor_rn_mono. nra.
  - rewrite <- Hbuf. apply floor_rn_mono.
    change (inject_Z 2) with 2%Q. nra.
Qed.

(** The planned bitrate of the thirty-second example. *)
Lemma rate_options_bracket_the_bitrate_witness :
  Simple.bufsize (of_Z 2644) = of_Z (2 * 2644)
  /\ Queued.bufsize (of_Z 2644) = of_Z (2 * 2644)
  /\ le (of_Z 2644) (Queued.maxrate (of_Z 2644)) = true
  /\ le (Queued.maxrate (of_Z 2644)) (Simple.maxrate (of_Z 2644)) = true
  /\ le (Simple.maxrate (of_Z 2644)) (Simple.bufsize (of_Z 2644)) = true.
Proof.
  apply (rate_options_bracket_the_bitrate 2644). split; [discriminate | reflexivity].
Defined.

(** X6. The download name is [discompress_<stem>.mp4], where the stem is
    the sanitised name without its last extension: for a name
    [stem.ext] whose extension holds no dot and keeps a character after
    sanitising, the stem is the sanitised [stem]; an extension that is
    sanitised away leaves the dot in place. *)
Theorem download_name_drops_the_last_extension :
  forall stem ext,
    no_dot ext = true ->
    strip ext <> EmptyString ->
    outName (Some (stem ++ "." ++ ext)%string)
    = ("discompress_" ++ strip stem ++ ".mp4")%string
    /\ base (Some (stem ++ "." ++ ext)%string) = strip stem
    /\ (forall junk,
          junk <> EmptyString ->
          (forall c, In c (chars junk) -> permitted c = false) ->
          base (Some (stem ++ "." ++ junk)%string) = (strip stem ++ ".")%string)
    /\ (stem <> EmptyString -> no_dot stem = true ->
        base (Some stem) = strip stem).
Proof.
  intros stem ext Hd He.
  assert (Happ : forall a b, strip (a ++ b)%string = (strip a ++ strip b)%string).
  { intros a b. apply chars_inj.
    rewrite chars_app, !strip_filter, chars_app. apply filter_app. }
  assert (Hor : forall x, or_video (Some (stem ++ "." ++ x)%string) = (stem ++ "." ++ x)%string).
  { intros x. destruct stem; reflexivity. }
  assert (Hstrip : forall x, no_dot x = true -> no_dot (strip x) = true).
  { induction x as [| c e IH]; [reflexivity |]. intros Hx.
    cbn [no_dot] in Hx. apply Bool.andb_true_iff in Hx. destruct Hx as [Hc Hr].
    cbn [strip]. destruct (permitted c); [| exact (IH Hr)].
    cbn [no_dot]. rewrite Hc, (IH Hr). reflexivity. }
  pose proof (Hstrip ext Hd) as Hnd.
  assert (Hbase : base (Some (stem ++ "." ++ ext)%string) = strip stem).
  { unfold base, originalName. rewrite Hor, !Happ.
    change (strip ".") with ".". cbn [String.append].
    apply strip_ext_suffix; assumption. }
  split; [unfold outName; rewrite Hbase; reflexivity |].
  split; [exact Hbase |].
  split.
  - intros junk Hj Hall. unfold base, originalName. rewrite Hor, !Happ.
    rewrite (strip_empty junk Hall). change (strip ".") with ".".
    apply strip_ext_trailing_dot.
  - intros Hs Hnds. unfold base, originalName.
    assert (E : or_video (Some stem) = stem)
      by (destruct stem; [contradiction Hs; reflexivity | reflexivity]).
    rewrite E. apply strip_ext_no_dot, Hstrip, Hnds.
Qed.

(** The hostile name of the specification: its stem keeps four dots. *)
Lemma download_name_drops_the_last_extension_witness :
  outName (Some ("../../evil name!" ++ "." ++ "mov")%string)
  = ("discompress_" ++ strip "../../evil name!" ++ ".mp4")%string
  /\ strip "../../evil name!" = "....evil name".
Proof.
  split; [| reflexivity].
  refine (proj1 (download_name_drops_the_last_extension
                   "../../evil name!" "mov" eq_refl _)).
  discriminate.
Defined.

(** X7. The fallback ['video'] is used for an absent or empty name only: a
    name that is not empty but holds no permitted character is sanitised
    to the empty string, and the download is called [discompress_.mp4]. *)
Theorem fallback_name_only_for_absent_or_empty :
  forall name,
    name <> EmptyString ->
    (forall c, In c (chars name) -> permitted c = false) ->
    outName (Some name) = "discompress_.mp4"
    /\ outName None = "discompress_video.mp4"
    /\ outName (Some EmptyString) = "discompress_video.mp4".
Proof.
  intros name Hn Hall. split; [| split; reflexivity].
  unfold outName, base, originalName.
  assert (E : or_video (Some name) = name)
    by (destruct name; [contradiction Hn; reflexivity | reflexivity]).
  rewrite E, (strip_empty name Hall). reflexivity.
Qed.

Lemma fallback_name_only_for_absent_or_empty_witness :
  outName (Some "!?*") = "discompress_.mp4".
Proof.
  refine (proj1 (fallback_name_only_for_absent_or_empty "!?*" _ _)).
  - discriminate.
  - intros c [<- | [<- | [<- | []]]]; reflexivity.
Defined.

(** X8. The origin check of the queued revision is wider than the one of
    the first revision: both admit an absent or empty origin and the
    frontend's origin, and the queued one admits in addition every origin
    that merely starts with it, which the first revision refuses. *)
Theorem queued_origin_check_is_wider :
  forall rest,
    rest <> EmptyString ->
    Cors.queued_origin (Some (Cors.FRONTEND ++ rest)%string) = true
    /\ Cors.simple_origin (Some (Cors.FRONTEND ++ rest)%string) = false
    /\ (forall o, Cors.simple_origin o = true -> Cors.queued_origin o = true)
    /\ (forall o, Cors.simple_origin (Some o) = true
                  <-> o = EmptyString \/ o = Cors.FRONTEND)
    /\ (forall o, Cors.queued_origin (Some o) = true
                  <-> o = EmptyString
                      \/ exists more, o = (Cors.FRONTEND ++ more)%string).
Proof.
  intros rest Hrest.
  assert (S : forall o, Cors.simple_origin (Some o) = true
                        <-> o = EmptyString \/ o = Cors.FRONTEND).
  { intros o. unfold Cors.simple_origin, Cors.includes, Cors.ALLOWED.
    cbn [existsb]. rewrite Bool.orb_false_r. fold Cors.FRONTEND.
    destruct o as [| c o]; [cbn [Cors.falsy orb]; tauto |].
    cbn [Cors.falsy orb]. rewrite String.eqb_eq.
    split; [auto | intros [H | H]; [discriminate | exact H]]. }
  assert (Q : forall o, Cors.queued_origin (Some o) = true
                        <-> o = EmptyString
                            \/ exists more, o = (Cors.FRONTEND ++ more)%string).
  { intros o. unfold Cors.queued_origin, Cors.startsWith.
    destruct o as [| c o]; cbn [Cors.falsy orb].
    - split; [auto | reflexivity].
    - rewrite prefix_spec.
      split; [auto | intros [H | H]; [discriminate | exact H]]. }
  split; [apply Q; right; exists rest; reflexivity |].
  split.
  { destruct (Cors.simple_origin (Some (Cors.FRONTEND ++ rest)%string)) eqn:E;
      [| reflexivity].
    apply S in E.
    destruct E as [E | E]; [unfold Cors.FRONTEND in E; simpl in E; discriminate E |].
    exfalso. apply Hrest.
    apply (append_inv_head Cors.FRONTEND). rewrite E.
    clear. unfold Cors.FRONTEND. reflexivity. }
  split; [| split; [exact S | exact Q]].
  intros [o |] H; [| reflexivity].
  apply Q. apply S in H. destruct H as [H | H]; [left; exact H |].
  right. exists EmptyString. rewrite H. reflexivity.
Qed.

(** A look-alike host that starts with the frontend's origin. *)
Lemma queued_origin_check_is_wider_witness :
  Cors.queued_origin (Some "https://owenk944.github.io.evil.example") = true
  /\ Cors.simple_origin (Some "https://owenk944.github.io.evil.example")
     = false.
Proof.
  assert (N : ".evil.example"%string <> EmptyString) by discriminate.
  destruct (queued_origin_check_is_wider ".evil.example" N) as (A & B & _).
  split; [exact A | exact B].
Defined.

(** X9. Within a request no two encoder runs are given the same output
    path, whatever the clock returns, in all three revisions: no attempt
    overwrites the file of another. *)
Theorem attempts_never_share_an_output_path :
  forall rev cfg env req uploads r w',
    Revisions.upload rev cfg env req (start uploads) = (r, w') ->
    NoDup (outputs w').
Proof.
  intros rev cfg env req uploads r w' Hrun.
  assert (Hcase : rev <> Revisions.Earlier \/ rev = Revisions.Earlier)
    by (destruct rev; auto; left; discriminate).
  destruct Hcase as [Hrev | ->].
  - destruct (server_js_cases cfg env rev req uploads r w' Hrev Hrun)
      as [_ [[_ ->] | (f & ip & _ & H)]]; [constructor |].
    cbv zeta in H.
    destruct H as [[_ ->] | (init & sch & r1 & w1 & Hloop & _ & _ & _ & H)];
      [constructor |].
    destruct (loop_summary cfg env ip _ _ init sch (tick (start uploads))
                r1 w1 eq_refl (outName_permitted _) Hloop) as (Hnd & _).
    destruct H as [[_ ->] | (out & _ & _ & ->)]; exact Hnd.
  - cbn [Revisions.upload] in Hrun.
    destruct (legacy_cases cfg env req (start uploads) r w' eq_refl Hrun)
      as [(_ & _ & ->) | (f & _ & _ & H)]; [constructor |].
    cbv zeta in H.
    destruct H as [[_ ->] | (d & _ & [[_ ->] | (size & _ & [[_ ->] | [_ [[_ ->] | (size' & _ & ->)]]])])];
      unfold outputs; cbn [encodes add_timer with_res];
      rewrite ?encodes_left_behind;
      cbn [encodes add_timer with_res log_call put_file
             drop_file tick start app map call_output];
      repeat match goal with
             | |- NoDup [] => constructor
             | |- NoDup (_ :: _) => constructor
             | |- ~ In _ [] => intros []
             | |- ~ In _ [_] =>
                 intros [E | []]; symmetry in E; revert E;
                 apply retry_path_differs
             end.
Qed.

(** Four attempts of the queued revision, none of which fits. *)
Lemma attempts_never_share_an_output_path_witness :
  NoDup (outputs (snd (Revisions.upload Revisions.Second defaults never_fits
                         request (start uploaded)))).
Proof.
  exact (attempts_never_share_an_output_path Revisions.Second defaults
           never_fits request uploaded _ _ (surjective_pairing _)).
Defined.

(** X10. Every encoder run of a request, in all three revisions, reads the
    upload itself (never the output of an earlier attempt), with the
    configured audio bitrate and width, and writes to a file directly
    inside the temporary directory whose name holds only permitted
    characters, hence no path separator. *)
Theorem every_run_reads_the_upload_and_writes_in_tmp :
  forall rev cfg env req uploads r w' k c,
    Revisions.upload rev cfg env req (start uploads) = (r, w') ->
    nth_error (encodes w') k = Some c ->
    exists f name,
      file req = Some f
      /\ call_input c = path f
      /\ call_audioKbps c = AUDIO_KBPS cfg
      /\ call_maxWidth c = MAX_WIDTH cfg
      /\ call_output c = in_TMP_DIR name
      /\ Forall (fun x => permitted x = true) (chars name)
      /\ ~ In "/"%char (chars name).
Proof.
  intros rev cfg env req uploads r w' k c Hrun Hk.
  assert (Hslash : forall name,
             Forall (fun x => permitted x = true) (chars name) ->
             ~ In "/"%char (chars name)).
  { intros name Hall Hin. rewrite Forall_forall in Hall.
    specialize (Hall _ Hin). discriminate Hall. }
  assert (Hcase : rev <> Revisions.Earlier \/ rev = Revisions.Earlier)
    by (destruct rev; auto; left; discriminate).
  destruct Hcase as [Hrev | ->].
  - destruct (server_js_cases cfg env rev req uploads r w' Hrev Hrun)
      as [_ [[_ ->] | (f & ip & Hreq & H)]]; [destruct k; discriminate Hk |].
    apply inputPath_of_Some in Hreq. destruct Hreq as (Hf & Eip & _).
    cbv zeta in H.
    destruct H as [[_ ->] | (init & sch & r1 & w1 & Hloop & _ & _ & _ & H)];
      [destruct k; discriminate Hk |].
    destruct (loop_summary cfg env ip _ _ init sch (tick (start uploads))
                r1 w1 eq_refl (outName_permitted _) Hloop) as (_ & Hsh & _).
    assert (Hk1 : nth_error (encodes w1) k = Some c)
      by (destruct H as [[_ ->] | (out & _ & _ & ->)]; exact Hk).
    destruct (Hsh k c Hk1) as (A & B & C & _ & name & En & Hperm & _).
    exists f, name. rewrite <- Eip. repeat split; auto.
  - cbn [Revisions.upload] in Hrun.
    destruct (legacy_cases cfg env req (start uploads) r w' eq_refl Hrun)
      as [(_ & _ & ->) | (f & Hf & _ & H)]; [destruct k; discriminate Hk |].
    cbv zeta in H.
    assert (P0 : forall t,
               Forall (fun x => permitted x = true)
                 (chars (decimal t ++ "_" ++ outName (originalname f))%string)).
    { intros t. rewrite !chars_app. apply Forall_app.
      split; [apply decimal_permitted |]. apply Forall_app.
      split; [repeat constructor | apply outName_permitted]. }
    assert (P1 : forall t,
               Forall (fun x => permitted x = true)
                 (chars (decimal t ++ "_retry_"
                         ++ outName (originalname f))%string)).
    { intros t. rewrite !chars_app. apply Forall_app.
      split; [apply decimal_permitted |]. apply Forall_app.
      split; [repeat constructor | apply outName_permitted]. }
    destruct H as [[_ ->] | (d & _ & [[_ ->] | (size & _ & [[_ ->] | [_ [[_ ->] | (size' & _ & ->)]]])])];
      cbn [encodes add_timer with_res] in Hk;
      rewrite ?encodes_left_behind in Hk;
      cbn [encodes add_timer with_res log_call put_file drop_file tick start
             app] in Hk;
      repeat (destruct k as [| k]; [inversion Hk; subst c; clear Hk |
                                    cbn [nth_error] in Hk]);
      try discriminate Hk;
      try (destruct k; discriminate Hk);
      exists f; eexists; cbn [call_input call_output call_audioKbps
                                 call_maxWidth];
      (split; [exact Hf |]); (split; [reflexivity |]);
      (split; [reflexivity |]); (split; [reflexivity |]);
      (split; [reflexivity |]);
      (split; [first [apply P0 | apply P1]
              | apply Hslash; first [apply P0 | apply P1]]).
Qed.

(** The second attempt of the queued revision. *)
Lemma every_run_reads_the_upload_and_writes_in_tmp_witness :
  exists c f name,
    nth_error (encodes (snd (Revisions.upload Revisions.Second defaults
                               never_fits request (start uploaded)))) 1
    = Some c
    /\ file request = Some f
    /\ call_input c = path f
    /\ call_output c = in_TMP_DIR name
    /\ ~ In "/"%char (chars name).
Proof.
  destruct (nth_error (encodes (snd (Revisions.upload Revisions.Second
                                       defaults never_fits request
                                       (start uploaded)))) 1) as [c |] eqn:E;
    [| vm_compute in E; discriminate E].
  destruct (every_run_reads_the_upload_and_writes_in_tmp Revisions.Second
              defaults never_fits request uploaded _ _ 1%nat c
              (surjective_pairing _) E)
    as (f & name & A & B & _ & _ & C & _ & D).
  exists c, f, name. auto.
Defined.

(** X11. While it handles a request no revision creates, changes or
    deletes a file other than the outputs of its encoder runs; in
    particular the upload stays in place until the timer fires. *)
Theorem handler_touches_only_its_outputs :
  forall rev cfg env req uploads r w' p,
    Revisions.upload rev cfg env req (start uploads) = (r, w') ->
    ~ In p (outputs w') ->
    lookup p (files w') = lookup p uploads.
Proof.
  intros rev cfg env req uploads r w' p Hrun Hp.
  assert (Hcase : rev <> Revisions.Earlier \/ rev = Revisions.Earlier)
    by (destruct rev; auto; left; discriminate).
  destruct Hcase as [Hrev | ->].
  - destruct (server_js_cases cfg env rev req uploads r w' Hrev Hrun)
      as [_ [[_ ->] | (f & ip & _ & H)]]; [reflexivity |].
    cbv zeta in H.
    destruct H as [[_ ->] | (init & sch & r1 & w1 & Hloop & _ & _ & _ & H)];
      [reflexivity |].
    destruct (loop_summary cfg env ip _ _ init sch (tick (start uploads))
                r1 w1 eq_refl (outName_permitted _) Hloop) as (_ & _ & Hframe & _).
    assert (Hw : files w' = files w1 /\ outputs w' = outputs w1)
      by (destruct H as [[_ ->] | (out & _ & _ & ->)]; split; reflexivity).
    destruct Hw as [-> Ho]. rewrite Ho in Hp.
    rewrite (Hframe p); [reflexivity |].
    intros k c Hk Hc. exfalso. apply Hp. unfold outputs. rewrite <- Hc.
    apply in_map. eapply nth_error_In. exact Hk.
  - cbn [Revisions.upload] in Hrun.
    destruct (legacy_cases cfg env req (start uploads) r w' eq_refl Hrun)
      as [(_ & _ & ->) | (f & _ & _ & H)]; [reflexivity |].
    cbv zeta in H.
    destruct H as [[_ ->] | (d & _ & [[_ ->] | (size & _ & [[_ ->] | [_ [[_ ->] | (size' & _ & ->)]]])])];
      unfold outputs in Hp;
      cbn [encodes files add_timer with_res] in Hp |- *;
      rewrite ?encodes_left_behind in Hp;
      repeat match goal with
             | |- context [left_behind _ (leaves ?e ?j ?x) _] =>
                 destruct (leaves e j x)
             end;
      cbn [left_behind encodes files add_timer with_res log_call put_file
             drop_file tick start app map call_output] in Hp |- *;
      rewrite ?lookup_remove_other, ?lookup_write_other;
      try reflexivity;
      intros ->; apply Hp; cbn [In]; auto.
Qed.

(** The upload is still on disk when the queued revision has answered. *)
Lemma handler_touches_only_its_outputs_witness :
  lookup "tmp/3f2a9c"
    (files (snd (Revisions.upload Revisions.Second defaults never_fits
                   request (start uploaded))))
  = lookup "tmp/3f2a9c" uploaded.
Proof.
  refine (handler_touches_only_its_outputs Revisions.Second defaults
            never_fits request uploaded _ _ "tmp/3f2a9c"
            (surjective_pairing _) _).
  vm_compute. intros H.
  repeat (destruct H as [H | H]; [discriminate H |]). exact H.
Defined.





(** X14. The first revision of [server.js] leaves the output of its second
    attempt on disk for good whenever the encoder runs a third time: that
    file is written, it is on no timer's list (only the upload, the first
    and the last output are), and it is still there, with the size the
    encoder wrote, once the timer has fired.  The upload's name holds no
    underscore, as the names multer picks do. *)
Theorem first_revision_leaves_the_middle_attempt :
  forall cfg env req uploads r w' f c2,
    Simple.upload cfg env req (start uploads) = (r, w') ->
    file req = Some f ->
    ~ In "_"%char (chars (path f)) ->
    nth_error (encodes w') 2 = Some c2 ->
    exists c1 size,
      nth_error (encodes w') 1 = Some c1
      /\ ffmpeg env 1 c1 = Writes size
      /\ ~ In (call_output c1) (scheduled w')
      /\ lookup (call_output c1) (after_timers w') = Some size.
Proof.
  intros cfg env req uploads r w' f c2 Hrun Hf Hus Hk2.
  destruct (server_js_cases cfg env Revisions.First req uploads r w'
              ltac:(discriminate) Hrun)
    as [_ [[_ ->] | (f0 & ip & Hreq & H)]]; [discriminate Hk2 |].
  apply inputPath_of_Some in Hreq. destruct Hreq as (Hf0 & Eip & _).
  assert (f0 = f) by congruence. subst f0.
  cbv beta iota zeta in H.
  destruct H as [[_ ->] | (init & sch & r1 & w1 & Hloop & _ & Htim & Hsch & H)];
    [discriminate Hk2 |].
  destruct (loop_summary cfg env ip _ _ init sch (tick (start uploads))
              r1 w1 eq_refl (outName_permitted _) Hloop)
    as (_ & Hsh & _ & Hwritten & Hwrote & _ & Hlast & Hdist).
  set (firstOut := in_TMP_DIR _) in *.
  assert (Hk2' : nth_error (encodes w1) 2 = Some c2)
    by (destruct H as [[_ ->] | (out & _ & _ & ->)]; exact Hk2).
  assert (L : (2 < List.length (encodes w1))%nat)
    by (apply nth_error_Some; congruence).
  destruct (nth_error (encodes w1) 1) as [c1 |] eqn:Hc1;
    [| apply nth_error_None in Hc1; lia].
  destruct (nth_error (encodes w1) 0) as [c0 |] eqn:Hc0;
    [| apply nth_error_None in Hc0; lia].
  destruct (Hwrote 1%nat c1 Hc1 (or_introl L)) as (size & Hw).
  pose proof (Hwritten 1%nat c1 size Hc1 Hw) as Hdisk.
  assert (Hip : call_output c1 <> ip).
  { intros E. apply Hus. rewrite <- Eip, <- E.
    destruct (Hsh 1%nat c1 Hc1) as (_ & _ & _ & _ & name & _ & _ & U). exact U. }
  assert (Hfo : call_output c1 <> firstOut).
  { intros E. destruct (Hsh 0%nat c0 Hc0) as (_ & _ & _ & A & _).
    rewrite <- (A eq_refl) in E. apply Hdist with (j := 1%nat) (j' := 0%nat) in E;
      [discriminate E | exact Hc1 | exact Hc0]. }
  assert (Hns : ~ In (call_output c1) (scheduled w')).
  { destruct H as [[_ ->] | (out & -> & _ & ->)];
      unfold scheduled; cbn [timers add_timer with_res]; rewrite Htim;
      cbn [app flat_map fst].
    - intros [E | [E | []]]; [apply Hip | apply Hfo]; auto.
    - destruct (Hlast out eq_refl Hsch) as (c_last & Hc_last & Eout).
      assert (Hout : call_output c1 <> out).
      { intros E. rewrite Eout in E.
        apply Hdist with (j := 1%nat)
                         (j' := Nat.pred (List.length (encodes w1))) in E;
          [lia | exact Hc1 | exact Hc_last]. }
      destruct (String.eqb firstOut out); cbn [app];
        [intros [E | [E | []]] | intros [E | [E | [E | []]]]]; auto. }
  exists c1, size.
  split; [destruct H as [[_ ->] | (out & _ & _ & ->)]; exact Hc1 |].
  split; [exact Hw |]. split; [exact Hns |].
  rewrite (after_timers_other w' _ Hns).
  destruct H as [[_ ->] | (out & _ & _ & ->)]; exact Hdisk.
Qed.

(** Three attempts, none of which fits. *)
Lemma first_revision_leaves_the_middle_attempt_witness :
  exists c1 size,
    nth_error (encodes (snd (Simple.upload defaults never_fits request
                               (start uploaded)))) 1 = Some c1
    /\ ffmpeg never_fits 1 c1 = Writes size
    /\ ~ In (call_output c1)
            (scheduled (snd (Simple.upload defaults never_fits request
                               (start uploaded))))
    /\ lookup (call_output c1)
         (after_timers (snd (Simple.upload defaults never_fits request
                               (start uploaded)))) = Some size.
Proof.
  destruct (nth_error (encodes (snd (Simple.upload defaults never_fits request
                                       (start uploaded)))) 2) as [c2 |] eqn:E;
    [| vm_compute in E; discriminate E].
  refine (first_revision_leaves_the_middle_attempt defaults never_fits request
            uploaded _ _ _ c2 (surjective_pairing _) eq_refl _ E).
  vm_compute. intros H.
  repeat (destruct H as [H | H]; [discriminate H |]). exact H.
Defined.

(** X15. The queued revision leaves on disk for good every output it does
    not stream: whether the request ends in a download or in a 500, a file
    that an encoder run wrote and that is not the one piped to the
    response is on no timer's list and is still there, with the size the
    encoder wrote, once the timer has fired.  The upload's name holds no
    underscore, as the names multer picks do. *)
Theorem queued_revision_leaves_every_superseded_attempt :
  forall cfg env req uploads r w' f k c size,
    Queued.upload cfg env req (start uploads) = (r, w') ->
    file req = Some f ->
    ~ In "_"%char (chars (path f)) ->
    nth_error (encodes w') k = Some c ->
    ffmpeg env k c = Writes size ->
    body (res w') <> Some (Piped (call_output c)) ->
    ~ In (call_output c) (scheduled w')
    /\ lookup (call_output c) (after_timers w') = Some size.
Proof.
  intros cfg env req uploads r w' f k c size Hrun Hf Hus Hk Hw Hbody.
  destruct (server_js_cases cfg env Revisions.Second req uploads r w'
              ltac:(discriminate) Hrun)
    as [_ [[_ ->] | (f0 & ip & Hreq & H)]];
    [destruct k; discriminate Hk |].
  apply inputPath_of_Some in Hreq. destruct Hreq as (Hf0 & Eip & _).
  assert (f0 = f) by congruence. subst f0.
  cbv beta iota zeta in H.
  destruct H as [[_ ->] | (init & sch & r1 & w1 & Hloop & _ & Htim & Hsch & H)];
    [destruct k; discriminate Hk |].
  destruct (loop_summary cfg env ip _ _ init sch (tick (start uploads))
              r1 w1 eq_refl (outName_permitted _) Hloop)
    as (_ & Hsh & _ & Hwritten & _).
  assert (Hk' : nth_error (encodes w1) k = Some c)
    by (destruct H as [[_ ->] | (out & _ & _ & ->)]; exact Hk).
  pose proof (Hwritten k c size Hk' Hw) as Hdisk.
  assert (Hip : call_output c <> ip).
  { intros E. apply Hus. rewrite <- Eip, <- E.
    destruct (Hsh k c Hk') as (_ & _ & _ & _ & name & _ & _ & U). exact U. }
  assert (Hns : ~ In (call_output c) (scheduled w')).
  { destruct H as [[_ ->] | (out & -> & _ & ->)];
      unfold scheduled; cbn [timers add_timer with_res]; rewrite Htim;
      cbn [app flat_map fst].
    - intros [E | []]. apply Hip. auto.
    - intros [E | [E | []]]; [apply Hip; auto |].
      apply Hbody. cbn [body res add_timer with_res with_pipe]. rewrite E.
      reflexivity. }
  split; [exact Hns |].
  rewrite (after_timers_other w' _ Hns).
  destruct H as [[_ ->] | (out & _ & _ & ->)]; exact Hdisk.
Qed.

(** The second attempt fits and is streamed; the first output stays. *)
Lemma queued_revision_leaves_every_superseded_attempt_witness :
  exists c,
    nth_error (encodes (snd (Queued.upload defaults fits_at_index_1 request
                               (start uploaded)))) 0 = Some c
    /\ ~ In (call_output c)
            (scheduled (snd (Queued.upload defaults fits_at_index_1 request
                               (start uploaded))))
    /\ lookup (call_output c)
         (after_timers (snd (Queued.upload defaults fits_at_index_1 request
                               (start uploaded)))) = Some (12 * MiB).
Proof.
  destruct (nth_error (encodes (snd (Queued.upload defaults fits_at_index_1
                                       request (start uploaded)))) 0)
    as [c |] eqn:E; [| vm_compute in E; discriminate E].
  exists c. split; [reflexivity |].
  refine (queued_revision_leaves_every_superseded_attempt defaults
            fits_at_index_1 request uploaded _ _ _ 0%nat c (12 * MiB)
            (surjective_pairing _) eq_refl _ E eq_refl _).
  - vm_compute. intros H.
    repeat (destruct H as [H | H]; [discriminate H |]). exact H.
  - vm_compute in E. inversion E; subst c. vm_compute. intros C.
    discriminate C.
Defined.

(** X16. The handlers of [server.js] always complete: whatever the probe
    and the encoder do, the failure is caught and answered.  The handler of
    the earlier revision rejects in exactly one case, a request without a
    file, where [req.file.path] is read before the [try]; it then leaves
    the response, the disk and the timers untouched. *)
Theorem only_the_earlier_revision_can_reject :
  forall rev cfg env req uploads r w',
    Revisions.upload rev cfg env req (start uploads) = (r, w') ->
    (r = Throw <-> rev = Revisions.Earlier /\ file req = None)
    /\ (r = Throw -> w' = start uploads)
    /\ (r <> Throw -> body (res w') <> None).
Proof.
  intros rev cfg env req uploads r w' Hrun.
  assert (Hcase : rev <> Revisions.Earlier \/ rev = Revisions.Earlier)
    by (destruct rev; auto; left; discriminate).
  destruct Hcase as [Hrev | ->].
  - destruct (server_js_cases cfg env rev req uploads r w' Hrev Hrun)
      as [-> H].
    split; [split; [discriminate | intros [C _]; contradiction] |].
    split; [discriminate |]. intros _.
    destruct H as [[_ ->] | (f & ip & _ & H)]; [discriminate |].
    cbv zeta in H.
    destruct H as [[_ ->] | (init & sch & r1 & w1 & _ & _ & _ & _ & [[_ ->] | (out & _ & _ & ->)])];
      discriminate.
  - cbn [Revisions.upload] in Hrun.
    destruct (legacy_cases cfg env req (start uploads) r w' eq_refl Hrun)
      as [(Hf & -> & ->) | (f & Hf & -> & H)].
    + split; [split; auto |]. split; [reflexivity | congruence].
    + split; [split; [discriminate | intros [_ C]; congruence] |].
      split; [discriminate |]. intros _. cbv zeta in H.
      destruct H as [[_ ->] | (d & _ & [[_ ->] | (size & _ & [[_ ->] | [_ [[_ ->] | (size' & _ & ->)]]])])];
        discriminate.
Qed.

(** A request without a file, sent to the earlier revision. *)
Lemma only_the_earlier_revision_can_reject_witness :
  fst (Revisions.upload Revisions.Earlier defaults never_fits
         {| file := None |} (start uploaded)) = Throw
  /\ snd (Revisions.upload Revisions.Earlier defaults never_fits
            {| file := None |} (start uploaded)) = start uploaded.
Proof.
  destruct (only_the_earlier_revision_can_reject Revisions.Earlier defaults
              never_fits {| file := None |} uploaded _ _
              (surjective_pairing _)) as (A & B & _).
  assert (T : fst (Revisions.upload Revisions.Earlier defaults never_fits
                     {| file := None |} (start uploaded)) = Throw)
    by (apply A; split; reflexivity).
  split; [exact T | exact (B T)].
Defined.



(** X18. An upload that finds a free slot is started in the same turn, and
    then nobody was waiting; an upload that finds every slot taken joins
    the tail of the queue and nothing else changes. *)
Theorem upload_starts_at_once_or_joins_the_tail :
  forall CONCURRENCY s,
    Queue.reachable CONCURRENCY s ->
    exists s',
      Queue.step CONCURRENCY s Queue.Upload = Some s'
      /\ Queue.arrived s' = S (Queue.arrived s)
      /\ ((Queue.running s < CONCURRENCY
           /\ Queue.queue s = [] /\ Queue.queue s' = []
           /\ Queue.running s' = Queue.running s + 1
           /\ Queue.history s'
              = Queue.history s ++ [Queue.Started (Queue.arrived s)])
          \/ (CONCURRENCY <= Queue.running s
              /\ Queue.queue s' = Queue.queue s ++ [Queue.arrived s]
              /\ Queue.running s' = Queue.running s
              /\ Queue.inside s' = Queue.inside s
              /\ Queue.history s' = Queue.history s)).
Proof.
  intros C s [inputs Hrun].
  assert (B : Queue.busy_or_idle C s).
  { eapply QueueMore.busy_or_idle_run; [| exact Hrun]. left. reflexivity. }
  eexists. split; [reflexivity |].
  unfold Queue.enqueue, Queue.pump.
  cbn [Queue.queue Queue.running Queue.inside Queue.settled Queue.arrived
       Queue.history].
  destruct (Queue.running s >=? C) eqn:E.
  - cbn [orb Queue.queue Queue.running Queue.inside Queue.settled
         Queue.arrived Queue.history].
    split; [reflexivity |]. right.
    rewrite Z.geb_leb in E. apply Z.leb_le in E. auto.
  - rewrite Z.geb_leb in E. apply Z.leb_gt in E.
    destruct B as [Hq | Hfull]; [| lia]. rewrite Hq.
    cbn [app List.length Nat.eqb orb Queue.queue Queue.running Queue.inside
         Queue.settled Queue.arrived Queue.history].
    split; [reflexivity |]. left. auto.
Qed.

(** The second upload of two, with one slot: it joins the tail. *)
Lemma upload_starts_at_once_or_joins_the_tail_witness :
  exists s',
    Queue.step 1 (Queue.enqueue 1 Queue.init) Queue.Upload = Some s'
    /\ Queue.queue s' = [1%nat]
    /\ Queue.history s' = [Queue.Started 0%nat].
Proof.
  destruct (upload_starts_at_once_or_joins_the_tail 1
              (Queue.enqueue 1 Queue.init)
              (ex_intro _ [Queue.Upload] eq_refl))
    as (s' & Hs & _ & [(C & _) | (_ & Hq & _ & _ & Hh)]).
  - vm_compute in C. discriminate C.
  - exists s'. split; [exact Hs |]. split; [exact Hq | exact Hh].
Defined.

(** X19. The earlier revision never measures its retry against the target:
    once the retry has been encoded, whatever its size, the first output
    is unlinked at once, the retry is streamed with status 200, and the
    timer is given the upload and the retry. *)
Theorem earlier_revision_streams_the_retry_unchecked :
  forall cfg env req uploads r w' c0 c1 size1,
    Legacy.upload cfg env req (start uploads) = (r, w') ->
    encodes w' = [c0; c1] ->
    ffmpeg env 1 c1 = Writes size1 ->
    statusCode (res w') = 200
    /\ body (res w') = Some (Piped (call_output c1))
    /\ lookup (call_output c1) (files w') = Some size1
    /\ lookup (call_output c0) (files w') = None
    /\ scheduled w' = [call_input c1; call_output c1].
Proof.
  intros cfg env req uploads r w' c0 c1 size1 Hrun Henc Hw.
  destruct (legacy_cases cfg env req (start uploads) r w' eq_refl Hrun)
    as [(_ & _ & ->) | (f & Hf & _ & H)]; [discriminate Henc |].
  cbv zeta in H.
  destruct H as [[_ ->] | (d & _ & [[_ ->] | (size & _ & [[_ ->] | [_ [[Hrej ->] | (size' & Hw1 & ->)]]])])];
    cbn [encodes add_timer with_res] in Henc;
    rewrite ?encodes_left_behind in Henc;
    cbn [encodes add_timer with_res log_call put_file drop_file tick start
           app] in Henc;
    try discriminate Henc.
  - inversion Henc; subst c0 c1.
    pose proof (eq_trans (eq_sym Hrej) Hw) as C. discriminate C.
  - inversion Henc; subst c0 c1.
    pose proof (eq_trans (eq_sym Hw1) Hw) as Es. inversion Es; subst size'.
    cbn [res statusCode body files add_timer with_res with_pipe
           with_download_headers fresh_res drop_file put_file log_call tick
           start call_output call_input].
    split; [reflexivity |]. split; [reflexivity |].
    split.
    { rewrite lookup_remove_other; [apply lookup_write |].
      intros E. symmetry in E. revert E. apply retry_path_differs. }
    split; [apply lookup_remove | reflexivity].
Qed.

(** A retry of 11 MB, above the default target, is streamed all the same. *)
Lemma earlier_revision_streams_the_retry_unchecked_witness :
  exists c1,
    nth_error (encodes (snd (Legacy.upload defaults never_fits request
                               (start uploaded)))) 1 = Some c1
    /\ ffmpeg never_fits 1 c1 = Writes (11 * MiB)
    /\ le (of_Z (11 * MiB)) (targetBytes defaults) = false
    /\ statusCode (res (snd (Legacy.upload defaults never_fits request
                               (start uploaded)))) = 200
    /\ body (res (snd (Legacy.upload defaults never_fits request
                         (start uploaded)))) = Some (Piped (call_output c1)).
Proof.
  destruct (encodes (snd (Legacy.upload defaults never_fits request
                            (start uploaded)))) as [| c0 [| c1 [| c2 more]]]
    eqn:E; try (vm_compute in E; discriminate E).
  exists c1. split; [reflexivity |]. split; [reflexivity |].
  split; [vm_compute; reflexivity |].
  destruct (earlier_revision_streams_the_retry_unchecked defaults never_fits
              request uploaded _ _ c0 c1 (11 * MiB)
              (surjective_pairing _) E eq_refl) as (A & B & _).
  split; [exact A | exact B].
Defined.

(** The loop of a request all of whose attempts are written and measured
    above the target: compare [Hloop] with the run [loop_exhausts] gives. *)
Ltac exhaust Hloop Hover Hlen :=
  match type of Hloop with
  | size_loop ?c ?e ?ip ?on ?fo ?init ?fs _ ?lo ?vk ?w0 = _ =>
      let out := fresh "out" in
      let w2 := fresh "w" in
      let Hrun2 := fresh "Hrun" in
      destruct (loop_exhausts c e ip on fo init fs [] lo vk w0 eq_refl
                  (Hover _)) as (out & w2 & Hrun2 & Hlen & _);
      cbn [List.length app] in Hrun2, Hlen;
      rewrite Hloop in Hrun2; inversion Hrun2; subst
  end.

(** X20. An unparsable [TARGET_MB] is not caught: [targetBytes] is then
    [NaN], no comparison with it holds, and so no attempt ever fits.  With
    a probe that answers and an encoder that always writes, the two
    revisions of [server.js] run their whole schedule (three and four
    attempts) and stream the last output, while the earlier revision,
    which asks whether the size is above the target, never retries. *)
Theorem unparsable_target_never_fits :
  forall cfg env req uploads f d,
    TARGET_MB cfg = NaN ->
    file req = Some f ->
    path f <> EmptyString ->
    ffprobe env (path f) = Some {| format := Some {| duration := d |} |} ->
    (forall k c, exists size, ffmpeg env k c = Writes size) ->
    let simple := snd (Simple.upload cfg env req (start uploads)) in
    let queued := snd (Queued.upload cfg env req (start uploads)) in
    let earlier := snd (Legacy.upload cfg env req (start uploads)) in
    (List.length (encodes simple) = 3%nat /\ statusCode (res simple) = 200)
    /\ (List.length (encodes queued) = 4%nat /\ statusCode (res queued) = 200)
    /\ (List.length (encodes earlier) = 1%nat
        /\ statusCode (res earlier) = 200).
Proof.
  intros cfg env req uploads f d HT Hf Hpath Hprobe Hall. cbv zeta.
  assert (HB : targetBytes cfg = NaN)
    by (unfold targetBytes; rewrite HT; reflexivity).
  assert (Hover : forall n k c, (k < n)%nat ->
             exists size, ffmpeg env k c = Writes size
                          /\ le (of_Z size) (targetBytes cfg) = false).
  { intros n k c _. destruct (Hall k c) as [size Hs]. exists size.
    split; [exact Hs | rewrite HB; reflexivity]. }
  assert (Hno : inputPath_of req <> None).
  { intros C. destruct (inputPath_of_None req C) as [C' | (g & C1 & C2)];
      congruence. }
  split; [| split].
  - destruct (Simple.upload cfg env req (start uploads)) as [r w'] eqn:Hrun.
    cbn [snd].
    destruct (simple_cases cfg env req _ r w' Hrun)
      as [_ [[Hreq _] | (f0 & ip & Hreq & H)]]; [contradiction |].
    destruct (inputPath_of_Some req f0 ip Hreq) as (Hf0 & -> & _).
    assert (f0 = f) by congruence. subst f0. cbv zeta in H.
    destruct H as [[Hp _] | (meta & _ & H)]; [congruence |].
    destruct H as [(w1 & Hloop & ->) | (out1 & w1 & Hloop & _ & ->)];
      exhaust Hloop Hover Hlen.
    destruct (loop_frame _ _ _ _ _ _ _ _ _ _ _ _ _ Hloop) as [Hres _].
    cbn [encodes res statusCode add_timer with_res with_pipe
           with_download_headers].
    rewrite Hres. split; [exact Hlen | reflexivity].
  - destruct (Queued.upload cfg env req (start uploads)) as [r w'] eqn:Hrun.
    cbn [snd].
    destruct (queued_cases cfg env req _ r w' Hrun)
      as [_ [[Hreq _] | (f0 & ip & Hreq & H)]]; [contradiction |].
    destruct (inputPath_of_Some req f0 ip Hreq) as (Hf0 & -> & _).
    assert (f0 = f) by congruence. subst f0. cbv zeta in H.
    destruct H as [[Hp _] | (meta & _ & H)]; [congruence |].
    destruct H as [(w1 & Hloop & ->) | (out1 & w1 & Hloop & _ & ->)];
      exhaust Hloop Hover Hlen.
    destruct (loop_frame _ _ _ _ _ _ _ _ _ _ _ _ _ Hloop) as [Hres _].
    cbn [encodes res statusCode add_timer with_res with_pipe
           with_download_headers].
    rewrite Hres. split; [exact Hlen | reflexivity].
  - destruct (Legacy.upload cfg env req (start uploads)) as [r w'] eqn:Hrun.
    cbn [snd].
    destruct (legacy_cases cfg env req (start uploads) r w' eq_refl Hrun)
      as [(C & _) | (f0 & Hf0 & _ & H)]; [congruence |].
    assert (f0 = f) by congruence. subst f0. cbv zeta in H.
    destruct H as [[[C | C] _] | (d0 & _ & H)]; [congruence | congruence |].
    destruct H as [[C _] | (size & _ & H)].
    { destruct (Hall 0%nat
                  {| call_input := path f;
                     call_output :=
                       in_TMP_DIR
                         (decimal (Date_now env (ticks (start uploads)))
                          ++ "_" ++ outName (originalname f))%string;
                     call_videoKbps :=
                       Legacy.videoKbps cfg
                         (Legacy.totalKbps cfg (Legacy.duration d0));
                     call_audioKbps := AUDIO_KBPS cfg;
                     call_maxWidth := MAX_WIDTH cfg |}) as [size Hs].
      rewrite C in Hs. discriminate Hs. }
    destruct H as [[_ ->] | [C _]]; [split; reflexivity |].
    rewrite HB in C. discriminate C.
Qed.

(** [TARGET_MB=abc], with an encoder that writes 1 MiB every time. *)
Lemma unparsable_target_never_fits_witness :
  List.length
    (encodes (snd (Queued.upload
                     {| TARGET_MB := NaN; AUDIO_KBPS := of_Z 96;
                        MAX_WIDTH := of_Z 1280 |}
                     (host [] (Writes MiB)) request (start uploaded))))
  = 4%nat
  /\ List.length
       (encodes (snd (Legacy.upload
                        {| TARGET_MB := NaN; AUDIO_KBPS := of_Z 96;
                           MAX_WIDTH := of_Z 1280 |}
                        (host [] (Writes MiB)) request (start uploaded))))
     = 1%nat.
Proof.
  destruct (unparsable_target_never_fits
              {| TARGET_MB := NaN; AUDIO_KBPS := of_Z 96;
                 MAX_WIDTH := of_Z 1280 |}
              (host [] (Writes MiB)) request uploaded
              {| path := "tmp/3f2a9c";
                 originalname := Some "../../evil name!.mov" |}
              (Num (of_Z 30)) eq_refl eq_refl)
    as (_ & (A & _) & (B & _)).
  - discriminate.
  - reflexivity.
  - intros k c. exists MiB. destruct k; reflexivity.
  - split; [exact A | exact B].
Defined.

(** X21. With a [TARGET_MB] and a whole [AUDIO_KBPS] (what [parseInt]
    returns when it parses) of at most [2^1000] in magnitude, and a probe
    that reports a finite duration or none, every video bitrate handed to
    the encoder, in all three revisions, is a whole number of kbps and at
    least 48. *)
Theorem every_bitrate_is_a_whole_number :
  forall rev cfg env req uploads r w' m a k c,
    TARGET_MB cfg = Fin m -> (Qabs m <= 2 ^ 1000)%Q ->
    AUDIO_KBPS cfg = of_Z a -> Z.abs a <= 2 ^ 1000 ->
    (forall f meta,
       file req = Some f -> ffprobe env (path f) = Some meta ->
       exists seconds, Queued.duration meta = Fin seconds) ->
    Revisions.upload rev cfg env req (start uploads) = (r, w') ->
    nth_error (encodes w') k = Some c ->
    exists z, call_videoKbps c = of_Z z /\ 48 <= z.
Proof.
  intros rev cfg env req uploads r w' m a k c Hm Bm Ha Ba Hfinite Hrun Hk.
  destruct (request_bitrates cfg env rev req uploads r w' k c Hrun Hk)
    as (f & meta & Hf & Hmeta & H).
  cbv zeta in H.
  destruct (Hfinite f meta Hf Hmeta) as (q & Eq).
  assert (Hq : (1 <= q)%Q).
  { pose proof Eq as E. unfold Queued.duration in E.
    apply finite_duration in E. exact E. }
  apply Qabs_Qle_condition in Bm. destruct Bm as [Lm Um].
  destruct (targetBytes_bounded cfg m Hm Lm Um) as (tb & Etb & Ltb & Utb).
  assert (Za : (- 2 ^ 1000 <= inject_Z a /\ inject_Z a <= 2 ^ 1000)%Q).
  { rewrite <- (pow2_Z 1000) by lia. rewrite <- inject_Z_opp, <- !Zle_Qle.
    lia. }
  destruct Za as [La Ua].
  destruct (plan_integer 200 64 q tb a Hq Ltb Utb La Ua
              ltac:(lia) ltac:(lia)) as (z1 & P1 & Hz1 & U1).
  destruct (plan_integer 180 56 q tb a Hq Ltb Utb La Ua
              ltac:(lia) ltac:(lia)) as (z2 & P2 & Hz2 & U2).
  destruct (revisions_plan cfg (Queued.duration meta)) as (E1 & E2 & E3).
  rewrite Eq, Etb, Ha in E1, E2, E3. rewrite P1 in E1, E3. rewrite P2 in E2.
  rewrite Eq in H. clear P1 P2.
  destruct literal_values as (L1 & L2 & L3 & L4 & L5).
  destruct literal_signs as (S1 & S2 & S3 & S4 & S5).
  assert (T1 : (rn (56 # 100) <= 1 /\ rn (68 # 100) <= 1
                /\ rn (72 # 100) <= 1)%Q) by (repeat split; lra).
  destruct T1 as (T1 & T2 & T3).
  destruct rev.
  - destruct H as [Hlt H]. rewrite E1 in H. rewrite H.
    destruct k as [| [| [| k]]]; [| | | lia];
      unfold Spec.videoKbpsNow, Simple.passes, literal; cbn [Nat.eqb nth].
    + exists z1. split; [reflexivity | lia].
    + apply scaled_integer; [lia | assumption ..].
    + apply scaled_integer; [lia | assumption ..].
  - destruct H as [Hlt H]. rewrite E2 in H. rewrite H.
    destruct k as [| [| [| [| k]]]]; [| | | | lia];
      unfold Spec.videoKbpsNow, Queued.factors, literal; cbn [Nat.eqb nth].
    + exists z2. split; [reflexivity | lia].
    + apply scaled_integer; [lia | assumption ..].
    + apply scaled_integer; [lia | assumption ..].
    + apply scaled_integer; [lia | assumption ..].
  - rewrite E3 in H. destruct H as [[_ ->] | [_ ->]].
    + exists z1. split; [reflexivity | lia].
    + unfold Legacy.retryKbps, literal.
      apply scaled_integer; [lia | assumption ..].
Qed.

(** The second attempt of the thirty-second example: 2168 kbps. *)
Lemma every_bitrate_is_a_whole_number_witness :
  (Qabs (rn (98 # 10)) <= 2 ^ 1000)%Q
  /\ Z.abs 96 <= 2 ^ 1000
  /\ (forall f meta,
        file request = Some f -> ffprobe never_fits (path f) = Some meta ->
        exists seconds, Queued.duration meta = Fin seconds)
  /\ exists c z,
       nth_error (encodes (snd (Revisions.upload Revisions.Second defaults
                                  never_fits request (start uploaded)))) 1
       = Some c
       /\ call_videoKbps c = of_Z z /\ 48 <= z.
Proof.
  assert (Bm : (Qabs (rn (98 # 10)) <= 2 ^ 1000)%Q)
    by (vm_compute; discriminate).
  assert (Ba : Z.abs 96 <= 2 ^ 1000) by (vm_compute; discriminate).
  assert (Hprobe : forall f meta,
             file request = Some f ->
             ffprobe never_fits (path f) = Some meta ->
             exists seconds, Queued.duration meta = Fin seconds).
  { intros f meta _ Hmeta. inversion Hmeta; subst meta.
    eexists. vm_compute. reflexivity. }
  split; [exact Bm |]. split; [exact Ba |]. split; [exact Hprobe |].
  destruct (nth_error (encodes (snd (Revisions.upload Revisions.Second
                                       defaults never_fits request
                                       (start uploaded)))) 1) as [c |] eqn:E;
    [| vm_compute in E; discriminate E].
  destruct (every_bitrate_is_a_whole_number Revisions.Second defaults
              never_fits request uploaded _ _ (rn (98 # 10)) 96 1%nat c
              eq_refl Bm eq_refl Ba Hprobe (surjective_pairing _) E)
    as (z & Hz).
  exists c, z. split; [reflexivity | exact Hz].
Defined.

(** X22. An unparsable [TARGET_MB] or [AUDIO_KBPS] is not caught by the
    floors of the planner: [Math.max] and [Math.floor] pass [NaN] on, so
    every video bitrate handed to the encoder is [NaN], in all three
    revisions and at every attempt. *)
Theorem unparsable_setting_poisons_every_bitrate :
  forall rev cfg env req uploads r w' k c,
    TARGET_MB cfg = NaN \/ AUDIO_KBPS cfg = NaN ->
    Revisions.upload rev cfg env req (start uploads) = (r, w') ->
    nth_error (encodes w') k = Some c ->
    call_videoKbps c = NaN.
Proof.
  intros rev cfg env req uploads r w' k c Hcfg Hrun Hk.
  destruct (request_bitrates cfg env rev req uploads r w' k c Hrun Hk)
    as (f & meta & _ & _ & H).
  cbv zeta in H.
  assert (Hplan : forall ft fv d,
             Spec.plan (of_Z ft) (of_Z fv) d (targetBytes cfg)
               (AUDIO_KBPS cfg) = NaN).
  { intros ft fv d. unfold Spec.plan, Spec.totalKbps.
    destruct Hcfg as [Ht | Ha].
    - unfold targetBytes. rewrite Ht. reflexivity.
    - rewrite Ha. destruct (Math_max (of_Z ft) _); reflexivity. }
  destruct (revisions_plan cfg (Queued.duration meta)) as (E1 & E2 & E3).
  rewrite Hplan in E1, E2, E3.
  assert (Hnow : forall schedule j,
             Spec.videoKbpsNow NaN schedule j = NaN).
  { intros schedule j. unfold Spec.videoKbpsNow.
    destruct (Nat.eqb j 0); reflexivity. }
  destruct rev.
  - destruct H as [_ H]. rewrite E1 in H. rewrite H. apply Hnow.
  - destruct H as [_ H]. rewrite E2 in H. rewrite H. apply Hnow.
  - rewrite E3 in H. destruct H as [[_ ->] | [_ ->]]; reflexivity.
Qed.

(** [AUDIO_KBPS=abc]: the first attempt of the queued revision. *)
Lemma unparsable_setting_poisons_every_bitrate_witness :
  exists c,
    nth_error
      (encodes (snd (Revisions.upload Revisions.Second
                       {| TARGET_MB := literal (98 # 10); AUDIO_KBPS := NaN;
                          MAX_WIDTH := of_Z 1280 |}
                       never_fits request (start uploaded)))) 0
    = Some c
    /\ call_videoKbps c = NaN.
Proof.
  destruct (nth_error
              (encodes (snd (Revisions.upload Revisions.Second
                               {| TARGET_MB := literal (98 # 10);
                                  AUDIO_KBPS := NaN;
                                  MAX_WIDTH := of_Z 1280 |}
                               never_fits request (start uploaded)))) 0)
    as [c |] eqn:E; [| vm_compute in E; discriminate E].
  exists c. split; [reflexivity |].
  exact (unparsable_setting_poisons_every_bitrate Revisions.Second
           {| TARGET_MB := literal (98 # 10); AUDIO_KBPS := NaN;
              MAX_WIDTH := of_Z 1280 |}
           never_fits request uploaded _ _ 0%nat c (or_intror eq_refl)
           (surjective_pairing _) E).
Defined.

(** X23. On a request with a file whose probe reports a format, and with a
    finite target, the earlier revision does what the first revision of
    [server.js] does, cut after two attempts: the first encoder run is the
    same call, a second run happens in the one exactly when it happens in
    the other, and it is asked for the same bitrate. *)
Theorem earlier_revision_is_the_first_cut_after_two :
  forall cfg env req uploads f m,
    TARGET_MB cfg = Fin m ->
    file req = Some f ->
    path f <> EmptyString ->
    (forall meta, ffprobe env (path f) = Some meta -> format meta <> None) ->
    let earlier := encodes (snd (Legacy.upload cfg env req (start uploads))) in
    let first := encodes (snd (Simple.upload cfg env req (start uploads))) in
    firstn 1 earlier = firstn 1 first
    /\ map call_videoKbps earlier = firstn 2 (map call_videoKbps first).
Proof.
  intros cfg env req uploads f m Hm Hf Hpath Hformat. cbv zeta.
  destruct (Legacy.upload cfg env req (start uploads)) as [rL wL] eqn:HL.
  destruct (Simple.upload cfg env req (start uploads)) as [rS wS] eqn:HS.
  cbn [snd].
  pose proof (targetBytes_not_NaN cfg m Hm) as Htb.
  assert (Hcmp : forall size,
             gt (of_Z size) (targetBytes cfg)
             = negb (le (of_Z size) (targetBytes cfg))).
  { intros size. unfold gt, of_Z.
    destruct (targetBytes cfg); [congruence | reflexivity ..]. }
  pose proof (simple_first_two cfg env req uploads f rS wS Hf Hpath HS) as S.
  cbv zeta in S.
  destruct (legacy_cases cfg env req (start uploads) rL wL eq_refl HL)
    as [(C & _) | (f0 & Hf0 & _ & L)]; [congruence |].
  assert (f0 = f) by congruence. subst f0. cbv zeta in L.
  cbn [ticks start] in L.
  destruct L as [[[Hp | Hp] ->] | (d & Hp & L)].
  - destruct S as [[_ ->] | (meta & C & _)]; [| congruence].
    split; reflexivity.
  - exfalso. apply (Hformat _ Hp). reflexivity.
  - destruct S as [[C _] | (meta & Hp' & S)]; [congruence |].
    assert (meta = {| format := Some {| duration := d |} |}) by congruence.
    subst meta.
    assert (Ev : Simple.initialVideoKbps cfg
                   (Simple.totalKbps cfg
                      (Simple.duration
                         {| format := Some {| duration := d |} |}))
                 = Legacy.videoKbps cfg
                     (Legacy.totalKbps cfg (Legacy.duration d))).
    { unfold Simple.initialVideoKbps, Simple.totalKbps, Simple.duration,
        Legacy.videoKbps, Legacy.totalKbps, Legacy.duration, format_duration.
      cbn [format duration]. reflexivity. }
    rewrite Ev in S. clear Ev.
    remember (Legacy.videoKbps cfg (Legacy.totalKbps cfg (Legacy.duration d)))
      as v0 eqn:Ev0.
    remember {| call_input := path f;
                call_output :=
                  in_TMP_DIR (decimal (Date_now env 0) ++ "_"
                              ++ outName (originalname f))%string;
                call_videoKbps := v0;
                call_audioKbps := AUDIO_KBPS cfg;
                call_maxWidth := MAX_WIDTH cfg |} as c0 eqn:Ec0.
    destruct L as [[Lrej ->] | (size & Lw & L)].
    + destruct S as [[_ ->] | (size' & Sw & _)]; [| congruence].
      cbn [encodes add_timer with_res]. rewrite encodes_left_behind.
      cbn [encodes add_timer with_res log_call tick start app firstn map].
      rewrite Ec0. split; reflexivity.
    + destruct S as [[Srej _] | (size' & Sw & S)]; [congruence |].
      assert (size' = size) by congruence. subst size'.
      rewrite Hcmp in L.
      destruct L as [[Lfit ->] | [Lover L]].
      * apply Bool.negb_false_iff in Lfit.
        destruct S as [[_ ->] | [C _]]; [| congruence].
        cbn [encodes add_timer with_res log_call put_file tick start app
               firstn map].
        rewrite Ec0. split; reflexivity.
      * apply Bool.negb_true_iff in Lover.
        destruct S as [[C _] | [_ (c1 & more & -> & Hv1)]]; [congruence |].
        unfold Legacy.retryKbps in L.
        destruct L as [[_ ->] | (size1 & _ & ->)];
          cbn [encodes add_timer with_res];
          rewrite ?encodes_left_behind;
          cbn [encodes add_timer with_res log_call put_file drop_file tick
                 start app firstn map call_videoKbps];
          rewrite Hv1, Ec0; split; reflexivity.
Qed.

(** The thirty-second example with outputs that never fit. *)
Lemma earlier_revision_is_the_first_cut_after_two_witness :
  map call_videoKbps
    (encodes (snd (Legacy.upload defaults never_fits request
                     (start uploaded))))
  = firstn 2
      (map call_videoKbps
         (encodes (snd (Simple.upload defaults never_fits request
                          (start uploaded)))))
  /\ List.length (encodes (snd (Simple.upload defaults never_fits request
                                  (start uploaded)))) = 3%nat.
Proof.
  split; [| vm_compute; reflexivity].
  refine (proj2 (earlier_revision_is_the_first_cut_after_two defaults
                   never_fits request uploaded
                   {| path := "tmp/3f2a9c";
                      originalname := Some "../../evil name!.mov" |}
                   (rn (98 # 10)) eq_refl eq_refl _ _)).
  - discriminate.
  - intros meta H. inversion H. discriminate.
Defined.

(** X24. What the callback of [cleanupLater] does to the temporary
    directory once all timers of a request have fired: a listed path that
    is not empty is gone, a path on no list is as the request left it, and
    no file appears or changes size; [null] entries and paths that are
    already missing are skipped without harm. *)
Theorem timers_remove_exactly_the_listed_paths :
  forall w p,
    (In p (scheduled w) -> p <> EmptyString ->
     lookup p (after_timers w) = None)
    /\ (~ In p (scheduled w) ->
        lookup p (after_timers w) = lookup p (files w))
    /\ (forall size, lookup p (after_timers w) = Some size ->
                     lookup p (files w) = Some size)
    /\ (forall paths fs,
          lookup p (fire (None :: paths) fs) = lookup p (fire paths fs)
          /\ (lookup p fs = None -> lookup p (fire paths fs) = None)).
Proof.
  intros w p.
  split; [apply after_timers_scheduled |].
  split; [apply after_timers_other |].
  split; [intros size; apply after_timers_sub |].
  intros paths fs. split; [reflexivity |].
  intros Hnone. destruct (lookup p (fire paths fs)) as [v |] eqn:E;
    [| reflexivity].
  apply lookup_fire_sub in E. congruence.
Qed.



End Behaviour.
